(** * Study 04 (periodic resonance map): cost engines, statistics and null models

    A shallow embedding of the numerical core of the [study04] package:
    - [topology_engine.py]: catalog loader, prime-vector normaliser and the
      simple cost engine;
    - [resonant_engine.py]: amplitude fit, per-term costs, arg-min and confidence;
    - [analysis.py]: Cliff's delta, Mann-Whitney wrapper, working set,
      classifier evaluation and block statistics;
    - [null_models.py]: empirical p-value, z-score, permutation/rotation nulls;
    - [data.py]: inclusion rules and per-element aggregation with the
      block-uniqueness check.
    The modules below follow the source files; [Spec] and [Props] hold the
    vocabulary of the statements, [Examples] and [Cases] concrete tables and
    catalogs, and the properties come last.

    Numbers.  The Python code computes on binary64 values.  They are modelled
    by [float]: a rational, one of the two infinities, or NaN.  The special
    values follow the IEEE rules the code relies on (NaN propagates, every
    ordered comparison with NaN is false, inf/inf is NaN); arithmetic on
    finite values is exact.  Where a statement depends on the value of a
    sum, product, quotient or square, it is therefore made for inputs of
    magnitude at most [Spec.BOUND] and scales of magnitude at least its
    inverse, a range in which no operation of the code overflows and no
    Python-float division or power raises, and it asks of a rounded sum
    only that it is the exact one within a tolerance.

    Tables.  A pandas table is the list of its rows, a row a record of the
    columns the code reads; a missing numeric cell is NaN and a missing text
    cell [None].

    Exceptions.  A function that can raise returns a [result]; the
    scikit-learn cross-validation is a routine that can raise. *)

From Stdlib Require Import String Ascii DecimalString ZArith QArith Qabs Lia Lqa Bool List.
Import ListNotations.

Local Open Scope Q_scope.

(** ** Floating values *)

Module Float.

Inductive float : Type :=
| NaN
| NInf
| Fin (q : Q)
| PInf.

Definition isnan (x : float) : bool :=
  match x with NaN => true | _ => false end.

(** Sign of a finite rational as a comparison with zero. *)
Definition Qsgn (q : Q) : comparison := Qcompare q 0.

Definition fneg (x : float) : float :=
  match x with
  | NaN => NaN
  | NInf => PInf
  | Fin q => Fin (- q)
  | PInf => NInf
  end.

Definition fabs (x : float) : float :=
  match x with
  | NaN => NaN
  | NInf => PInf
  | Fin q => Fin (Qabs q)
  | PInf => PInf
  end.

Definition fadd (x y : float) : float :=
  match x, y with
  | NaN, _ | _, NaN => NaN
  | PInf, NInf | NInf, PInf => NaN
  | PInf, _ | _, PInf => PInf
  | NInf, _ | _, NInf => NInf
  | Fin a, Fin b => Fin (a + b)
  end.

Definition fsub (x y : float) : float := fadd x (fneg y).

(** An infinity of the sign given by [c]; zero times infinity is NaN. *)
Definition inf_of_sign (c : comparison) : float :=
  match c with
  | Gt => PInf
  | Lt => NInf
  | Eq => NaN
  end.

Definition flip (c : comparison) : comparison := CompOpp c.

Definition fmul (x y : float) : float :=
  match x, y with
  | NaN, _ | _, NaN => NaN
  | PInf, PInf | NInf, NInf => PInf
  | PInf, NInf | NInf, PInf => NInf
  | PInf, Fin b => inf_of_sign (Qsgn b)
  | Fin a, PInf => inf_of_sign (Qsgn a)
  | NInf, Fin b => inf_of_sign (flip (Qsgn b))
  | Fin a, NInf => inf_of_sign (flip (Qsgn a))
  | Fin a, Fin b => Fin (a * b)
  end.

(** Division with the numpy convention for a zero divisor: x/0 is an
    infinity of the sign of x, and 0/0 is NaN. *)
Definition fdiv (x y : float) : float :=
  match x, y with
  | NaN, _ | _, NaN => NaN
  | (PInf | NInf), (PInf | NInf) => NaN
  | Fin _, (PInf | NInf) => Fin 0
  | PInf, Fin b => match Qsgn b with Lt => NInf | _ => PInf end
  | NInf, Fin b => match Qsgn b with Lt => PInf | _ => NInf end
  | Fin a, Fin b =>
      match Qsgn b with
      | Eq => inf_of_sign (Qsgn a)
      | _ => Fin (a / b)
      end
  end.

(** [x ** 2] *)
Definition fsquare (x : float) : float := fmul x x.

(** Ordered comparisons: false as soon as one side is NaN. *)
Definition fltb (x y : float) : bool :=
  match x, y with
  | NaN, _ | _, NaN => false
  | _, NInf => false
  | NInf, _ => true
  | PInf, _ => false
  | Fin _, PInf => true
  | Fin a, Fin b => match Qcompare a b with Lt => true | _ => false end
  end.

Definition fleb (x y : float) : bool :=
  match x, y with
  | NaN, _ | _, NaN => false
  | NInf, _ => true
  | _, NInf => false
  | _, PInf => true
  | PInf, _ => false
  | Fin a, Fin b => match Qcompare a b with Gt => false | _ => true end
  end.

(** Python's [==] on floats. *)
Definition feqb (x y : float) : bool :=
  match x, y with
  | NInf, NInf | PInf, PInf => true
  | Fin a, Fin b => Qeq_bool a b
  | _, _ => false
  end.

Definition fgtb (x y : float) : bool := fltb y x.
Definition fgeb (x y : float) : bool := fleb y x.

(** The same number: equal rationals, the same infinity, or both NaN.
    This is identity of values, not Python's [==]. *)
Definition same (x y : float) : Prop :=
  match x, y with
  | NaN, NaN | NInf, NInf | PInf, PInf => True
  | Fin a, Fin b => a == b
  | _, _ => False
  end.

(** Python's builtin [max(a, b)]: the first argument unless the second
    compares strictly greater. *)
Definition py_max2 (a b : float) : float := if fgtb b a then b else a.

(** Python's builtin [max] over a non-empty list ([None] stands for the
    [ValueError] on an empty one). *)
Definition py_max (l : list float) : option float :=
  match l with
  | [] => None
  | x :: r => Some (fold_left py_max2 r x)
  end.

(** [np.maximum] / [np.minimum]: NaN propagates. *)
Definition np_maximum (a b : float) : float :=
  if isnan a || isnan b then NaN else if fltb a b then b else a.

Definition np_minimum (a b : float) : float :=
  if isnan a || isnan b then NaN else if fltb b a then b else a.

(** [np.clip(x, lo, hi)] *)
Definition np_clip (x lo hi : float) : float :=
  np_minimum (np_maximum x lo) hi.

(** [arr.sum()] of a float array. *)
Definition np_sum (l : list float) : float := fold_left fadd l (Fin 0).

(** [Series.dropna()] on a float column. *)
Definition dropna (l : list float) : list float :=
  filter (fun x => negb (isnan x)) l.

(** [Series.min()] / [Series.max()] of a NaN-free column; NaN when empty. *)
Definition series_min (l : list float) : float :=
  match l with
  | [] => NaN
  | x :: r => fold_left (fun m y => if fltb y m then y else m) r x
  end.

Definition series_max (l : list float) : float :=
  match l with
  | [] => NaN
  | x :: r => fold_left (fun m y => if fltb m y then y else m) r x
  end.

End Float.

Import Float.

Declare Scope float_scope.
Delimit Scope float_scope with fl.
Infix "+" := fadd : float_scope.
Infix "-" := fsub : float_scope.
Infix "*" := fmul : float_scope.
Infix "/" := fdiv : float_scope.
Infix "<?" := fltb : float_scope.
Infix "<=?" := fleb : float_scope.
Infix "=?" := feqb : float_scope.

Local Open Scope string_scope.

(** ** topology_engine.py: the simple cost formulation *)

Module TopologyEngine.

(** The four fingerprint components, in the order of [PRIME_COLUMNS]. *)
Inductive prime : Type := E2 | E3 | E5 | E7.

Definition PRIME_COLUMNS : list prime := [E2; E3; E5; E7].

Record Topology : Type := {
  topology_id : string;
  name : string;
  n_nodes : Z;
  w : list float;
  noise_sensitivity : float
}.

(** One row of the per-element aggregate table ([carrier_df]).  A missing
    cell of a numeric column is NaN, as pandas reads it. *)
Record CarrierRow : Type := {
  carrier_element : string;
  block : string;
  n_materials : Z;
  abs_mean : prime -> float;
  abs_median : prime -> float;
  N_median : float;
  delta_N_median : float;
  xi_ext_median : float
}.

(** Element-wise array operations on arrays of one shape. *)
Definition vmap2 (f : float -> float -> float) (a b : list float) : list float :=
  map (fun p => f (fst p) (snd p)) (combine a b).

Definition vsub : list float -> list float -> list float := vmap2 fsub.

Definition uniform : list float :=
  [Fin (1 # 4); Fin (1 # 4); Fin (1 # 4); Fin (1 # 4)].

Definition normalize_primes (row : CarrierRow) : list float :=
  let vec := map (abs_mean row) PRIME_COLUMNS in
  let vec := map fabs vec in
  let s := np_sum vec in
  if (s <=? Fin 0)%fl then uniform
  else map (fun x => (x / s)%fl) vec.

(** [np.linalg.norm(d) ** 2]: the Euclidean norm is the square root of the
    sum of the squared components, and the result is squared again; on exact
    values this is the sum of squares. *)
Definition norm_sq (d : list float) : float := np_sum (map fsquare d).

Definition compute_ce (vec : list float) (topo : Topology) : float :=
  norm_sq (vsub vec (w topo)).

Record ScoreRecord : Type := {
  sc_carrier_element : string;
  sc_topology_id : string;
  C_e : float;
  C_xi : float;
  C_total : float;
  sc_Q_lock : float;
  sc_xi_norm : float
}.

Record BestRecord : Type := {
  b_carrier_element : string;
  b_block : string;
  b_Q_lock : float;
  b_xi_norm : float;
  best_topology_e_only : option string;
  C_e_min : option float;
  best_topology : option string;
  C_total_min : option float
}.

(** [max(hi - lo, 1e-6)] *)
Definition span (lo hi : float) : float :=
  py_max2 (hi - lo)%fl (Fin (1 # 1000000)).

(** Column statistics computed once, before the loop over the rows. *)
Record ColumnStats : Type := {
  delta_min : float;
  delta_span : float;
  xi_min : float;
  xi_span : float
}.

Definition column_stats (carrier_df : list CarrierRow) : ColumnStats :=
  let delta_vals := dropna (map delta_N_median carrier_df) in
  let xi_vals := dropna (map xi_ext_median carrier_df) in
  {| delta_min := series_min delta_vals;
     delta_span := span (series_min delta_vals) (series_max delta_vals);
     xi_min := series_min xi_vals;
     xi_span := span (series_min xi_vals) (series_max xi_vals) |}.

Definition row_Q_lock (st : ColumnStats) (row : CarrierRow) : float :=
  let delta_N := delta_N_median row in
  if isnan delta_N then Fin 0
  else np_clip (Fin 1 - (delta_N - delta_min st) / delta_span st)%fl (Fin 0) (Fin 1).

Definition row_xi_norm (st : ColumnStats) (row : CarrierRow) : float :=
  let xi_ext := xi_ext_median row in
  if isnan xi_ext then Fin 0
  else np_clip ((xi_ext - xi_min st) / xi_span st)%fl (Fin 0) (Fin 1).

(** The three cost terms of one (row, topology) pair. *)
Definition cost_terms (lambda_noise : float) (use_noise : bool)
    (Q_lock xi_norm : float) (e_norm : list float) (topo : Topology)
    : float * float * float :=
  let c_e := compute_ce e_norm topo in
  let c_xi :=
    if use_noise then (xi_norm * noise_sensitivity topo * (Fin 1 - Q_lock))%fl
    else Fin 0 in
  let c_total := if use_noise then (c_e + lambda_noise * c_xi)%fl else c_e in
  (c_e, c_xi, c_total).

(** One pass of
    [if best is None or c < best: best = c; best_topo = topo.topology_id]. *)
Definition keep_best (best : option (string * float)) (tid : string) (c : float)
    : option (string * float) :=
  match best with
  | None => Some (tid, c)
  | Some (_, b) => if (c <? b)%fl then Some (tid, c) else best
  end.

(** State of the loop over the catalog, for one row. *)
Record LoopState : Type := {
  records : list ScoreRecord;
  best_e : option (string * float);
  best_tot : option (string * float)
}.

Definition catalog_step (lambda_noise : float) (use_noise : bool)
    (row : CarrierRow) (Q_lock xi_norm : float) (e_norm : list float)
    (s : LoopState) (topo : Topology) : LoopState :=
  let '(c_e, c_xi, c_total) :=
    cost_terms lambda_noise use_noise Q_lock xi_norm e_norm topo in
  {| records := records s ++
       [{| sc_carrier_element := carrier_element row;
           sc_topology_id := topology_id topo;
           C_e := c_e; C_xi := c_xi; C_total := c_total;
           sc_Q_lock := Q_lock; sc_xi_norm := xi_norm |}];
     best_e := keep_best (best_e s) (topology_id topo) c_e;
     best_tot := keep_best (best_tot s) (topology_id topo) c_total |}.

Definition row_loop (lambda_noise : float) (use_noise : bool)
    (st : ColumnStats) (catalog : list Topology) (row : CarrierRow) : LoopState :=
  let e_norm := normalize_primes row in
  let Q_lock := row_Q_lock st row in
  let xi_norm := row_xi_norm st row in
  fold_left (catalog_step lambda_noise use_noise row Q_lock xi_norm e_norm)
    catalog {| records := []; best_e := None; best_tot := None |}.

Definition row_best (lambda_noise : float) (use_noise : bool)
    (st : ColumnStats) (catalog : list Topology) (row : CarrierRow) : BestRecord :=
  let s := row_loop lambda_noise use_noise st catalog row in
  {| b_carrier_element := carrier_element row;
     b_block := block row;
     b_Q_lock := row_Q_lock st row;
     b_xi_norm := row_xi_norm st row;
     best_topology_e_only := option_map fst (best_e s);
     C_e_min := option_map snd (best_e s);
     best_topology := option_map fst (best_tot s);
     C_total_min := option_map snd (best_tot s) |}.

(** [aggregate_costs]: the score table and the best-assignment table. *)
Definition aggregate_costs (carrier_df : list CarrierRow)
    (catalog : list Topology) (lambda_noise : float) (use_noise : bool)
    : list ScoreRecord * list BestRecord :=
  let st := column_stats carrier_df in
  (flat_map (fun row => records (row_loop lambda_noise use_noise st catalog row))
     carrier_df,
   map (row_best lambda_noise use_noise st catalog) carrier_df).

End TopologyEngine.

(** ** Python results: a value or a raised exception *)

Inductive exn : Type :=
| ValueError (msg : string)
| TypeError (msg : string).

Inductive result (A : Type) : Type :=
| Ok (a : A)
| Raise (e : exn).

Arguments Ok {A} a.
Arguments Raise {A} e.

Definition bind {A B : Type} (r : result A) (k : A -> result B) : result B :=
  match r with
  | Ok a => k a
  | Raise e => Raise e
  end.

Definition raises {A : Type} (r : result A) : bool :=
  match r with Raise _ => true | Ok _ => false end.

(** ** resonant_engine.py: the richer cost formulation *)

Module ResonantEngine.

Import TopologyEngine.

(** [dict.get(key, default)] on a string-keyed table. *)
Fixpoint dict_get (d : list (string * float)) (key : string) (default : float) : float :=
  match d with
  | [] => default
  | (k, v) :: r => if String.eqb k key then v else dict_get r key default
  end.

Definition COMPLEXITY : list (string * float) :=
  [("BIN_DIPOLE", Fin (2 # 10));
   ("TRI_RING", Fin (4 # 10));
   ("TETRA_PACK", Fin (6 # 10));
   ("PENTA_FLOWER", Fin (8 # 10));
   ("HEPTA_FLOWER", Fin 1)].

Definition N_SCALE : list (string * float) :=
  [("BIN_DIPOLE", Fin 1);
   ("TRI_RING", Fin (115 # 100));
   ("TETRA_PACK", Fin (130 # 100));
   ("PENTA_FLOWER", Fin (145 # 100));
   ("HEPTA_FLOWER", Fin (160 # 100))].

Record HyperParams : Type := {
  sigma_e : float;
  sigma_N : float;
  sigma_xi : float;
  lambda_N : float;
  lambda_xi : float;
  xi_env : float;
  k_core : float
}.

Definition default_params : HyperParams :=
  {| sigma_e := Fin (1 # 10);
     sigma_N := Fin 1;
     sigma_xi := Fin (1 # 2);
     lambda_N := Fin (1 # 2);
     lambda_xi := Fin (1 # 2);
     xi_env := Fin (5 # 100);
     k_core := Fin 1 |}.

(** Median of the absolute values, falling back to the mean when the
    median is missing; NaN when both are. *)
Definition _prime_vector (row : CarrierRow) : list float :=
  map (fun p =>
         let val := abs_median row p in
         let val := if isnan val then abs_mean row p else val in
         if isnan val then NaN else fabs val)
      PRIME_COLUMNS.

(** Boolean-mask indexing [a[mask]]. *)
Fixpoint select (mask : list bool) (a : list float) : list float :=
  match mask, a with
  | m :: ms, x :: xs => if m then x :: select ms xs else select ms xs
  | _, _ => []
  end.

Definition dot (a b : list float) : float := np_sum (vmap2 fmul a b).

Definition _fit_amplitude (e_obs w : list float) (sigma_e : float)
    : float * float * list float :=
  let mask := map (fun x => negb (isnan x)) e_obs in
  if negb (existsb (fun m => m) mask) then
    (NaN, PInf, map (fun _ => NaN) e_obs)
  else
    let w_m := select mask w in
    let e_m := select mask e_obs in
    let denom := dot w_m w_m in
    let A := if (denom <=? Fin 0)%fl then Fin 0 else (dot e_m w_m / denom)%fl in
    let e_sim := map (fun x => (A * x)%fl) w in
    let ce :=
      np_sum (map (fun d => fsquare (d / sigma_e)%fl)
                  (vsub (select mask e_obs) (select mask e_sim))) in
    (A, ce, e_sim).

Definition _q_lock (delta_N : float) : float :=
  if isnan delta_N then Fin 0
  else np_clip (Fin 1 - delta_N)%fl (Fin 0) (Fin 1).

Definition _xi_sim (q_lock : float) (topo_id : string) (params : HyperParams) : float :=
  (xi_env params + (Fin 1 - q_lock) * dict_get COMPLEXITY topo_id (Fin 1))%fl.

Definition _n_sim (N_obs : float) (topo_id : string) : option float :=
  if isnan N_obs then None
  else Some (N_obs * dict_get N_SCALE topo_id (Fin 1))%fl.

Record Score : Type := {
  s_topology_id : string;
  s_C_e : float;
  s_C_N : float;
  s_C_xi : float;
  s_C_total : float;
  s_A_T : float
}.

(** The score of one (row, topology) pair. *)
Definition score (params : HyperParams) (row : CarrierRow) (topo : Topology) : Score :=
  let e_obs := _prime_vector row in
  let N_obs := N_median row in
  let xi_obs := xi_ext_median row in
  let q_lock := _q_lock (delta_N_median row) in
  let '(A_T, C_e, e_sim) := _fit_amplitude e_obs (w topo) (sigma_e params) in
  let C_N :=
    match _n_sim N_obs (topology_id topo) with
    | Some N_sim =>
        if negb (isnan N_obs) then fsquare ((N_obs - N_sim) / sigma_N params)%fl
        else Fin 0
    | None => Fin 0
    end in
  let xi_sim := _xi_sim q_lock (topology_id topo) params in
  let C_xi :=
    if negb (isnan xi_obs) then fsquare ((xi_obs - xi_sim) / sigma_xi params)%fl
    else Fin 0 in
  let C_total := (C_e + lambda_N params * C_N + lambda_xi params * C_xi)%fl in
  {| s_topology_id := topology_id topo;
     s_C_e := C_e; s_C_N := C_N; s_C_xi := C_xi; s_C_total := C_total;
     s_A_T := A_T |}.

(** The six [best_*] variables of the loop, assigned together. *)
Definition keep_best_score (best : option Score) (s : Score) : option Score :=
  match best with
  | None => Some s
  | Some b => if (s_C_total s <? s_C_total b)%fl then Some s else best
  end.

Record Best : Type := {
  r_carrier_element : string;
  r_Q_lock : float;
  r_best : option Score;
  element_totals : list float;
  confidence : float
}.

(** [0.0 if not element_totals or max_total == 0
     else 1.0 - (best_total / max_total)] *)
Definition confidence_of (element_totals : list float) (best_total : option float)
    : float :=
  let max_total :=
    match py_max element_totals with
    | Some m => m
    | None => PInf
    end in
  match element_totals, best_total with
  | [], _ => Fin 0
  | _, None => Fin 0
  | _, Some b =>
      if (max_total =? Fin 0)%fl then Fin 0
      else (Fin 1 - b / max_total)%fl
  end.

Definition infer_row (params : HyperParams) (catalog : list Topology)
    (row : CarrierRow) : list Score * Best :=
  let scores := map (score params row) catalog in
  let best := fold_left keep_best_score scores None in
  let totals := map s_C_total scores in
  (scores,
   {| r_carrier_element := carrier_element row;
      r_Q_lock := _q_lock (delta_N_median row);
      r_best := best;
      element_totals := totals;
      confidence := confidence_of totals (option_map s_C_total best) |}).

(** [infer_topologies]: an optional element filter, a fatal error when
    nothing is left, then one pass per row.  The columns used only for
    plotting ([delta_norm], [xi_norm]) are not part of the model. *)
Definition infer_topologies (carrier_df : list CarrierRow)
    (catalog : list Topology) (params : HyperParams)
    (elements : option (list string))
    : result (list Score * list Best) :=
  let df :=
    match elements with
    | None | Some [] => carrier_df
    | Some els =>
        filter (fun r => existsb (String.eqb (carrier_element r)) els) carrier_df
    end in
  match df with
  | [] => Raise (ValueError "No carriers to process after filtering; check --elements")
  | _ =>
      let rows := map (infer_row params catalog) df in
      Ok (flat_map fst rows, map snd rows)
  end.

End ResonantEngine.

(** ** Library routines the code calls

    Routines of numpy, scipy, scikit-learn and pandas that are outside the
    repository: the bit generator behind [np.random.default_rng] with the two
    draws the null models make, and the numerical routines whose results the
    code only passes on.  Each is a function of its arguments; a draw is a
    function of the generator state and returns the next state. *)

Module Lib.

(** Cross-validation strategy chosen by [evaluate_classifier]. *)
Inductive cv_strategy : Type :=
| LeaveOneOut
| StratifiedKFold (n_splits : nat) (random_state : Z).

(** What the scikit-learn calls of the full path produce: the two accuracies
    of the out-of-fold predictions, and the ROC-AUC with its curve unless
    [roc_auc_score] raised [ValueError]. *)
Record CvMetrics : Type := {
  cv_accuracy : float;
  cv_balanced_accuracy : float;
  cv_roc : option (float * (list float * list float * list float))
}.

Class Libraries : Type := {
  (** State of a numpy bit generator, its seeding, [Generator.permutation]
      on a label vector and [Generator.normal(size=(dim, dim))]. *)
  bitgen : Type;
  seed_bitgen : Z -> bitgen;
  draw_permutation : bitgen -> list string -> list string * bitgen;
  draw_normal : bitgen -> nat -> list (list float) * bitgen;
  (** [np.linalg.qr], [np.median], [arr.std(ddof=1)], [np.nanmean],
      [np.nanstd(..., ddof=1)]. *)
  linalg_qr : list (list float) -> list (list float) * list (list float);
  np_median : list float -> float;
  np_std1 : list float -> float;
  np_nanmean : list (option float) -> result float;
  np_nanstd1 : list (option float) -> result float;
  (** scipy's [mannwhitneyu(a, b, alternative="two-sided").pvalue]. *)
  mannwhitneyu_pvalue : list float -> list float -> float;
  (** [cross_val_predict] on the balanced logistic model followed by the
      metric functions of scikit-learn; the fit of a fold can raise, for
      instance on a training fold that holds a single class. *)
  cross_val_metrics : list (list float) -> list bool -> cv_strategy -> result CvMetrics;
  (** pandas' [Series.mean()], [Series.median()], [Series.std(ddof=1)]. *)
  series_mean : list float -> float;
  series_median : list float -> float;
  series_std : list float -> float
}.

End Lib.

(** ** analysis.py: effect size, rank test wrapper, classifier evaluation *)

Module Analysis.

Import TopologyEngine Lib.

(** [np.sign] *)
Definition np_sign (x : float) : float :=
  match x with
  | NaN => NaN
  | NInf => Fin (-1)
  | PInf => Fin 1
  | Fin q =>
      match Qsgn q with
      | Lt => Fin (-1)
      | Eq => Fin 0
      | Gt => Fin 1
      end
  end.

(** The matrix [np.sign(x[:, None] - y[None, :])], row by row. *)
Definition comparisons (x y : list float) : list (list float) :=
  map (fun xi => map (fun yj => np_sign (xi - yj)%fl) y) x.

(** [matrix.sum()]: all entries, in row-major order. *)
Definition matrix_sum (m : list (list float)) : float := np_sum (concat m).

Definition float_of_nat (n : nat) : float := Fin (inject_Z (Z.of_nat n)).

Definition cliffs_delta (x y : list float) : float :=
  let n1 := length x in
  let n2 := length y in
  if (n1 =? 0)%nat || (n2 =? 0)%nat then NaN
  else (matrix_sum (comparisons x y) / float_of_nat (n1 * n2))%fl.

(** [np.isin(labels, target_labels)] *)
Definition isin (labels targets : list string) : list bool :=
  map (fun l => existsb (String.eqb l) targets) labels.

Definition _group_arrays (values : list float) (labels targets : list string)
    : list float :=
  ResonantEngine.select (isin labels targets) values.

Record TestResult : Type := {
  group_sizes : nat * nat;
  delta : option float;
  p_value : option float;
  median_diff : option float
}.

Record ClassifierResult : Type := {
  n_samples : nat;
  n_positive : nat;
  n_negative : nat;
  accuracy : option float;
  balanced_accuracy : option float;
  roc_auc : option float;
  baseline_accuracy : option float;
  roc_curve_points : option (list float * list float * list float)
}.

Section External.

Context `{L : Lib.Libraries}.

Definition mann_whitney_with_effect (values : list float) (labels : list string)
    (group_a group_b : list string) : TestResult :=
  let a_vals := _group_arrays values labels group_a in
  let b_vals := _group_arrays values labels group_b in
  let sizes := (length a_vals, length b_vals) in
  if (length a_vals =? 0)%nat || (length b_vals =? 0)%nat then
    {| group_sizes := sizes; delta := None; p_value := None; median_diff := None |}
  else
    {| group_sizes := sizes;
       delta := Some (cliffs_delta a_vals b_vals);
       p_value := Some (mannwhitneyu_pvalue a_vals b_vals);
       median_diff := Some (np_median a_vals - np_median b_vals)%fl |}.

(** [len(np.unique(y))] for a 0/1 vector. *)
Definition n_unique (y : list bool) : nat :=
  ((if existsb (fun b => b) y then 1 else 0)
   + (if existsb negb y then 1 else 0))%nat.

(** [StratifiedKFold(n_splits=..., shuffle=True, random_state=...)]: the
    constructor of scikit-learn rejects fewer than two folds. *)
Definition n_splits_error (n_splits : nat) : exn :=
  ValueError
    ("k-fold cross-validation requires at least one train/test split by setting n_splits=2 or more, got n_splits="
     ++ NilZero.string_of_uint (Nat.to_uint n_splits) ++ ".").

Definition stratified_kfold (n_splits : nat) (random_state : Z) : result cv_strategy :=
  if (n_splits <=? 1)%nat then Raise (n_splits_error n_splits)
  else Ok (StratifiedKFold n_splits random_state).

Definition evaluate_classifier (X : list (list float)) (labels : list string)
    (random_state : Z) : result ClassifierResult :=
  let y := isin labels ["d"; "f"] in
  let n_positive := length (filter (fun b => b) y) in
  let n_negative := (length y - n_positive)%nat in
  let baseline_acc :=
    if (0 <? length y)%nat
    then Some (float_of_nat (Nat.max n_positive n_negative) / float_of_nat (length y))%fl
    else None in
  if (n_unique y <? 2)%nat || (length y <? 3)%nat then
    Ok {| n_samples := length y;
          n_positive := n_positive;
          n_negative := n_negative;
          accuracy := None;
          balanced_accuracy := None;
          roc_auc := None;
          baseline_accuracy := baseline_acc;
          roc_curve_points := None |}
  else
    bind (if (length y <=? 12)%nat then Ok LeaveOneOut
          else stratified_kfold (Nat.min 5 (Nat.min n_negative n_positive)) random_state)
      (fun cv =>
    bind (cross_val_metrics X y cv) (fun m =>
      Ok {| n_samples := length y;
            n_positive := n_positive;
            n_negative := n_negative;
            accuracy := Some (cv_accuracy m);
            balanced_accuracy := Some (cv_balanced_accuracy m);
            roc_auc := option_map fst (cv_roc m);
            baseline_accuracy := baseline_acc;
            roc_curve_points := option_map snd (cv_roc m) |})).

End External.

(** One row of the per-element table produced by [aggregate_element_table]
    (columns [element], [block], [n_materials], [e*_mean], [e*_median]). *)
Record AggRow : Type := {
  element : string;
  agg_block : option string;
  agg_n_materials : Z;
  e_mean : prime -> float;
  e_median : prime -> float
}.

Definition _select_prime_columns (metric : string)
    : result (AggRow -> prime -> float) :=
  if String.eqb metric "mean" then Ok e_mean
  else if String.eqb metric "median" then Ok e_median
  else Raise (ValueError "prime_metric must be 'mean' or 'median'").

(** [prepare_working_set]: the rows with at least [n_min] materials and no
    missing feature or block, their feature matrix and their labels. *)
Definition prepare_working_set (agg_df : list AggRow) (n_min : Z)
    (prime_metric : string)
    : result (list AggRow * list (list float) * list string) :=
  let working := filter (fun r => (n_min <=? agg_n_materials r)%Z) agg_df in
  bind (_select_prime_columns prime_metric) (fun col =>
    let complete (r : AggRow) :=
      forallb (fun p => negb (isnan (col r p))) PRIME_COLUMNS
      && match agg_block r with Some _ => true | None => false end in
    let working := filter complete working in
    let X := map (fun r => map (col r) PRIME_COLUMNS) working in
    let labels :=
      map (fun r => match agg_block r with Some b => b | None => "" end) working in
    Ok (working, X, labels)).

End Analysis.

(** ** null_models.py: empirical significance from resampling *)

Module NullModels.

Import TopologyEngine Analysis Lib.

(** [x is not None and not np.isnan(x)] kept, as an array of floats. *)
Definition finite_samples (null_samples : list (option float)) : list float :=
  flat_map (fun x =>
              match x with
              | None => []
              | Some v => if isnan v then [] else [v]
              end) null_samples.

(** [np.isnan(real)] on an [Optional[float]]: the ufunc rejects [None]. *)
Definition np_isnan_opt (real : option float) : result bool :=
  match real with
  | None => Raise (TypeError "ufunc 'isnan' not supported for the input types")
  | Some r => Ok (isnan r)
  end.

Definition is_none {A : Type} (o : option A) : bool :=
  match o with None => true | Some _ => false end.

(** [np.sum(np.abs(arr) >= abs(real))] *)
Definition count_extreme (arr : list float) (real : float) : nat :=
  length (filter (fun a => fgeb (fabs a) (fabs real)) arr).

(** The guard [np.isnan(real) or real is None or arr.size == 0] evaluates
    its first disjunct first. *)
Definition _empirical_p (real : option float) (null_samples : list (option float))
    : result (option float) :=
  let arr := finite_samples null_samples in
  bind (np_isnan_opt real) (fun real_is_nan =>
    if real_is_nan || is_none real || (length arr =? 0)%nat then Ok None
    else
      match real with
      | None => Ok None
      | Some r =>
          let extreme := count_extreme arr r in
          Ok (Some (float_of_nat (extreme + 1) / float_of_nat (length arr + 1))%fl)
      end).

(** [arr.mean()] *)
Definition np_mean (arr : list float) : float :=
  (np_sum arr / float_of_nat (length arr))%fl.

Record MetricSummary : Type := {
  ms_mean : float;
  ms_std : float;
  ms_p_value : option float;
  ms_z_score : option float;
  ms_real : option float
}.

Inductive NullSummary : Type :=
| Skipped (skipped_reason : string) (n_trials : option Z)
| Summary (entries : list (string * MetricSummary)) (n_trials : Z) (n_elements : nat).

(** Column [j] of a matrix, and the product [A @ B]. *)
Definition column (j : nat) (m : list (list float)) : list float :=
  map (fun row => nth j row NaN) m.

Definition matmul (A B : list (list float)) : list (list float) :=
  map (fun row =>
         map (fun j => ResonantEngine.dot row (column j B))
             (seq 0 (length (hd [] B))))
      A.

Definition np_diag (m : list (list float)) : list float :=
  map (fun i => nth i (nth i m []) NaN) (seq 0 (length m)).

(** ** The process state: the [Generator] objects allocated so far *)

Section Resampling.

Context `{L : Lib.Libraries}.

Record World : Type := { heap : list bitgen }.

(** A computation that reads and updates the process state. *)
Definition M (A : Type) : Type := World -> A * World.

Definition ret {A : Type} (a : A) : M A := fun w => (a, w).

Definition mbind {A B : Type} (c : M A) (k : A -> M B) : M B :=
  fun w => let (a, w') := c w in k a w'.

Notation "x <- c ;; k" := (mbind c (fun x => k))
  (at level 61, c at next level, right associativity).

(** Replace the cell [h] of the heap. *)
Fixpoint set_cell (h : nat) (g : bitgen) (l : list bitgen) : list bitgen :=
  match l, h with
  | [], _ => []
  | _ :: r, O => g :: r
  | x :: r, S h' => x :: set_cell h' g r
  end.

(** [np.random.default_rng(seed)]: a new generator object; its handle. *)
Definition default_rng (seed : Z) : M nat :=
  fun w => (length (heap w), {| heap := (heap w ++ [seed_bitgen seed])%list |}).

(** A draw advances the generator it is called on. *)
Definition with_generator {A : Type} (rng : nat) (draw : bitgen -> A * bitgen)
    (dangling : A) : M A :=
  fun w =>
    match nth_error (heap w) rng with
    | Some g => let (a, g') := draw g in (a, {| heap := set_cell rng g' (heap w) |})
    | None => (dangling, w)
    end.

Definition rng_permutation (rng : nat) (labels : list string) : M (list string) :=
  with_generator rng (fun g => draw_permutation g labels) labels.

Definition rng_normal (rng : nat) (dim : nat) : M (list (list float)) :=
  with_generator rng (fun g => draw_normal g dim) [].

Definition _z_score (real : option float) (null_samples : list (option float))
    : result (option float) :=
  let arr := finite_samples null_samples in
  bind (np_isnan_opt real) (fun real_is_nan =>
    if real_is_nan || is_none real || (length arr <? 2)%nat then Ok None
    else
      match real with
      | None => Ok None
      | Some r => Ok (Some ((r - np_mean arr) / np_std1 arr)%fl)
      end).

(** The four tracked statistics, in the insertion order of the dict: the
    three effect sizes first, then the accuracy of the classifier, whose
    evaluation can raise. *)
Definition _metric_snapshot (X : list (list float)) (labels : list string)
    : result (list (string * option float)) :=
  let e2 := column 0 X in
  let e5 := column 2 X in
  let e7 := column 3 X in
  let metrics :=
    [("delta_e2_p_vs_df",
        Some (cliffs_delta (_group_arrays e2 labels ["p"])
                           (_group_arrays e2 labels ["d"; "f"])));
     ("delta_e5_df_vs_sp",
        Some (cliffs_delta (_group_arrays e5 labels ["d"; "f"])
                           (_group_arrays e5 labels ["s"; "p"])));
     ("delta_e7_df_vs_sp",
        Some (cliffs_delta (_group_arrays e7 labels ["d"; "f"])
                           (_group_arrays e7 labels ["s"; "p"])))] in
  bind (evaluate_classifier X labels 0) (fun clf_res =>
    Ok (metrics ++ [("classifier_accuracy", accuracy clf_res)])%list).

(** [null_samples[key].append(value)] *)
Definition append_sample (key : string) (value : option float)
    (samples : list (string * list (option float)))
    : list (string * list (option float)) :=
  map (fun kv =>
         if String.eqb (fst kv) key then (fst kv, (snd kv ++ [value])%list) else kv)
      samples.

Definition record_metrics (metrics : list (string * option float))
    (samples : list (string * list (option float)))
    : list (string * list (option float)) :=
  fold_left (fun acc kv => append_sample (fst kv) (snd kv) acc) metrics samples.

Definition dict_lookup (d : list (string * option float)) (key : string)
    : option float :=
  match find (fun kv => String.eqb (fst kv) key) d with
  | Some kv => snd kv
  | None => None
  end.

(** One entry of the summary, for the statistic [key]. *)
Definition summarize_key (real_metrics : list (string * option float))
    (key : string) (samples : list (option float)) : result MetricSummary :=
  let real := dict_lookup real_metrics key in
  bind (np_nanmean samples) (fun m =>
  bind (np_nanstd1 samples) (fun s =>
  bind (_empirical_p real samples) (fun p =>
  bind (_z_score real samples) (fun z =>
    Ok {| ms_mean := m; ms_std := s; ms_p_value := p; ms_z_score := z;
          ms_real :=
            match real with
            | None => None
            | Some r => if isnan r then None else Some r
            end |})))).

Fixpoint summarize (real_metrics : list (string * option float))
    (samples : list (string * list (option float)))
    : result (list (string * MetricSummary)) :=
  match samples with
  | [] => Ok []
  | (key, l) :: rest =>
      bind (summarize_key real_metrics key l) (fun e =>
      bind (summarize real_metrics rest) (fun es => Ok ((key, e) :: es)))
  end.

(** The loop [for _ in range(n_perm)]; an exception of a snapshot ends it. *)
Fixpoint permutation_trials (n : nat) (rng : nat) (X : list (list float))
    (labels : list string) (samples : list (string * list (option float)))
    : M (result (list (string * list (option float)))) :=
  match n with
  | O => ret (Ok samples)
  | S k =>
      perm_labels <- rng_permutation rng labels ;;
      match _metric_snapshot X perm_labels with
      | Raise e => ret (Raise e)
      | Ok metrics =>
          permutation_trials k rng X labels (record_metrics metrics samples)
      end
  end.

Definition run_permutation_nulls (agg_df : list AggRow) (n_min : Z)
    (prime_metric : string) (n_perm : Z) (random_state : Z)
    : M (result NullSummary) :=
  match prepare_working_set agg_df n_min prime_metric with
  | Raise e => ret (Raise e)
  | Ok (_, X, labels) =>
      if (length labels =? 0)%nat then
        ret (Ok (Skipped "No elements pass n_min filter." (Some n_perm)))
      else
        rng <- default_rng random_state ;;
        match _metric_snapshot X labels with
        | Raise e => ret (Raise e)
        | Ok real_metrics =>
            let null_samples := map (fun kv => (fst kv, [])) real_metrics in
            trials <- permutation_trials (Z.to_nat n_perm) rng X labels null_samples ;;
            ret (bind trials (fun samples =>
                 bind (summarize real_metrics samples) (fun entries =>
                   Ok (Summary entries n_perm (length labels)))))
        end
  end.

(** [_random_rotation]: QR of a Gaussian matrix, columns of Q multiplied by
    the signs of the diagonal of R. *)
Definition _random_rotation (dim : nat) (rng : nat) : M (list (list float)) :=
  A <- rng_normal rng dim ;;
  let (Q, R) := linalg_qr A in
  let signs := map np_sign (np_diag R) in
  ret (map (fun row => vmap2 fmul row signs) Q).

Fixpoint rotation_trials (n : nat) (rng : nat) (X : list (list float))
    (labels : list string) (samples : list (string * list (option float)))
    : M (result (list (string * list (option float)))) :=
  match n with
  | O => ret (Ok samples)
  | S k =>
      R <- _random_rotation (length (hd [] X)) rng ;;
      let rotated := map (map fabs) (matmul X R) in
      match _metric_snapshot rotated labels with
      | Raise e => ret (Raise e)
      | Ok metrics =>
          rotation_trials k rng X labels (record_metrics metrics samples)
      end
  end.

Definition run_rotation_nulls (agg_df : list AggRow) (n_min : Z)
    (prime_metric : string) (n_rotations : Z) (random_state : Z)
    : M (result NullSummary) :=
  if (n_rotations <=? 0)%Z then ret (Ok (Skipped "n_rotations set to 0." None))
  else
    match prepare_working_set agg_df n_min prime_metric with
    | Raise e => ret (Raise e)
    | Ok (_, X, labels) =>
        if (length labels =? 0)%nat then
          ret (Ok (Skipped "No elements pass n_min filter." (Some n_rotations)))
        else
          rng <- default_rng random_state ;;
          match _metric_snapshot X labels with
          | Raise e => ret (Raise e)
          | Ok real_metrics =>
              let rotation_samples := map (fun kv => (fst kv, [])) real_metrics in
              trials <-
                rotation_trials (Z.to_nat n_rotations) rng X labels rotation_samples ;;
              ret (bind trials (fun samples =>
                   bind (summarize real_metrics samples) (fun entries =>
                     Ok (Summary entries n_rotations (length labels)))))
          end
    end.

End Resampling.

End NullModels.

(** ** data.py: per-element aggregation *)

Module Data.

Import TopologyEngine Lib.

(** One material of the curated table.  A missing cell of a text column is
    [None], of a fingerprint column NaN. *)
Record MaterialRow : Type := {
  material_name : string;
  include_study04 : Z;
  m_carrier_element : option string;
  carrier_block : option string;
  fingerprint : prime -> float
}.

Definition notna {A : Type} (o : option A) : bool :=
  match o with Some _ => true | None => false end.

Definition filter_included_rows (df : list MaterialRow) : list MaterialRow :=
  filter (fun r => (include_study04 r =? 1)%Z
                   && notna (m_carrier_element r)
                   && notna (carrier_block r)) df.

(** [Series.dropna()] on a text column. *)
Definition dropna_text (col : list (option string)) : list string :=
  flat_map (fun o => match o with Some s => [s] | None => [] end) col.

(** [Series.unique()]: distinct values in order of first appearance. *)
Fixpoint unique (l : list string) : list string :=
  match l with
  | [] => []
  | x :: r => x :: filter (fun y => negb (String.eqb x y)) (unique r)
  end.

(** Keys of [groupby]: distinct and sorted. *)
Fixpoint insert_key (k : string) (keys : list string) : list string :=
  match keys with
  | [] => [k]
  | x :: r =>
      if String.eqb k x then keys
      else if String.ltb k x then k :: keys
      else x :: insert_key k r
  end.

Definition group_keys (col : list string) : list string :=
  fold_right insert_key [] col.

Definition has_element (k : string) (r : MaterialRow) : bool :=
  match m_carrier_element r with
  | Some e => String.eqb e k
  | None => false
  end.

(** [filtered.groupby("carrier_element")]: one group per key, rows in their
    original order. *)
Definition groupby (df : list MaterialRow) : list (string * list MaterialRow) :=
  map (fun k => (k, filter (has_element k) df))
      (group_keys (dropna_text (map m_carrier_element df))).

Record ElementRecord : Type := {
  rec_element : string;
  rec_block : string;
  rec_n_materials : nat;
  rec_mean : prime -> float;
  rec_median : prime -> float;
  rec_std : prime -> float
}.

Definition prime_name (p : prime) : string :=
  match p with E2 => "e2" | E3 => "e3" | E5 => "e5" | E7 => "e7" end.

Section Pandas.

Context `{L : Lib.Libraries}.

(** [group[prime].abs().dropna()] *)
Definition abs_values (group : list MaterialRow) (p : prime) : list float :=
  dropna (map (fun r => fabs (fingerprint r p)) group).

Definition prime_warnings (element : string) (group : list MaterialRow)
    : list string :=
  flat_map (fun p =>
              match abs_values group p with
              | [] => [("No valid values for " ++ prime_name p ++ " in element "
                        ++ element ++ "; filling with NaN.")%string]
              | _ => []
              end) PRIME_COLUMNS.

(** The body of the loop over the groups.  The optional descriptor columns
    (atomic number, group, period) are copied when present and cannot fail;
    they are left out of the record.  The message of the error also lists
    the conflicting labels. *)
Definition element_record (element : string) (group : list MaterialRow)
    : result (ElementRecord * list string) :=
  let block_values := unique (dropna_text (map carrier_block group)) in
  match block_values with
  | [block] =>
      Ok ({| rec_element := element;
             rec_block := block;
             rec_n_materials := length group;
             rec_mean := fun p => series_mean (abs_values group p);
             rec_median := fun p => series_median (abs_values group p);
             rec_std := fun p => series_std (abs_values group p) |},
          prime_warnings element group)
  | _ => Raise (ValueError ("Carrier block not unique for element " ++ element)%string)
  end.

Fixpoint aggregate_groups (groups : list (string * list MaterialRow))
    : result (list ElementRecord * list string) :=
  match groups with
  | [] => Ok ([], [])
  | (element, group) :: rest =>
      bind (element_record element group) (fun rw =>
      bind (aggregate_groups rest) (fun tw =>
        Ok (fst rw :: fst tw, (snd rw ++ snd tw)%list)))
  end.

Definition aggregate_element_table (df : list MaterialRow)
    : result (list ElementRecord * list string) :=
  let filtered := filter_included_rows df in
  match filtered with
  | [] => Raise (ValueError "No rows satisfy include_study04 == 1 with valid carriers.")
  | _ => aggregate_groups (groupby filtered)
  end.

End Pandas.

End Data.

(** ** Specification vocabulary *)

Module Spec.

Import TopologyEngine.

Section ArgMin.

Context {A : Type} (cost : A -> float).

(** The shape shared by the two arg-min loops: keep the first entry, replace
    it by any later entry that compares strictly cheaper. *)
Definition keep_first_min (best : option A) (a : A) : option A :=
  match best with
  | None => Some a
  | Some b => if (cost a <? cost b)%fl then Some a else best
  end.

(** [a], at position [i] of [l], is the front-most strict minimum: no entry
    compares strictly cheaper and no earlier entry compares cheaper or equal. *)
Definition front_min (l : list A) (i : nat) (a : A) : Prop :=
  nth_error l i = Some a
  /\ (forall b, In b l -> (cost b <? cost a)%fl = false)
  /\ (forall j b, (j < i)%nat -> nth_error l j = Some b ->
        (cost b <=? cost a)%fl = false).

(** Invariant of the loop after a non-empty prefix [l]. *)
Definition kept (l : list A) (best : option A) : Prop :=
  exists i a, best = Some a /\ front_min l i a.

(** [a], at position [i] of [l], is the arg-min of [cost] over [l] with
    ties broken towards the front; it is a lower bound of all the costs as
    soon as none of them is NaN. *)
Definition argmin_at (l : list A) (i : nat) (a : A) : Prop :=
  front_min l i a
  /\ ((forall b, In b l -> isnan (cost b) = false) ->
      forall b, In b l -> (cost a <=? cost b)%fl = true).

End ArgMin.

(** The cost terms [(C_e, C_xi, C_total)] of a topology for one row of the
    table, with the quantities the simple engine derives from the row. *)
Definition row_terms (lambda_noise : float) (use_noise : bool)
    (st : ColumnStats) (row : CarrierRow) (topo : Topology)
    : float * float * float :=
  cost_terms lambda_noise use_noise (row_Q_lock st row) (row_xi_norm st row)
    (normalize_primes row) topo.

(** Sum of a list of rationals, accumulated from the left as [np_sum] does. *)
Definition Qsum (qs : list Q) : Q := fold_left Qplus qs 0.

(** A value that is a number: neither missing nor infinite. *)
Definition finite (x : float) : Prop := exists q, x = Fin q.

(** A cell of a numeric column: a number, or missing. *)
Definition finite_or_missing (x : float) : Prop := x = NaN \/ finite x.

(** A finite value that is not negative. *)
Definition nonneg (x : float) : Prop := exists q, x = Fin q /\ 0 <= q.


(** A finite value other than zero. *)
Definition nonzero (x : float) : Prop := exists q, x = Fin q /\ ~ q == 0.

(** Hyperparameters under which every cost term of the resonant engine is
    a non-negative number: non-zero scales, non-negative weights. *)
Definition sound_params (params : ResonantEngine.HyperParams) : Prop :=
  nonzero (ResonantEngine.sigma_e params)
  /\ nonzero (ResonantEngine.sigma_N params)
  /\ nonzero (ResonantEngine.sigma_xi params)
  /\ nonneg (ResonantEngine.lambda_N params)
  /\ nonneg (ResonantEngine.lambda_xi params)
  /\ finite (ResonantEngine.xi_env params).

(** A row the resonant engine can score: every cell a number or missing,
    and at least one fingerprint component observed. *)
Definition observed (row : CarrierRow) : Prop :=
  (forall p, finite_or_missing (abs_median row p))
  /\ (forall p, finite_or_missing (abs_mean row p))
  /\ (exists p, isnan (abs_median row p) = false \/ isnan (abs_mean row p) = false)
  /\ finite_or_missing (N_median row)
  /\ finite_or_missing (delta_N_median row)
  /\ finite_or_missing (xi_ext_median row).

(** The rational held by a finite value; 0 for the others. *)
Definition qval (x : float) : Q :=
  match x with Fin q => q | _ => 0 end.

(** A finite value within the closed interval [[lo, hi]]. *)
Definition within (lo hi : Q) (x : float) : Prop :=
  exists q, x = Fin q /\ lo <= q <= hi.

(** The magnitude up to which the statements on computed numbers are made:
    far beyond any measured value, and small enough that no sum, product,
    quotient or square that the engines form from such values leaves the
    range of a double. *)
Definition BOUND : Q := inject_Z (10 ^ 50).

(** A number of moderate magnitude. *)
Definition moderate (x : float) : Prop := exists q, x = Fin q /\ Qabs q <= BOUND.

(** A cell of a numeric column: a number of moderate magnitude, or missing. *)
Definition moderate_or_missing (x : float) : Prop := x = NaN \/ moderate x.

(** A scale: a number neither tiny nor huge, in particular not zero. *)
Definition scale (x : float) : Prop :=
  exists q, x = Fin q /\ / BOUND <= Qabs q <= BOUND.

(** A weight: a number that is not negative, of moderate magnitude. *)
Definition weight (x : float) : Prop := exists q, x = Fin q /\ 0 <= q <= BOUND.


(** Hyperparameters and rows on which the resonant engine neither divides
    by zero nor leaves the range of a double. *)
Definition moderate_params (params : ResonantEngine.HyperParams) : Prop :=
  scale (ResonantEngine.sigma_e params)
  /\ scale (ResonantEngine.sigma_N params)
  /\ scale (ResonantEngine.sigma_xi params)
  /\ weight (ResonantEngine.lambda_N params)
  /\ weight (ResonantEngine.lambda_xi params)
  /\ moderate (ResonantEngine.xi_env params).

Definition moderate_cells (row : CarrierRow) : Prop :=
  (forall p, moderate_or_missing (abs_median row p))
  /\ (forall p, moderate_or_missing (abs_mean row p))
  /\ moderate_or_missing (N_median row)
  /\ moderate_or_missing (delta_N_median row)
  /\ moderate_or_missing (xi_ext_median row).

(** Two materials of one carrier element that carry different block labels. *)
Definition block_conflict (rows : list Data.MaterialRow) : Prop :=
  exists r1 r2,
    In r1 rows /\ In r2 rows
    /\ Data.m_carrier_element r1 = Data.m_carrier_element r2
    /\ Data.carrier_block r1 <> Data.carrier_block r2.

(** Every carrier element has one block label among the given materials. *)
Definition blocks_unique (rows : list Data.MaterialRow) : Prop :=
  forall r1 r2,
    In r1 rows -> In r2 rows ->
    Data.m_carrier_element r1 = Data.m_carrier_element r2 ->
    Data.carrier_block r1 = Data.carrier_block r2.

(** *** The null models as functions of their arguments

    The draws of the trials, read off the generator seeded by
    [random_state], and the summary computed from them. *)

Section NullSpec.

Import Lib Analysis NullModels.

Context `{L : Libraries}.

(** The label vectors of [n] successive permutation draws from [g]. *)
Fixpoint permutation_draws (n : nat) (g : bitgen) (labels : list string)
    : list (list string) * bitgen :=
  match n with
  | O => ([], g)
  | S k =>
      let (p, g') := draw_permutation g labels in
      let (ps, g'') := permutation_draws k g' labels in
      (p :: ps, g'')
  end.

(** The rotation built from one Gaussian matrix. *)
Definition rotation_of (A : list (list float)) : list (list float) :=
  let (Q, R) := linalg_qr A in
  map (fun row => vmap2 fmul row (map np_sign (np_diag R))) Q.

(** The matrices of [n] successive rotation draws from [g]. *)
Fixpoint rotation_draws (n : nat) (g : bitgen) (dim : nat)
    : list (list (list float)) * bitgen :=
  match n with
  | O => ([], g)
  | S k =>
      let (A, g') := draw_normal g dim in
      let (Rs, g'') := rotation_draws k g' dim in
      (rotation_of A :: Rs, g'')
  end.

(** The samples accumulated from the snapshots of the trials, in order, up
    to the first snapshot that raises. *)
Fixpoint collect (snapshots : list (result (list (string * option float))))
    (samples : list (string * list (option float)))
    : result (list (string * list (option float))) :=
  match snapshots with
  | [] => Ok samples
  | Raise e :: _ => Raise e
  | Ok metrics :: rest => collect rest (record_metrics metrics samples)
  end.

Definition summary_of (X : list (list float)) (labels : list string)
    (snapshots : list (result (list (string * option float)))) (n_trials : Z)
    : result NullSummary :=
  bind (_metric_snapshot X labels) (fun real_metrics =>
  bind (collect snapshots (map (fun kv => (fst kv, [])) real_metrics)) (fun samples =>
  bind (summarize real_metrics samples) (fun entries =>
    Ok (Summary entries n_trials (length labels))))).

Definition permutation_null_summary (agg_df : list AggRow) (n_min : Z)
    (prime_metric : string) (n_perm : Z) (random_state : Z)
    : result NullSummary :=
  match prepare_working_set agg_df n_min prime_metric with
  | Raise e => Raise e
  | Ok (_, X, labels) =>
      if (length labels =? 0)%nat then
        Ok (Skipped "No elements pass n_min filter." (Some n_perm))
      else
        let draws :=
          fst (permutation_draws (Z.to_nat n_perm) (seed_bitgen random_state) labels) in
        summary_of X labels (map (_metric_snapshot X) draws) n_perm
  end.

Definition rotation_null_summary (agg_df : list AggRow) (n_min : Z)
    (prime_metric : string) (n_rotations : Z) (random_state : Z)
    : result NullSummary :=
  if (n_rotations <=? 0)%Z then Ok (Skipped "n_rotations set to 0." None)
  else
    match prepare_working_set agg_df n_min prime_metric with
    | Raise e => Raise e
    | Ok (_, X, labels) =>
        if (length labels =? 0)%nat then
          Ok (Skipped "No elements pass n_min filter." (Some n_rotations))
        else
          let draws :=
            fst (rotation_draws (Z.to_nat n_rotations) (seed_bitgen random_state)
                   (length (hd [] X))) in
          summary_of X labels
            (map (fun R => _metric_snapshot (map (map fabs) (matmul X R)) labels) draws)
            n_rotations
    end.

End NullSpec.

End Spec.

(** ** Concrete tables and catalogs *)

Module Examples.

Import TopologyEngine ResonantEngine.

Definition mkrow (el : string) (e2 e3 e5 e7 N dN xi : float) : CarrierRow :=
  {| carrier_element := el;
     block := "p";
     n_materials := 3;
     abs_mean := fun p => match p with E2 => e2 | E3 => e3 | E5 => e5 | E7 => e7 end;
     abs_median := fun p => match p with E2 => e2 | E3 => e3 | E5 => e5 | E7 => e7 end;
     N_median := N;
     delta_N_median := dN;
     xi_ext_median := xi |}.

Definition mktopo (tid : string) (w2 w3 w5 w7 ns : float) : Topology :=
  {| topology_id := tid; name := tid; n_nodes := 2;
     w := [w2; w3; w5; w7]; noise_sensitivity := ns |}.

Definition topo_A : Topology := mktopo "A" (Fin 1) (Fin 0) (Fin 0) (Fin 0) (Fin 1).
Definition topo_B : Topology := mktopo "B" (Fin 0) (Fin 1) (Fin 0) (Fin 0) (Fin 1).
Definition topo_U : Topology :=
  mktopo "U" (Fin (1 # 4)) (Fin (1 # 4)) (Fin (1 # 4)) (Fin (1 # 4)) (Fin 1).

(** Two elements with equal fingerprints; the second is the noisier and
    the less locked one. *)
Definition row_Al : CarrierRow :=
  mkrow "Al" (Fin 1) (Fin 1) (Fin 1) (Fin 1) NaN (Fin 0) (Fin 0).
Definition row_Cu : CarrierRow :=
  mkrow "Cu" (Fin 1) (Fin 1) (Fin 1) (Fin 1) NaN (Fin 1) (Fin 1).

(** An element none of whose fingerprint components was measured. *)
Definition row_missing : CarrierRow := mkrow "Xx" NaN NaN NaN NaN NaN NaN NaN.

(** An element with one observed component and an observed noise level. *)
Definition row_Y : CarrierRow :=
  mkrow "Y" (Fin 1) (Fin 0) (Fin 0) (Fin 0) NaN NaN (Fin (5 # 100)).

(** Hyperparameters with a negative weight on the noise term. *)
Definition params_negative : HyperParams :=
  {| sigma_e := Fin (1 # 10); sigma_N := Fin 1; sigma_xi := Fin (1 # 2);
     lambda_N := Fin (1 # 2); lambda_xi := Fin (-50);
     xi_env := Fin (5 # 100); k_core := Fin 1 |}.

(** A toy instance of the library routines: the bit generator is a counter,
    a permutation draw rotates the labels by one place, and the numerical
    routines return NaN. *)
Definition toy_libraries : Lib.Libraries :=
  {| Lib.bitgen := nat;
     Lib.seed_bitgen := Z.to_nat;
     Lib.draw_permutation := fun g labels =>
       (match labels with
        | [] => []
        | l :: r => (r ++ [l])%list
        end, S g);
     Lib.draw_normal := fun g dim => ([], S g);
     Lib.linalg_qr := fun A => (A, A);
     Lib.np_median := fun _ => NaN;
     Lib.np_std1 := fun _ => NaN;
     Lib.np_nanmean := fun _ => Ok NaN;
     Lib.np_nanstd1 := fun _ => Ok NaN;
     Lib.mannwhitneyu_pvalue := fun _ _ => NaN;
     Lib.cross_val_metrics := fun _ _ _ =>
       Ok {| Lib.cv_accuracy := NaN;
             Lib.cv_balanced_accuracy := NaN;
             Lib.cv_roc := None |};
     Lib.series_mean := fun _ => NaN;
     Lib.series_median := fun _ => NaN;
     Lib.series_std := fun _ => NaN |}.

Definition mkmaterial (nm : string) (flag : Z) (el blk : option string)
    (e2 e3 e5 e7 : float) : Data.MaterialRow :=
  {| Data.material_name := nm;
     Data.include_study04 := flag;
     Data.m_carrier_element := el;
     Data.carrier_block := blk;
     Data.fingerprint :=
       fun p => match p with E2 => e2 | E3 => e3 | E5 => e5 | E7 => e7 end |}.

(** Three included materials on two carriers, and an excluded one. *)
Definition materials_ok : list Data.MaterialRow :=
  [mkmaterial "Nb3Sn" 1 (Some "Nb") (Some "d") (Fin 1) (Fin 2) (Fin 3) (Fin 4);
   mkmaterial "MgB2" 1 (Some "B") (Some "p") (Fin 2) (Fin 1) (Fin 4) (Fin 3);
   mkmaterial "NbTi" 1 (Some "Nb") (Some "d") (Fin (-3)) (Fin 3) NaN (Fin 1);
   mkmaterial "UPt3" 0 (Some "U") (Some "f") (Fin 3) (Fin 3) (Fin 1) (Fin 1)].

(** The carrier "Nb" labelled once as a d-block and once as a p-block element. *)
Definition materials_conflict : list Data.MaterialRow :=
  [mkmaterial "Nb3Sn" 1 (Some "Nb") (Some "d") (Fin 1) (Fin 2) (Fin 3) (Fin 4);
   mkmaterial "NbTi" 1 (Some "Nb") (Some "p") (Fin 3) (Fin 3) (Fin 1) (Fin 1)].

(** A table none of whose materials is included. *)
Definition materials_excluded : list Data.MaterialRow :=
  [mkmaterial "UPt3" 0 (Some "U") (Some "f") (Fin 3) (Fin 3) (Fin 1) (Fin 1)].

Definition mkagg (el blk : string) (n : Z) (e2 e3 e5 e7 : float) : Analysis.AggRow :=
  {| Analysis.element := el;
     Analysis.agg_block := Some blk;
     Analysis.agg_n_materials := n;
     Analysis.e_mean := fun p => match p with E2 => e2 | E3 => e3 | E5 => e5 | E7 => e7 end;
     Analysis.e_median := fun p => match p with E2 => e2 | E3 => e3 | E5 => e5 | E7 => e7 end |}.

(** A table whose elements all belong to one block. *)
Definition table_single_class : list Analysis.AggRow :=
  [mkagg "Al" "p" 5 (Fin 1) (Fin 2) (Fin 3) (Fin 4);
   mkagg "Ga" "p" 4 (Fin 2) (Fin 1) (Fin 4) (Fin 3);
   mkagg "In" "p" 6 (Fin 3) (Fin 3) (Fin 1) (Fin 1)].

(** A table with both classes but only two elements. *)
Definition table_two_elements : list Analysis.AggRow :=
  [mkagg "Al" "p" 5 (Fin 1) (Fin 2) (Fin 3) (Fin 4);
   mkagg "Cu" "d" 4 (Fin 2) (Fin 1) (Fin 4) (Fin 3)].

(** Thirteen elements of which a single one belongs to the d block. *)
Definition labels_one_positive : list string := "d" :: repeat "p" 12.

Definition features_thirteen : list (list float) :=
  repeat [Fin 1; Fin 2; Fin 3; Fin 4] 13.


End Examples.

(** ** topology_engine.py: the catalog loader *)

Module CatalogLoader.

Import TopologyEngine.

(** One object of the catalog file.  A field is [None] when the key is
    absent; a weight given as JSON [null] is NaN once converted to a float
    array. *)
Record CatalogEntry : Type := {
  entry_topology_id : option string;
  entry_name : option string;
  entry_n_nodes : option Z;
  entry_w2 : option float;
  entry_w3 : option float;
  entry_w5 : option float;
  entry_w7 : option float;
  entry_noise_sensitivity : option float
}.

(** The outcome of loading: the value, or the [KeyError] of a subscript
    [entry[key]] on an absent key. *)
Inductive loaded (A : Type) : Type :=
| Loaded (a : A)
| KeyError (key : string).

Arguments Loaded {A} a.
Arguments KeyError {A} key.

(** [entry[key]] *)
Definition subscript {A : Type} (field : option A) (key : string) : loaded A :=
  match field with
  | Some v => Loaded v
  | None => KeyError key
  end.

Definition and_then {A B : Type} (r : loaded A) (k : A -> loaded B) : loaded B :=
  match r with
  | Loaded a => k a
  | KeyError key => KeyError key
  end.

(** [entry.get(key, default)] *)
Definition get_default {A : Type} (field : option A) (default : A) : A :=
  match field with
  | Some v => v
  | None => default
  end.

(** The body of the loop: the four weights are read first, then
    normalised, then the identifier and the optional fields are read. *)
Definition load_entry (entry : CatalogEntry) : loaded Topology :=
  and_then (subscript (entry_w2 entry) "w2") (fun w2 =>
  and_then (subscript (entry_w3 entry) "w3") (fun w3 =>
  and_then (subscript (entry_w5 entry) "w5") (fun w5 =>
  and_then (subscript (entry_w7 entry) "w7") (fun w7 =>
    let w := [w2; w3; w5; w7] in
    let w := map fabs w in
    let s := np_sum w in
    let w := if (s <=? Fin 0)%fl then uniform else map (fun x => (x / s)%fl) w in
    and_then (subscript (entry_topology_id entry) "topology_id") (fun tid =>
      Loaded {| topology_id := tid;
                name := get_default (entry_name entry) tid;
                n_nodes := get_default (entry_n_nodes entry) 0%Z;
                w := w;
                noise_sensitivity :=
                  get_default (entry_noise_sensitivity entry) (Fin 1) |}))))).

Fixpoint load_topology_catalog (data : list CatalogEntry) : loaded (list Topology) :=
  match data with
  | [] => Loaded []
  | entry :: rest =>
      and_then (load_entry entry) (fun topo =>
      and_then (load_topology_catalog rest) (fun catalog =>
        Loaded (topo :: catalog)))
  end.

End CatalogLoader.

(** ** analysis.py: the block statistics *)

Module BlockStats.

Import TopologyEngine Lib Analysis.

Record BlockStatistics : Type := {
  n_elements : nat;
  n_elements_robust : nat;
  stat_n_min : Z;
  stat_prime_metric : string;
  test_p_vs_df_e2 : TestResult;
  test_df_vs_sp_e5 : TestResult;
  test_df_vs_sp_e7 : TestResult;
  classifier : ClassifierResult
}.

Section External.

Context `{L : Lib.Libraries}.

Definition compute_block_statistics (agg_df : list AggRow) (n_min : Z)
    (prime_metric : string) (random_state : Z) : result BlockStatistics :=
  bind (prepare_working_set agg_df n_min prime_metric) (fun ws =>
    let '(working, X, labels) := ws in
    let e2 := NullModels.column 0 X in
    let e5 := NullModels.column 2 X in
    let e7 := NullModels.column 3 X in
    let test1 := mann_whitney_with_effect e2 labels ["p"] ["d"; "f"] in
    let test2_e5 := mann_whitney_with_effect e5 labels ["d"; "f"] ["s"; "p"] in
    let test2_e7 := mann_whitney_with_effect e7 labels ["d"; "f"] ["s"; "p"] in
    bind (evaluate_classifier X labels random_state) (fun clf_result =>
    Ok {| n_elements := length agg_df;
          n_elements_robust := length working;
          stat_n_min := n_min;
          stat_prime_metric := prime_metric;
          test_p_vs_df_e2 := test1;
          test_df_vs_sp_e5 := test2_e5;
          test_df_vs_sp_e7 := test2_e7;
          classifier := clf_result |})).

End External.

End BlockStats.

(** ** data.py: the inclusion rules

    The rows of the curated table carry a category besides the columns the
    aggregation reads.  The index of the table is taken to be without
    repeated labels, as [read_csv] builds it, so that [df.at[idx, ...]]
    writes one row.  The messages sent to the logger are not part of the
    model; the list of reasons that decides the flag is. *)

Module Inclusion.

Import TopologyEngine Data.

Definition ALLOWED_CATEGORIES : list string :=
  ["SC_Binary"; "SC_HighPressure"; "SC_IronBased"; "SC_Oxide"; "SC_TypeI";
   "SC_TypeII"; "SC_HeavyFermion"].

Record CuratedRow : Type := {
  material : MaterialRow;
  category : option string
}.

(** [df.at[idx, "include_study04"] = include] *)
Definition set_include (r : MaterialRow) (include : Z) : MaterialRow :=
  {| material_name := material_name r;
     include_study04 := include;
     m_carrier_element := m_carrier_element r;
     carrier_block := carrier_block r;
     fingerprint := fingerprint r |}.

(** [cell in allowed] for a cell that is a string or missing. *)
Definition cell_in (cell : option string) (allowed : list string) : bool :=
  match cell with
  | Some s => existsb (String.eqb s) allowed
  | None => false
  end.

(** [not cell]: a missing cell or the empty string. *)
Definition falsy (cell : option string) : bool :=
  match cell with
  | Some s => String.eqb s EmptyString
  | None => true
  end.

(** The text an f-string prints for the category cell. *)
Definition category_text (cell : option string) : string :=
  match cell with
  | Some s => s
  | None => "nan"
  end.

Section Rules.

(** Python's [str.strip]. *)
Variable strip : string -> string.

(** [None if pd.isna(cell) else str(cell).strip()] *)
Definition stripped (cell : option string) : option string :=
  option_map strip cell.

Definition exclusion_reasons (row : CuratedRow) : list string :=
  let carrier_element := stripped (m_carrier_element (material row)) in
  let carrier_block := stripped (Data.carrier_block (material row)) in
  let category := category row in
  let primes := map (fingerprint (material row)) PRIME_COLUMNS in
  let all_nan := forallb isnan primes in
  let all_zeroish := forallb (fun p => isnan p || feqb p (Fin 0)) primes in
  ((if falsy carrier_element then ["missing_carrier_element"] else [])
   ++ (if negb (cell_in carrier_block ["s"; "p"; "d"; "f"])
       then ["invalid_carrier_block"] else [])
   ++ (if negb (cell_in category ALLOWED_CATEGORIES)
       then [("category_not_allowed:" ++ category_text category)%string] else [])
   ++ (if all_nan then ["all_primes_nan"]
       else if all_zeroish then ["all_primes_zero"] else []))%list.

(** The flag of one row: [0 if reasons else 1]. *)
Definition include_flag (row : CuratedRow) : Z :=
  match exclusion_reasons row with
  | [] => 1%Z
  | _ => 0%Z
  end.

Definition apply_inclusion_rules (df : list CuratedRow) : list CuratedRow :=
  map (fun row =>
         {| material := set_include (material row) (include_flag row);
            category := category row |}) df.

End Rules.

(** The counts of the closing log line: included, excluded, total. *)
Definition summary_counts (df : list CuratedRow) : nat * nat * nat :=
  (length (filter (fun row => (include_study04 (material row) =? 1)%Z) df),
   length (filter (fun row => (include_study04 (material row) =? 0)%Z) df),
   length df).

End Inclusion.

(** ** Vocabulary of the further properties *)

Module Props.

Import TopologyEngine ResonantEngine CatalogLoader Analysis Data Inclusion.



(** The first key, in the order the loader reads them, that a catalog
    entry lacks. *)
Definition first_missing_key (entry : CatalogEntry) : option string :=
  match entry_w2 entry, entry_w3 entry, entry_w5 entry, entry_w7 entry,
        entry_topology_id entry with
  | None, _, _, _, _ => Some "w2"
  | _, None, _, _, _ => Some "w3"
  | _, _, None, _, _ => Some "w5"
  | _, _, _, None, _ => Some "w7"
  | _, _, _, _, None => Some "topology_id"
  | _, _, _, _, _ => None
  end.



(** A number that is zero. *)
Definition null (x : float) : Prop := exists z, x = Fin z /\ z == 0.

(** A row none of whose fingerprint components was measured, by median or
    by mean. *)
Definition unobserved (row : CarrierRow) : Prop :=
  forall p, abs_median row p = NaN /\ abs_mean row p = NaN.

(** The rows that [infer_topologies] processes: all of them without an
    element set or with an empty one, else those whose element is in it. *)
Definition processed (carrier_df : list CarrierRow) (elements : option (list string))
    : list CarrierRow :=
  match elements with
  | None => carrier_df
  | Some els =>
      match els with
      | [] => carrier_df
      | _ => filter (fun r => if in_dec string_dec (carrier_element r) els
                              then true else false) carrier_df
      end
  end.

(** The number of pairs [(a, b)], [a] from [x] and [b] from [y], with
    [a > b], and with [a < b]. *)
Definition pairs_above (x y : list float) : nat :=
  length (filter (fun p => fgtb (fst p) (snd p)) (list_prod x y)).

Definition pairs_below (x y : list float) : nat :=
  length (filter (fun p => fltb (fst p) (snd p)) (list_prod x y)).

(** A natural number as a rational. *)
Definition Qnat (n : nat) : Q := inject_Z (Z.of_nat n).

(** The number of labels that belong to [targets]. *)
Definition label_count (targets labels : list string) : nat :=
  length (filter (fun l => existsb (String.eqb l) targets) labels).

(** [row] passes the filters of [prepare_working_set] for the feature
    columns [col]. *)
Definition passes (col : AggRow -> prime -> float) (n_min : Z) (row : AggRow) : Prop :=
  (n_min <= agg_n_materials row)%Z
  /\ agg_block row <> None
  /\ forall p, isnan (col row p) = false.

(** [working], [X] and [labels] are the working set of the table for the
    feature columns [col]: the rows that pass, in table order, with their
    four features and their block labels at the same positions. *)
Definition working_set (col : AggRow -> prime -> float) (n_min : Z)
    (agg_df working : list AggRow) (X : list (list float)) (labels : list string)
    : Prop :=
  (forall row, In row working <-> In row agg_df /\ passes col n_min row)
  /\ (exists keep, working = filter keep agg_df)
  /\ X = map (fun row => [col row E2; col row E3; col row E5; col row E7]) working
  /\ map agg_block working = map Some labels
  /\ Forall (Forall (fun v => isnan v = false)) X.

(** The keys of the statistics tracked by the null models, in order. *)
Definition tracked_keys : list string :=
  ["delta_e2_p_vs_df"; "delta_e5_df_vs_sp"; "delta_e7_df_vs_sp";
   "classifier_accuracy"].

(** A p-value that is undefined or a number of the interval (0, 1]. *)
Definition unit_p_value (p : option float) : Prop :=
  p = None \/ exists q, p = Some (Fin q) /\ 0 < q <= 1.

(** The four conditions under which the inclusion rules keep a row: a
    carrier element that is not blank, a block among s, p, d, f once
    stripped, an allowed category, and a fingerprint component that is
    neither missing nor zero. *)
Definition includable (strip : string -> string) (row : CuratedRow) : Prop :=
  (exists e, m_carrier_element (material row) = Some e /\ strip e <> EmptyString)
  /\ (exists b, Data.carrier_block (material row) = Some b
               /\ In (strip b) ["s"; "p"; "d"; "f"])
  /\ (exists c, category row = Some c /\ In c ALLOWED_CATEGORIES)
  /\ (exists p, isnan (fingerprint (material row) p) = false
               /\ feqb (fingerprint (material row) p) (Fin 0) = false).

(** The string order of [sorted] keys. *)
Definition string_lt (a b : string) : Prop := String.ltb a b = true.

(** A list of keys in strictly increasing order. *)
Fixpoint increasing (keys : list string) : Prop :=
  match keys with
  | [] => True
  | k :: rest => Forall (string_lt k) rest /\ increasing rest
  end.

End Props.

(** ** Concrete inputs for the further properties *)

Module Cases.

Import TopologyEngine ResonantEngine CatalogLoader Examples.

(** A catalog entry with a negative weight and no optional field. *)
Definition entry_ring : CatalogEntry :=
  {| entry_topology_id := Some "TRI_RING";
     entry_name := None;
     entry_n_nodes := None;
     entry_w2 := Some (Fin 2);
     entry_w3 := Some (Fin (-1));
     entry_w5 := Some (Fin 1);
     entry_w7 := Some (Fin 0);
     entry_noise_sensitivity := None |}.

(** An entry whose weights are all zero. *)
Definition entry_flat : CatalogEntry :=
  {| entry_topology_id := Some "FLAT";
     entry_name := Some "flat";
     entry_n_nodes := Some 4%Z;
     entry_w2 := Some (Fin 0);
     entry_w3 := Some (Fin 0);
     entry_w5 := Some (Fin 0);
     entry_w7 := Some (Fin 0);
     entry_noise_sensitivity := Some (Fin (1 # 2)) |}.

(** An entry that lacks the key [w5] (and the identifier). *)
Definition entry_broken : CatalogEntry :=
  {| entry_topology_id := None;
     entry_name := None;
     entry_n_nodes := None;
     entry_w2 := Some (Fin 1);
     entry_w3 := Some (Fin 1);
     entry_w5 := None;
     entry_w7 := Some (Fin 1);
     entry_noise_sensitivity := None |}.

(** Four elements, two of each class. *)
Definition table_four : list Analysis.AggRow :=
  [mkagg "Al" "p" 5 (Fin 1) (Fin 2) (Fin 3) (Fin 4);
   mkagg "Pb" "p" 3 (Fin 2) (Fin 2) (Fin 2) (Fin 2);
   mkagg "Cu" "d" 4 (Fin 2) (Fin 1) (Fin 4) (Fin 3);
   mkagg "Nb" "d" 6 (Fin 3) (Fin 3) (Fin 1) (Fin 1)].

(** Curated rows: one that passes the rules with padded cells, one with
    a blank carrier, one with a category outside the allowed ones, one with
    all fingerprint components zero or missing. *)
Definition curated_rows : list Inclusion.CuratedRow :=
  [ {| Inclusion.material :=
         mkmaterial "Nb3Sn" 0 (Some " Nb") (Some "d ") (Fin 1) (Fin 2) (Fin 3) (Fin 4);
       Inclusion.category := Some "SC_Binary" |};
    {| Inclusion.material :=
         mkmaterial "X" 1 (Some " ") (Some "p") (Fin 1) (Fin 2) (Fin 3) (Fin 4);
       Inclusion.category := Some "SC_Oxide" |};
    {| Inclusion.material :=
         mkmaterial "Y" 1 (Some "Y") (Some "d") (Fin 1) (Fin 2) (Fin 3) (Fin 4);
       Inclusion.category := None |};
    {| Inclusion.material :=
         mkmaterial "Z" 1 (Some "Zr") (Some "d") (Fin 0) NaN (Fin 0) NaN;
       Inclusion.category := Some "SC_TypeI" |} ].

(** A strip function for the runs: it removes the blanks at both ends. *)
Fixpoint lstrip_blanks (s : string) : string :=
  match s with
  | String c rest => if Ascii.eqb c " " then lstrip_blanks rest else s
  | EmptyString => s
  end.

Definition reverse (s : string) : string :=
  string_of_list_ascii (rev (list_ascii_of_string s)).

Definition strip_blanks (s : string) : string :=
  reverse (lstrip_blanks (reverse (lstrip_blanks s))).

End Cases.

(** * Properties *)

Local Close Scope string_scope.
Local Open Scope Q_scope.

(** ** Order facts on floating values *)

Ltac qcmp :=
  repeat match goal with
  | |- context [Qcompare ?a ?b] => destruct (Qcompare_spec a b)
  | H : context [Qcompare ?a ?b] |- _ => destruct (Qcompare_spec a b)
  end.

(** Concrete values in range. *)
Ltac range_num :=
  eexists; split;
  [reflexivity | first [split; vm_compute; discriminate | vm_compute; discriminate]].

Ltac range_cell := first [left; reflexivity | right; range_num | range_num].

Ltac float_cases :=
  intros;
  repeat match goal with x : float |- _ => destruct x end;
  unfold fgtb, fgeb, Qsgn in *; simpl in *;
  try discriminate; try reflexivity; try tauto;
  qcmp; try discriminate; try reflexivity; try tauto; try lra.

Lemma fltb_Fin a b : fltb (Fin a) (Fin b) = true <-> a < b.
Proof. simpl; qcmp; split; intros; try discriminate; try reflexivity; lra. Qed.

Lemma fleb_Fin a b : fleb (Fin a) (Fin b) = true <-> a <= b.
Proof. simpl; qcmp; split; intros; try discriminate; try reflexivity; lra. Qed.

Lemma fltb_trans x y z : fltb x y = true -> fltb y z = true -> fltb x z = true.
Proof. float_cases. Qed.

Lemma fleb_fltb_trans x y z : fleb x y = true -> fltb y z = true -> fltb x z = true.
Proof. float_cases. Qed.

Lemma not_fltb_fleb x y :
  isnan x = false -> isnan y = false -> fltb x y = false -> fleb y x = true.
Proof. float_cases. Qed.

Lemma fltb_irrefl x : fltb x x = false.
Proof. float_cases. Qed.

(** ** The arg-min loop *)

Section ArgMinFacts.

Import Spec.

Context {A : Type} (cost : A -> float).

Lemma kept_singleton a : kept cost [a] (Some a).
Proof.
  exists 0%nat, a. repeat split; trivial.
  - intros b [<- | []]. apply fltb_irrefl.
  - intros j b Hj. lia.
Qed.

Lemma kept_snoc l best x :
  kept cost l best -> kept cost (l ++ [x]) (keep_first_min cost best x).
Proof.
  intros (i & a & -> & Hi & Hlt & Hle). unfold kept, front_min. simpl.
  assert (Hlen : (i < length l)%nat) by (apply nth_error_Some; congruence).
  destruct (fltb (cost x) (cost a)) eqn:Hx.
  - exists (length l), x. repeat split.
    + rewrite nth_error_app2, Nat.sub_diag by lia. reflexivity.
    + intros b Hb. apply in_app_or in Hb. destruct Hb as [Hb | [<- | []]].
      * destruct (fltb (cost b) (cost x)) eqn:Hbx; trivial.
        pose proof (fltb_trans _ _ _ Hbx Hx) as Hba.
        rewrite (Hlt b Hb) in Hba. discriminate.
      * apply fltb_irrefl.
    + intros j b Hj Hb. rewrite nth_error_app1 in Hb by lia.
      destruct (fleb (cost b) (cost x)) eqn:Hbx; trivial.
      pose proof (fleb_fltb_trans _ _ _ Hbx Hx) as Hba.
      rewrite (Hlt b (nth_error_In _ _ Hb)) in Hba. discriminate.
  - exists i, a. repeat split.
    + rewrite nth_error_app1 by lia. exact Hi.
    + intros b Hb. apply in_app_or in Hb. destruct Hb as [Hb | [<- | []]]; auto.
    + intros j b Hj Hb. rewrite nth_error_app1 in Hb by lia. eauto.
Qed.

Lemma fold_keep_kept l a :
  kept cost (a :: l) (fold_left (keep_first_min cost) l (Some a)).
Proof.
  induction l as [| x l IH] using rev_ind.
  - apply kept_singleton.
  - rewrite fold_left_app. simpl fold_left.
    change (a :: l ++ [x]) with ((a :: l) ++ [x]).
    apply kept_snoc, IH.
Qed.

(** On a non-empty list the loop ends on the arg-min, earliest on ties. *)
Lemma fold_keep_argmin l :
  l <> [] ->
  exists i a, fold_left (keep_first_min cost) l None = Some a /\ argmin_at cost l i a.
Proof.
  destruct l as [| a0 l]; [congruence | intros _].
  destruct (fold_keep_kept l a0) as (i & a & Hf & Hi & Hlt & Hle).
  exists i, a. split; [exact Hf |].
  split; [repeat split; trivial |].
  intros Hnan b Hb.
  apply not_fltb_fleb; auto.
  apply Hnan, (nth_error_In _ _ Hi).
Qed.

End ArgMinFacts.

(** ** The two engines run the arg-min loop *)

Section EngineLoops.

Import Spec TopologyEngine ResonantEngine.

Lemma fold_keep_map {A B : Type} (g : A -> B) (c : B -> float) l b :
  fold_left (keep_first_min c) (map g l) (option_map g b)
  = option_map g (fold_left (keep_first_min (fun a => c (g a))) l b).
Proof.
  revert b. induction l as [| x l IH]; intros b; simpl; trivial.
  rewrite <- IH. f_equal.
  destruct b as [b0 |]; simpl; trivial.
  destruct (fltb (c (g x)) (c (g b0))); reflexivity.
Qed.

(** The loop of [keep_best] over any projection of the catalog. *)
Lemma fold_keep_best (c : Topology -> float) catalog b :
  fold_left (fun best t => keep_best best (topology_id t) (c t)) catalog
    (option_map (fun t => (topology_id t, c t)) b)
  = option_map (fun t => (topology_id t, c t))
      (fold_left (keep_first_min c) catalog b).
Proof.
  revert b. induction catalog as [| t catalog IH]; intros b; simpl; trivial.
  rewrite <- IH. f_equal.
  destruct b as [b0 |]; simpl; trivial.
  destruct (fltb (c t) (c b0)); reflexivity.
Qed.

Variables (lambda_noise : float) (use_noise : bool).
Variables (row : CarrierRow) (Q_lock xi_norm : float) (e_norm : list float).

Lemma catalog_step_fields s t :
  let terms := cost_terms lambda_noise use_noise Q_lock xi_norm e_norm t in
  let s' := catalog_step lambda_noise use_noise row Q_lock xi_norm e_norm s t in
  best_tot s' = keep_best (best_tot s) (topology_id t) (snd terms)
  /\ best_e s' = keep_best (best_e s) (topology_id t) (fst (fst terms))
  /\ records s' =
     (records s ++
      [{| sc_carrier_element := carrier_element row;
          sc_topology_id := topology_id t;
          C_e := fst (fst terms);
          C_xi := snd (fst terms);
          C_total := snd terms;
          sc_Q_lock := Q_lock;
          sc_xi_norm := xi_norm |}])%list.
Proof.
  intros terms s'. subst terms s'. unfold catalog_step.
  destruct (cost_terms lambda_noise use_noise Q_lock xi_norm e_norm t)
    as [[c_e c_xi] c_total].
  repeat split.
Qed.

Lemma catalog_loop_fields catalog s :
  let terms := cost_terms lambda_noise use_noise Q_lock xi_norm e_norm in
  let s' :=
    fold_left (catalog_step lambda_noise use_noise row Q_lock xi_norm e_norm)
      catalog s in
  best_tot s'
  = fold_left (fun best t => keep_best best (topology_id t) (snd (terms t)))
      catalog (best_tot s)
  /\ best_e s'
  = fold_left (fun best t => keep_best best (topology_id t) (fst (fst (terms t))))
      catalog (best_e s)
  /\ records s'
  = (records s ++
     map (fun t =>
            {| sc_carrier_element := carrier_element row;
               sc_topology_id := topology_id t;
               C_e := fst (fst (terms t));
               C_xi := snd (fst (terms t));
               C_total := snd (terms t);
               sc_Q_lock := Q_lock;
               sc_xi_norm := xi_norm |}) catalog)%list.
Proof.
  intros terms. revert s.
  induction catalog as [| t catalog IH]; intros s; cbn zeta.
  - simpl. rewrite app_nil_r. repeat split.
  - cbn [fold_left map].
    destruct (IH (catalog_step lambda_noise use_noise row Q_lock xi_norm e_norm s t))
      as (Ht & He & Hr).
    destruct (catalog_step_fields s t) as (Ht1 & He1 & Hr1).
    rewrite Ht, He, Hr, Ht1, He1, Hr1, <- app_assoc.
    repeat split.
Qed.

End EngineLoops.

Section BestTopology.

Import Spec TopologyEngine ResonantEngine.



Lemma infer_row_argmin params catalog row :
  catalog <> [] ->
  exists i t,
    argmin_at (fun t => s_C_total (score params row t)) catalog i t
    /\ r_best (snd (infer_row params catalog row)) = Some (score params row t).
Proof.
  intros Hne.
  destruct (fold_keep_argmin (fun t => s_C_total (score params row t)) catalog Hne)
    as (i & t & Hf & Harg).
  exists i, t. split; [exact Harg |].
  unfold infer_row. simpl.
  change keep_best_score with (keep_first_min s_C_total).
  change (@None Score) with (option_map (score params row) None).
  rewrite fold_keep_map, Hf. reflexivity.
Qed.

Lemma existsb_eqb_in (x : string) (els : list string) :
  existsb (String.eqb x) els = if in_dec string_dec x els then true else false.
Proof.
  destruct (in_dec string_dec x els) as [Hin | Hout].
  - apply existsb_exists. exists x. split; [exact Hin | apply String.eqb_refl].
  - destruct (existsb (String.eqb x) els) eqn:E; trivial.
    apply existsb_exists in E. destruct E as (y & Hy & Exy).
    apply String.eqb_eq in Exy. subst y. contradiction.
Qed.

Lemma infer_topologies_processed carrier_df catalog params elements :
  infer_topologies carrier_df catalog params elements
  = match Props.processed carrier_df elements with
    | [] => Raise (ValueError "No carriers to process after filtering; check --elements")
    | df => Ok (flat_map (fun r => fst (infer_row params catalog r)) df,
                map (fun r => snd (infer_row params catalog r)) df)
    end.
Proof.
  unfold infer_topologies, Props.processed.
  assert (Hshape : forall df : list CarrierRow,
    match df with
    | [] => Raise (ValueError "No carriers to process after filtering; check --elements")
    | _ :: _ =>
        Ok (flat_map fst (map (infer_row params catalog) df),
            map snd (map (infer_row params catalog) df))
    end
    = match df with
      | [] => Raise (ValueError "No carriers to process after filtering; check --elements")
      | r0 :: l =>
          Ok (flat_map (fun r => fst (infer_row params catalog r)) (r0 :: l),
              map (fun r => snd (infer_row params catalog r)) (r0 :: l))
      end).
  { intros [| r df]; [reflexivity |]. rewrite flat_map_concat_map, !map_map.
    rewrite <- flat_map_concat_map. reflexivity. }
  destruct elements as [[| e els] |];
    [exact (Hshape carrier_df) | | exact (Hshape carrier_df)].
  rewrite <- (filter_ext (fun r => existsb (String.eqb (carrier_element r)) (e :: els))
                (fun r => if in_dec string_dec (carrier_element r) (e :: els)
                          then true else false)
                (fun r => existsb_eqb_in (carrier_element r) (e :: els))).
  exact (Hshape _).
Qed.


End BestTopology.

(** ** Arithmetic on finite values *)

Lemma fdiv_Fin_nonzero a b : ~ b == 0 -> fdiv (Fin a) (Fin b) = Fin (a / b).
Proof.
  intros Hb. simpl. unfold Qsgn.
  destruct (Qcompare_spec b 0); trivial. contradiction.
Qed.

Lemma fleb_Fin_false a b : fleb (Fin a) (Fin b) = false <-> b < a.
Proof. simpl; qcmp; split; intros; try discriminate; try reflexivity; lra. Qed.

Lemma fltb_Fin_false a b : fltb (Fin a) (Fin b) = false <-> b <= a.
Proof. simpl; qcmp; split; intros; try discriminate; try reflexivity; lra. Qed.

Lemma fold_fadd_Fin qs a :
  fold_left fadd (map Fin qs) (Fin a) = Fin (fold_left Qplus qs a).
Proof. revert a. induction qs as [| q qs IH]; intros a; simpl; trivial. Qed.

Lemma np_sum_Fin qs : np_sum (map Fin qs) = Fin (Spec.Qsum qs).
Proof. apply fold_fadd_Fin. Qed.

Lemma fold_Qplus_acc qs a : fold_left Qplus qs a == a + Spec.Qsum qs.
Proof.
  unfold Spec.Qsum. revert a.
  induction qs as [| q qs IH]; intros a; simpl; [lra |].
  rewrite IH, (IH (0 + q)). lra.
Qed.

Lemma Qsum_cons q qs : Spec.Qsum (q :: qs) == q + Spec.Qsum qs.
Proof. unfold Spec.Qsum at 1. simpl. rewrite fold_Qplus_acc. lra. Qed.

Lemma Qsum_nonneg qs : Forall (fun q => 0 <= q) qs -> 0 <= Spec.Qsum qs.
Proof.
  induction 1 as [| q qs Hq _ IH]; [unfold Spec.Qsum; simpl; lra |].
  rewrite Qsum_cons. lra.
Qed.

(** A NaN anywhere makes the sum NaN. *)
Lemma fold_fadd_NaN l : fold_left fadd l NaN = NaN.
Proof. induction l as [| x l IH]; simpl; trivial. Qed.

Lemma np_sum_NaN l : In NaN l -> np_sum l = NaN.
Proof.
  unfold np_sum. generalize (Fin 0).
  induction l as [| x l IH]; intros a Hin; [destruct Hin |].
  destruct Hin as [Hx | Hx]; simpl.
  - subst x. destruct a; apply fold_fadd_NaN.
  - apply IH, Hx.
Qed.

(** ** The prime-vector normaliser *)

Section Normalizer.

Import Spec TopologyEngine.

Lemma normalize_primes_finite row (q : prime -> Q) :
  (forall p, abs_mean row p = Fin (q p)) ->
  let s := Qabs (q E2) + Qabs (q E3) + Qabs (q E5) + Qabs (q E7) in
  (0 < s ->
   exists a b c d,
     normalize_primes row = [Fin a; Fin b; Fin c; Fin d]
     /\ a == Qabs (q E2) / s /\ b == Qabs (q E3) / s
     /\ c == Qabs (q E5) / s /\ d == Qabs (q E7) / s)
  /\ (s <= 0 -> normalize_primes row = uniform).
Proof.
  intros Hq s. unfold normalize_primes. cbn [map PRIME_COLUMNS].
  rewrite !Hq. cbn [fabs].
  change [Fin (Qabs (q E2)); Fin (Qabs (q E3)); Fin (Qabs (q E5)); Fin (Qabs (q E7))]
    with (map Fin [Qabs (q E2); Qabs (q E3); Qabs (q E5); Qabs (q E7)]).
  rewrite np_sum_Fin.
  set (s' := Qsum _).
  assert (Hs : s' == s) by (subst s' s; unfold Qsum; simpl; lra).
  split; intros Hpos.
  - assert (Hle : fleb (Fin s') (Fin 0) = false) by (apply fleb_Fin_false; lra).
    rewrite Hle. cbn [map].
    rewrite !fdiv_Fin_nonzero by lra.
    do 4 eexists. split; [reflexivity |].
    repeat split; now rewrite Hs.
  - assert (Hle : fleb (Fin s') (Fin 0) = true) by (apply fleb_Fin; lra).
    now rewrite Hle.
Qed.

Lemma normalize_primes_missing row :
  (exists p, abs_mean row p = NaN) ->
  normalize_primes row = [NaN; NaN; NaN; NaN].
Proof.
  intros (p & Hp). unfold normalize_primes.
  assert (Hs : np_sum (map fabs (map (abs_mean row) PRIME_COLUMNS)) = NaN).
  { apply np_sum_NaN. apply in_map_iff. exists NaN. split; trivial.
    apply in_map_iff. exists p. split; trivial. destruct p; simpl; tauto. }
  rewrite Hs. cbn [fleb map PRIME_COLUMNS].
  repeat f_equal; match goal with |- fdiv ?x NaN = NaN => destruct x; reflexivity end.
Qed.

End Normalizer.

(** C4, as the code has it.  For a row whose four mean components are
    present, finite and of moderate magnitude: when the sum of their
    absolute values is positive the output components lie in [0, 1] and sum
    to 1 within the tolerance 1e-9, and when that sum is not positive the
    output is exactly the uniform vector.  As soon as one component is
    missing, every output component is missing. *)
Theorem normalize_primes_simplex :
  forall row : TopologyEngine.CarrierRow,
  (forall q : TopologyEngine.prime -> Q,
      (forall p, TopologyEngine.abs_mean row p = Fin (q p)) ->
      (forall p, Qabs (q p) <= Spec.BOUND) ->
      let s := Qabs (q TopologyEngine.E2) + Qabs (q TopologyEngine.E3)
               + Qabs (q TopologyEngine.E5) + Qabs (q TopologyEngine.E7) in
      (0 < s ->
       exists a b c d,
         TopologyEngine.normalize_primes row = [Fin a; Fin b; Fin c; Fin d]
         /\ 0 <= a <= 1 /\ 0 <= b <= 1 /\ 0 <= c <= 1 /\ 0 <= d <= 1
         /\ Qabs (a + b + c + d - 1) <= 1 # 1000000000)
      /\ (s <= 0 -> TopologyEngine.normalize_primes row = TopologyEngine.uniform))
  /\ ((exists p, TopologyEngine.abs_mean row p = NaN) ->
      TopologyEngine.normalize_primes row = [NaN; NaN; NaN; NaN]).
Proof.
  intros row. split; [| apply normalize_primes_missing].
  intros q Hq _ s.
  destruct (normalize_primes_finite row q Hq) as [Hpos Hzero].
  split; [| exact Hzero].
  intros Hs. destruct (Hpos Hs) as (a & b & c & d & Heq & Ha & Hb & Hc & Hd).
  exists a, b, c, d. split; [exact Heq |].
  fold s in Ha, Hb, Hc, Hd.
  pose proof (Qabs_nonneg (q TopologyEngine.E2)).
  pose proof (Qabs_nonneg (q TopologyEngine.E3)).
  pose proof (Qabs_nonneg (q TopologyEngine.E5)).
  pose proof (Qabs_nonneg (q TopologyEngine.E7)).
  assert (Hdiv : forall x, 0 <= x <= s -> 0 <= x / s <= 1).
  { intros x Hx. split.
    - apply Qle_shift_div_l; lra.
    - apply Qle_shift_div_r; lra. }
  rewrite Ha, Hb, Hc, Hd.
  split; [apply Hdiv; subst s; lra |].
  split; [apply Hdiv; subst s; lra |].
  split; [apply Hdiv; subst s; lra |].
  split; [apply Hdiv; subst s; lra |].
  assert (E : Qabs (q TopologyEngine.E2) / s + Qabs (q TopologyEngine.E3) / s
              + Qabs (q TopologyEngine.E5) / s + Qabs (q TopologyEngine.E7) / s - 1
              == 0).
  { subst s. field. lra. }
  rewrite E. discriminate.
Qed.

(** ** Cost terms of the simple formulation *)

Section SimpleCosts.

Import Spec TopologyEngine.

Lemma finite_list l : Forall finite l -> exists qs, l = map Fin qs.
Proof.
  induction 1 as [| x l [q ->] _ [qs ->]].
  - now exists [].
  - now exists (q :: qs).
Qed.

Lemma vsub_Fin a b :
  vsub (map Fin a) (map Fin b)
  = map Fin (map (fun p => fst p + - snd p) (combine a b)).
Proof.
  unfold vsub, vmap2. revert b.
  induction a as [| x a IH]; intros [| y b]; simpl; trivial.
  f_equal. apply IH.
Qed.

Lemma norm_sq_Fin ds : norm_sq (map Fin ds) = Fin (Qsum (map (fun d => d * d) ds)).
Proof. unfold norm_sq. rewrite map_map. simpl. rewrite <- map_map. apply np_sum_Fin. Qed.

Lemma Qsum_squares_nonneg ds : 0 <= Qsum (map (fun d => d * d) ds).
Proof.
  apply Qsum_nonneg, Forall_forall. intros q Hq.
  apply in_map_iff in Hq. destruct Hq as (d & <- & _). nra.
Qed.



(** Clipping a finite value to the unit interval. *)
Lemma np_clip_unit q : within 0 1 (np_clip (Fin q) (Fin 0) (Fin 1)).
Proof.
  unfold np_clip, np_maximum, np_minimum. cbn [isnan orb].
  destruct (fltb (Fin q) (Fin 0)) eqn:H0.
  - cbn [isnan orb]. change (fltb (Fin 1) (Fin 0)) with false. cbv iota.
    exists 0. split; [reflexivity | lra].
  - apply fltb_Fin_false in H0. cbn [isnan orb].
    destruct (fltb (Fin 1) (Fin q)) eqn:H1.
    + exists 1. split; [reflexivity | lra].
    + apply fltb_Fin_false in H1. exists q. split; [reflexivity | lra].
Qed.

(** Minimum and maximum of a column of finite values. *)
Lemma fold_pick_finite (pick : float -> float -> bool) l x :
  finite x -> Forall finite l ->
  finite (fold_left (fun m y => if pick m y then y else m) l x).
Proof.
  intros Hx Hl. revert x Hx.
  induction Hl as [| y l Hy _ IH]; intros x Hx; simpl; trivial.
  apply IH. now destruct (pick x y).
Qed.

Lemma series_min_finite l : l <> [] -> Forall finite l -> finite (series_min l).
Proof.
  destruct l as [| x l]; [congruence |]. intros _ Hl.
  inversion Hl; subst.
  apply (fold_pick_finite (fun m y => fltb y m)); assumption.
Qed.

Lemma series_max_finite l : l <> [] -> Forall finite l -> finite (series_max l).
Proof.
  destruct l as [| x l]; [congruence |]. intros _ Hl.
  inversion Hl; subst.
  apply (fold_pick_finite (fun m y => fltb m y)); assumption.
Qed.

Lemma dropna_finite l : Forall finite_or_missing l -> Forall finite (dropna l).
Proof.
  induction 1 as [| x l [-> | [q ->]] _ IH]; simpl; auto.
  constructor; [now exists q | exact IH].
Qed.

Lemma dropna_nonempty l x : In x l -> isnan x = false -> dropna l <> [].
Proof.
  intros Hin Hx Hnil.
  assert (H : In x (dropna l)) by (apply filter_In; now rewrite Hx).
  rewrite Hnil in H. destruct H.
Qed.

(** [max(hi - lo, 1e-6)] is a positive number on finite bounds. *)
Lemma span_positive lo hi :
  finite lo -> finite hi -> exists s, span lo hi = Fin s /\ 0 < s.
Proof.
  intros [a ->] [b ->]. unfold span, py_max2, fgtb. cbn [fsub fneg fadd].
  destruct (fltb (Fin (b + - a)) (Fin (1 # 1000000))) eqn:H.
  - eexists. split; [reflexivity | reflexivity].
  - apply fltb_Fin_false in H. eexists. split; [reflexivity |].
    assert (0 < 1 # 1000000) by reflexivity. lra.
Qed.

(** A column of the table: every cell a number or missing; the cell of the
    row at hand decides whether the rescaled value is computed. *)
Lemma rescaled_finite col x :
  Forall finite_or_missing col -> In x col -> isnan x = false ->
  exists m s, series_min (dropna col) = Fin m
    /\ span (series_min (dropna col)) (series_max (dropna col)) = Fin s
    /\ 0 < s.
Proof.
  intros Hcol Hin Hx.
  pose proof (dropna_nonempty _ _ Hin Hx) as Hne.
  pose proof (dropna_finite _ Hcol) as Hfin.
  destruct (series_min_finite _ Hne Hfin) as [m Hm].
  destruct (span_positive _ _ (series_min_finite _ Hne Hfin)
              (series_max_finite _ Hne Hfin)) as (s & Hs & Hpos).
  exists m, s. auto.
Qed.




End SimpleCosts.

Section SimpleCostsTable.

Import Spec TopologyEngine.


(** Values in range are numbers. *)
Lemma moderate_finite x : moderate x -> finite x.
Proof. intros (q & -> & _). now exists q. Qed.

Lemma moderate_cell x : moderate_or_missing x -> finite_or_missing x.
Proof. intros [-> | H]; [now left | right; now apply moderate_finite]. Qed.

Lemma weight_nonneg x : weight x -> nonneg x.
Proof. intros (q & -> & Hq & _). now exists q. Qed.



End SimpleCostsTable.

(** ** Concrete runs of the simple engine *)

Section SimpleEngineRuns.

Import Spec TopologyEngine ResonantEngine Examples.



(** On the two-element table, the uniform topology wins for both rows. *)
Example best_topology_AlCu :
  map best_topology
    (snd (aggregate_costs [row_Al; row_Cu] [topo_A; topo_U; topo_B] (Fin (1 # 2)) true))
  = [Some "U"; Some "U"]%string.
Proof. vm_compute. reflexivity. Qed.

(** Equal costs: the first catalog entry is reported. *)
Example best_topology_tie :
  map best_topology
    (snd (aggregate_costs [row_Al] [topo_B; topo_A] (Fin (1 # 2)) true))
  = [Some "B"]%string.
Proof. vm_compute. reflexivity. Qed.



(** All components missing: the output is not the uniform vector. *)
Lemma normalize_primes_all_missing :
  (forall p, abs_mean row_missing p = NaN)
  /\ normalize_primes row_missing = [NaN; NaN; NaN; NaN]
  /\ normalize_primes row_missing <> uniform.
Proof.
  split; [intros []; reflexivity |].
  split; [reflexivity | discriminate].
Qed.

Lemma normalize_primes_simplex_witness :
  (exists a b c d,
      normalize_primes row_Al = [Fin a; Fin b; Fin c; Fin d]
      /\ 0 <= a <= 1 /\ 0 <= b <= 1 /\ 0 <= c <= 1 /\ 0 <= d <= 1
      /\ Qabs (a + b + c + d - 1) <= 1 # 1000000000)
  /\ normalize_primes row_missing = [NaN; NaN; NaN; NaN].
Proof.
  split.
  - destruct (normalize_primes_simplex row_Al) as [H _].
    destruct (H (fun _ => 1)) as [Hpos _].
    + intros []; reflexivity.
    + intros _. vm_compute. discriminate.
    + apply Hpos. reflexivity.
  - destruct (normalize_primes_simplex row_missing) as [_ H].
    apply H. exists E2. reflexivity.
Defined.

End SimpleEngineRuns.

(** ** Confidence of the resonant engine *)

Section Confidence.

Import Spec TopologyEngine ResonantEngine.

(** Python's [max] over finite values returns an upper bound that occurs
    in the list. *)
Lemma fold_py_max2_finite l x :
  Forall finite l ->
  exists m, fold_left py_max2 l (Fin x) = Fin m
    /\ x <= m
    /\ (forall q, In (Fin q) l -> q <= m)
    /\ In (Fin m) (Fin x :: l).
Proof.
  intros Hl. revert x.
  induction Hl as [| y l [q ->] _ IH]; intros x.
  - exists x. simpl. repeat split; auto; try lra. intros q [].
  - cbn [fold_left]. unfold py_max2 at 2, fgtb.
    destruct (fltb (Fin x) (Fin q)) eqn:Hlt.
    + apply fltb_Fin in Hlt.
      destruct (IH q) as (m & Hm & Hqm & Hall & Hin).
      exists m. split; [exact Hm |]. split; [lra |]. split.
      * intros q' [E | Hq']; [injection E as <-; lra | auto].
      * right. exact Hin.
    + apply fltb_Fin_false in Hlt.
      destruct (IH x) as (m & Hm & Hxm & Hall & Hin).
      exists m. split; [exact Hm |]. split; [lra |]. split.
      * intros q' [E | Hq']; [injection E as <-; lra | auto].
      * destruct Hin as [E | Hin]; [left; exact E | right; right; exact Hin].
Qed.

Lemma py_max_finite l :
  l <> [] -> Forall finite l ->
  exists m, py_max l = Some (Fin m)
    /\ (forall q, In (Fin q) l -> q <= m)
    /\ In (Fin m) l.
Proof.
  destruct l as [| x l]; [congruence |]. intros _ Hl.
  inversion Hl as [| ? ? [q ->] Hl']; subst.
  destruct (fold_py_max2_finite l q Hl') as (m & Hm & Hqm & Hall & Hin).
  exists m. simpl. rewrite Hm. split; [reflexivity |]. split; [| exact Hin].
  intros q' [E | Hq']; [injection E as <-; lra | auto].
Qed.

Lemma nonneg_finite x : nonneg x -> finite x.
Proof. intros (q & -> & _). now exists q. Qed.

Lemma feqb_Fin_zero q : feqb (Fin q) (Fin 0) = true <-> q == 0.
Proof. simpl. apply Qeq_bool_iff. Qed.

(** The confidence formula on totals that are finite and not negative. *)
Lemma confidence_of_unit totals b :
  Forall nonneg totals ->
  In (Fin b) totals ->
  (forall q, In (Fin q) totals -> b <= q) ->
  exists mx c,
    py_max totals = Some (Fin mx)
    /\ confidence_of totals (Some (Fin b)) = Fin c
    /\ 0 <= c <= 1
    /\ (mx == 0 -> c == 0)
    /\ (~ mx == 0 -> c == 1 - b / mx)
    /\ ((forall q, In (Fin q) totals -> q == b) -> c == 0).
Proof.
  intros Hnn Hb Hmin.
  assert (Hne : totals <> []) by (intros ->; destruct Hb).
  assert (Hfin : Forall finite totals)
    by (eapply Forall_impl; [| exact Hnn]; apply nonneg_finite).
  destruct (py_max_finite totals Hne Hfin) as (mx & Hmx & Hub & Hin).
  assert (Hb0 : 0 <= b).
  { rewrite Forall_forall in Hnn. destruct (Hnn _ Hb) as (q & E & Hq).
    injection E as ->. exact Hq. }
  assert (Hbm : b <= mx) by (apply Hub, Hb).
  exists mx. unfold confidence_of. rewrite Hmx.
  destruct totals as [| t0 totals']; [congruence |].
  destruct (feqb (Fin mx) (Fin 0)) eqn:Hz.
  - apply feqb_Fin_zero in Hz. exists 0.
    split; [reflexivity |]. split; [reflexivity |]. split; [lra |].
    split; [reflexivity |]. split; [contradiction | reflexivity].
  - assert (Hnz : ~ mx == 0).
    { intros E. apply feqb_Fin_zero in E. congruence. }
    assert (Hpos : 0 < mx) by lra.
    rewrite fdiv_Fin_nonzero by exact Hnz. cbn [fsub fneg fadd].
    exists (1 + - (b / mx)).
    split; [reflexivity |]. split; [reflexivity |].
    assert (Hr0 : 0 <= b / mx) by (apply Qle_shift_div_l; lra).
    assert (Hr1 : b / mx <= 1) by (apply Qle_shift_div_r; lra).
    split; [lra |]. split; [contradiction |]. split; [intros _; lra |].
    intros Hall. pose proof (Hall mx Hin) as E.
    assert (E1 : b / mx == 1) by (rewrite <- E; field; exact Hnz).
    lra.
Qed.

End Confidence.

Section ConfidenceOfRow.

Import Spec TopologyEngine ResonantEngine Examples.

Lemma infer_row_totals params catalog row :
  element_totals (snd (infer_row params catalog row))
  = map (fun t => s_C_total (score params row t)) catalog.
Proof. unfold infer_row. cbn [snd element_totals]. apply map_map. Qed.

Lemma confidence_of_zero_max totals best mx :
  py_max totals = Some mx -> feqb mx (Fin 0) = true ->
  confidence_of totals best = Fin 0.
Proof.
  intros Hmx Hz. unfold confidence_of. rewrite Hmx, Hz.
  destruct totals, best; reflexivity.
Qed.

(** The confidence of one row, from its total costs. *)
Lemma confidence_of_row :
  forall params catalog row,
  let res := snd (infer_row params catalog row) in
  (catalog = [] -> confidence res = Fin 0)
  /\ (forall mx, py_max (element_totals res) = Some mx ->
        feqb mx (Fin 0) = true -> confidence res = Fin 0)
  /\ (catalog <> [] -> Forall nonneg (element_totals res) ->
      exists b mx c,
        option_map s_C_total (r_best res) = Some (Fin b)
        /\ py_max (element_totals res) = Some (Fin mx)
        /\ confidence res = Fin c
        /\ 0 <= c <= 1
        /\ (mx == 0 -> c == 0)
        /\ (~ mx == 0 -> c == 1 - b / mx)
        /\ ((forall q, In (Fin q) (element_totals res) -> q == b) -> c == 0)).
Proof.
  intros params catalog row res. split; [| split].
  - intros ->. reflexivity.
  - intros mx Hmx Hz.
    change (confidence res)
      with (confidence_of (element_totals res) (option_map s_C_total (r_best res))).
    eapply confidence_of_zero_max; eassumption.
  - intros Hne Hnn.
    destruct (infer_row_argmin params catalog row Hne) as (i & t & [Hfront Hlow] & Hbest).
    fold res in Hbest.
    assert (Htot : element_totals res
                   = map (fun t => s_C_total (score params row t)) catalog)
      by apply infer_row_totals.
    rewrite Htot in Hnn.
    assert (Hcost : forall u, In u catalog -> nonneg (s_C_total (score params row u))).
    { intros u Hu. rewrite Forall_forall in Hnn. apply Hnn.
      apply in_map_iff. now exists u. }
    assert (Ht : In t catalog) by (eapply nth_error_In, Hfront).
    destruct (Hcost t Ht) as (b & Hb & _).
    assert (Hmin : forall q, In (Fin q) (element_totals res) -> b <= q).
    { intros q Hq. rewrite Htot in Hq. apply in_map_iff in Hq.
      destruct Hq as (u & Hu & Hin).
      assert (Hle : fleb (s_C_total (score params row t))
                         (s_C_total (score params row u)) = true).
      { apply Hlow; trivial. intros v Hv. destruct (Hcost v Hv) as (q' & -> & _).
        reflexivity. }
      rewrite Hb, Hu in Hle. now apply fleb_Fin. }
    assert (Hin : In (Fin b) (element_totals res)).
    { rewrite Htot. apply in_map_iff. exists t. auto. }
    rewrite <- Htot in Hnn.
    destruct (confidence_of_unit _ b Hnn Hin Hmin)
      as (mx & c & Hmx & Hc & Hunit & Hz & Hnz & Hall).
    exists b, mx, c. rewrite Hbest. cbn [option_map]. rewrite Hb.
    split; [reflexivity |]. split; [exact Hmx |].
    split; [| auto].
    change (confidence res)
      with (confidence_of (element_totals res) (option_map s_C_total (r_best res))).
    rewrite Hbest. cbn [option_map]. rewrite Hb. exact Hc.
Qed.

(** With a negative weight on the noise term both totals are negative and
    the confidence falls below zero. *)
Lemma confidence_negative_weight :
  same (confidence (snd (infer_row params_negative [topo_A; topo_B] row_Y)))
       (Fin (-1))
  /\ fleb (Fin 0)
       (confidence (snd (infer_row params_negative [topo_A; topo_B] row_Y)))
     = false.
Proof.
  split; vm_compute; reflexivity.
Qed.

End ConfidenceOfRow.

Section ConfidenceRuns.

Import Spec TopologyEngine ResonantEngine Examples.

(** With no fingerprint component observed every total is infinite, and
    the confidence is NaN. *)
Example confidence_all_missing :
  element_totals (snd (infer_row default_params [topo_A; topo_B] row_missing))
  = [PInf; PInf]
  /\ confidence (snd (infer_row default_params [topo_A; topo_B] row_missing)) = NaN.
Proof. split; reflexivity. Qed.

End ConfidenceRuns.

(** ** Cost terms of the resonant formulation *)

Section ResonantCosts.

Import Spec TopologyEngine ResonantEngine.

Lemma select_finite mask a : Forall finite a -> Forall finite (select mask a).
Proof.
  intros Ha. revert mask.
  induction Ha as [| x a Hx _ IH]; intros [| m mask]; simpl; auto.
  destruct m; auto.
Qed.

(** Selecting the observed components of a vector by its own mask. *)
Lemma select_observed a :
  Forall finite_or_missing a ->
  Forall finite (select (map (fun x => negb (isnan x)) a) a).
Proof.
  induction 1 as [| x a [-> | [q ->]] _ IH]; simpl; auto.
  constructor; [now exists q | exact IH].
Qed.

Lemma vmap2_finite f a b :
  (forall x y, finite x -> finite y -> finite (f x y)) ->
  Forall finite a -> Forall finite b -> Forall finite (vmap2 f a b).
Proof.
  intros Hf Ha. revert b. unfold vmap2.
  induction Ha as [| x a Hx _ IH]; intros b Hb; simpl; [constructor |].
  destruct Hb as [| y b Hy Hb]; simpl; constructor; auto.
Qed.

Lemma fmul_finite x y : finite x -> finite y -> finite (fmul x y).
Proof. intros [a ->] [b ->]. now eexists. Qed.

Lemma fsub_finite x y : finite x -> finite y -> finite (fsub x y).
Proof. intros [a ->] [b ->]. now eexists. Qed.

Lemma fadd_finite x y : finite x -> finite y -> finite (fadd x y).
Proof. intros [a ->] [b ->]. now eexists. Qed.

Lemma np_sum_finite l : Forall finite l -> finite (np_sum l).
Proof.
  intros Hl. destruct (finite_list _ Hl) as [qs ->].
  rewrite np_sum_Fin. now eexists.
Qed.

Lemma dot_finite a b : Forall finite a -> Forall finite b -> finite (dot a b).
Proof.
  intros Ha Hb. apply np_sum_finite, vmap2_finite; trivial. apply fmul_finite.
Qed.

(** A squared standardised residual. *)
Lemma fsquare_div_nonneg x sigma :
  finite x -> nonzero sigma -> nonneg (fsquare (x / sigma)%fl).
Proof.
  intros [a ->] (s & -> & Hs). rewrite fdiv_Fin_nonzero by exact Hs.
  eexists. split; [reflexivity | nra].
Qed.

Lemma np_sum_nonneg l : Forall nonneg l -> nonneg (np_sum l).
Proof.
  intros Hl.
  assert (H : exists qs, l = map Fin qs /\ Forall (fun q => 0 <= q) qs).
  { induction Hl as [| x l (q & -> & Hq) _ (qs & -> & Hqs)].
    - exists []. split; [reflexivity | constructor].
    - exists (q :: qs). split; [reflexivity | constructor; trivial]. }
  destruct H as (qs & -> & Hqs). rewrite np_sum_Fin.
  eexists. split; [reflexivity | apply Qsum_nonneg, Hqs].
Qed.

Lemma prime_vector_cells row :
  (forall p, finite_or_missing (abs_median row p)) ->
  (forall p, finite_or_missing (abs_mean row p)) ->
  Forall finite_or_missing (_prime_vector row).
Proof.
  intros Hmed Hmean. unfold _prime_vector. apply Forall_map, Forall_forall.
  intros p _.
  destruct (Hmed p) as [-> | [q ->]]; cbn [isnan].
  - destruct (Hmean p) as [-> | [q ->]]; cbn [isnan fabs].
    + now left.
    + right. now eexists.
  - right. now eexists.
Qed.

Lemma prime_vector_any row :
  (exists p, isnan (abs_median row p) = false \/ isnan (abs_mean row p) = false) ->
  existsb (fun m => m) (map (fun x => negb (isnan x)) (_prime_vector row)) = true.
Proof.
  intros (p & Hp). apply existsb_exists. exists true. split; [| reflexivity].
  apply in_map_iff.
  exists (let val := abs_median row p in
          let val := if isnan val then abs_mean row p else val in
          if isnan val then NaN else fabs val).
  split.
  - cbv zeta. destruct (abs_median row p) eqn:Em; cbn [isnan];
      try reflexivity.
    destruct Hp as [Hp | Hp]; [discriminate |].
    rewrite Hp. destruct (abs_mean row p); try discriminate; reflexivity.
  - unfold _prime_vector. apply in_map_iff. exists p. split; [reflexivity |].
    destruct p; simpl; tauto.
Qed.

(** The fingerprint cost is a non-negative number as soon as one component
    is observed. *)
Lemma fit_amplitude_nonneg e_obs w sigma :
  Forall finite_or_missing e_obs ->
  existsb (fun m => m) (map (fun x => negb (isnan x)) e_obs) = true ->
  Forall finite w -> nonzero sigma ->
  nonneg (snd (fst (_fit_amplitude e_obs w sigma))).
Proof.
  intros He Hany Hw Hs. unfold _fit_amplitude. rewrite Hany. cbn [negb].
  set (mask := map (fun x => negb (isnan x)) e_obs).
  assert (Hwm : Forall finite (select mask w)) by now apply select_finite.
  assert (Hem : Forall finite (select mask e_obs)) by now apply select_observed.
  assert (HA : finite
            (if (dot (select mask w) (select mask w) <=? Fin 0)%fl then Fin 0
             else (dot (select mask e_obs) (select mask w)
                   / dot (select mask w) (select mask w))%fl)).
  { destruct (dot_finite _ _ Hwm Hwm) as [d Hd].
    destruct (dot_finite _ _ Hem Hwm) as [n Hn].
    rewrite Hd, Hn.
    destruct (fleb (Fin d) (Fin 0)) eqn:Hle; [now eexists |].
    apply fleb_Fin_false in Hle. rewrite fdiv_Fin_nonzero by lra. now eexists. }
  cbn [fst snd].
  apply np_sum_nonneg. apply Forall_map.
  assert (Hsim : Forall finite
            (select mask
               (map (fun x =>
                       ((if (dot (select mask w) (select mask w) <=? Fin 0)%fl
                         then Fin 0
                         else (dot (select mask e_obs) (select mask w)
                               / dot (select mask w) (select mask w))%fl) * x)%fl)
                    w))).
  { apply select_finite, Forall_map.
    eapply Forall_impl; [| exact Hw]. intros x Hx. now apply fmul_finite. }
  pose proof (vmap2_finite fsub _ _ fsub_finite Hem Hsim) as Hres.
  eapply Forall_impl; [| exact Hres].
  intros d Hd. now apply fsquare_div_nonneg.
Qed.

Lemma dict_get_finite d key default :
  Forall (fun kv => finite (snd kv)) d -> finite default ->
  finite (dict_get d key default).
Proof.
  intros Hd Hdef. induction Hd as [| [k v] d Hv _ IH]; simpl; trivial.
  destruct (String.eqb k key); trivial.
Qed.

Lemma N_SCALE_finite key : finite (dict_get N_SCALE key (Fin 1)).
Proof.
  apply dict_get_finite; [| now eexists].
  repeat constructor; now eexists.
Qed.

Lemma COMPLEXITY_finite key : finite (dict_get COMPLEXITY key (Fin 1)).
Proof.
  apply dict_get_finite; [| now eexists].
  repeat constructor; now eexists.
Qed.

Lemma q_lock_unit delta_N : finite_or_missing delta_N -> within 0 1 (_q_lock delta_N).
Proof.
  intros [-> | [d ->]]; unfold _q_lock; cbn [isnan].
  - exists 0. split; [reflexivity | lra].
  - cbn [fsub fneg fadd]. apply np_clip_unit.
Qed.

(** Every total cost of a well-formed row under sound hyperparameters is a
    non-negative number. *)
Lemma score_total_nonneg params row topo :
  sound_params params -> observed row -> Forall finite (w topo) ->
  nonneg (s_C_total (score params row topo)).
Proof.
  intros (Hse & HsN & Hsxi & HlN & Hlxi & Henv)
         (Hmed & Hmean & Hany & HN & Hd & Hxi) Hw.
  unfold score.
  pose proof (fit_amplitude_nonneg (_prime_vector row) (w topo) (sigma_e params)
                (prime_vector_cells row Hmed Hmean) (prime_vector_any row Hany)
                Hw Hse) as Hce.
  destruct (_fit_amplitude (_prime_vector row) (w topo) (sigma_e params))
    as [[A_T C_e] e_sim].
  cbn [fst snd] in Hce. cbn [s_C_total].
  destruct Hce as (ce & -> & Hce).
  assert (HCN : nonneg
            match _n_sim (N_median row) (topology_id topo) with
            | Some N_sim =>
                if negb (isnan (N_median row))
                then fsquare ((N_median row - N_sim) / sigma_N params)%fl
                else Fin 0
            | None => Fin 0
            end).
  { unfold _n_sim. destruct HN as [-> | [n ->]]; cbn [isnan negb].
    - exists 0. split; [reflexivity | lra].
    - apply fsquare_div_nonneg; trivial.
      apply fsub_finite; [now eexists |].
      apply fmul_finite; [now eexists | apply N_SCALE_finite]. }
  assert (HCxi : nonneg
            (if negb (isnan (xi_ext_median row))
             then fsquare
                    ((xi_ext_median row
                      - _xi_sim (_q_lock (delta_N_median row)) (topology_id topo) params)
                     / sigma_xi params)%fl
             else Fin 0)).
  { destruct Hxi as [-> | [x ->]]; cbn [isnan negb].
    - exists 0. split; [reflexivity | lra].
    - apply fsquare_div_nonneg; trivial.
      apply fsub_finite; [now eexists |].
      unfold _xi_sim. apply fadd_finite; trivial.
      apply fmul_finite; [| apply COMPLEXITY_finite].
      destruct (q_lock_unit _ Hd) as (q & -> & _). now eexists. }
  destruct HCN as (cn & -> & Hcn). destruct HCxi as (cx & -> & Hcx).
  destruct HlN as (ln & -> & Hln). destruct Hlxi as (lx & -> & Hlx).
  cbn [fmul fadd]. eexists. split; [reflexivity |].
  assert (0 <= ln * cn) by (apply Qmult_le_0_compat; lra).
  assert (0 <= lx * cx) by (apply Qmult_le_0_compat; lra).
  lra.
Qed.

Lemma infer_row_totals_nonneg params catalog row :
  sound_params params -> observed row ->
  Forall (fun t => Forall finite (w t)) catalog ->
  Forall nonneg (element_totals (snd (infer_row params catalog row))).
Proof.
  intros Hp Hr Hc. rewrite infer_row_totals. apply Forall_map.
  eapply Forall_impl; [| exact Hc].
  intros t Ht. now apply score_total_nonneg.
Qed.

End ResonantCosts.

Section ConfidenceClaim.

Import Spec TopologyEngine ResonantEngine Examples.

Lemma scale_nonzero x : scale x -> nonzero x.
Proof.
  intros (q & -> & Hlo & _). exists q. split; [reflexivity |].
  assert (Hpos : 0 < / BOUND) by (vm_compute; reflexivity).
  intros E. rewrite E in Hlo. change (Qabs 0) with 0 in Hlo. lra.
Qed.

Lemma moderate_params_sound params : moderate_params params -> sound_params params.
Proof.
  intros (He & HN & Hxi & HlN & Hlxi & Henv).
  repeat split; try (now apply scale_nonzero); try (now apply weight_nonneg).
  now apply moderate_finite.
Qed.

Lemma moderate_cells_observed row :
  moderate_cells row ->
  (exists p, isnan (abs_median row p) = false \/ isnan (abs_mean row p) = false) ->
  observed row.
Proof.
  intros (Hmed & Hmean & HN & Hd & Hxi) Hany.
  split; [intros p; apply moderate_cell, Hmed |].
  split; [intros p; apply moderate_cell, Hmean |].
  split; [exact Hany |].
  repeat split; now apply moderate_cell.
Qed.

(** C2, as the code has it.  For every element processed by the resonant
    engine: the confidence is 0 when the catalog is empty and when the
    maximal total cost is zero; when the catalog is not empty and every
    total cost of the element is a finite non-negative number, the
    confidence lies in [0,1], equals [1 - best_total / max_total] unless the
    maximal total is zero, and is 0 when all totals are equal; and the
    totals are finite and non-negative whenever the scales are neither tiny
    nor huge, the weights [lambda_N], [lambda_xi] non-negative, the
    hyperparameters, the cells of the row and the catalog weights of
    moderate magnitude (the cells possibly missing), and one fingerprint
    component is observed. *)
Theorem confidence_in_unit_interval :
  forall params catalog row,
  let res := snd (infer_row params catalog row) in
  (catalog = [] -> confidence res = Fin 0)
  /\ (forall mx, py_max (element_totals res) = Some mx ->
        feqb mx (Fin 0) = true -> confidence res = Fin 0)
  /\ (catalog <> [] -> Forall nonneg (element_totals res) ->
      exists b mx c,
        option_map s_C_total (r_best res) = Some (Fin b)
        /\ py_max (element_totals res) = Some (Fin mx)
        /\ confidence res = Fin c
        /\ 0 <= c <= 1
        /\ (mx == 0 -> c == 0)
        /\ (~ mx == 0 -> c == 1 - b / mx)
        /\ ((forall q, In (Fin q) (element_totals res) -> q == b) -> c == 0))
  /\ (moderate_params params -> moderate_cells row ->
      (exists p, isnan (abs_median row p) = false \/ isnan (abs_mean row p) = false) ->
      Forall (fun t => Forall moderate (w t)) catalog ->
      Forall nonneg (element_totals res)).
Proof.
  intros params catalog row res.
  destruct (confidence_of_row params catalog row) as (Hempty & Hzero & Hunit).
  split; [exact Hempty |]. split; [exact Hzero |]. split; [exact Hunit |].
  intros Hp Hr Hany Hc. apply infer_row_totals_nonneg.
  - now apply moderate_params_sound.
  - now apply moderate_cells_observed.
  - eapply Forall_impl; [| exact Hc]. intros t Ht.
    eapply Forall_impl; [| exact Ht]. apply moderate_finite.
Qed.

Lemma confidence_in_unit_interval_witness :
  exists b mx c,
    option_map s_C_total
      (r_best (snd (infer_row default_params [topo_A; topo_B] row_Y)))
    = Some (Fin b)
    /\ py_max (element_totals (snd (infer_row default_params [topo_A; topo_B] row_Y)))
       = Some (Fin mx)
    /\ confidence (snd (infer_row default_params [topo_A; topo_B] row_Y)) = Fin c
    /\ 0 <= c <= 1
    /\ (mx == 0 -> c == 0)
    /\ (~ mx == 0 -> c == 1 - b / mx)
    /\ ((forall q,
           In (Fin q)
              (element_totals (snd (infer_row default_params [topo_A; topo_B] row_Y))) ->
           q == b) -> c == 0).
Proof.
  destruct (confidence_in_unit_interval default_params [topo_A; topo_B] row_Y)
    as (_ & _ & H & Hnn).
  apply H; [discriminate |].
  apply Hnn.
  - repeat split; range_num.
  - split; [intros []; range_cell |].
    split; [intros []; range_cell |].
    repeat split; range_cell.
  - exists E2. left. reflexivity.
  - repeat (apply Forall_cons || apply Forall_nil); range_num.
Defined.


End ConfidenceClaim.

(** ** Cliff's delta *)

Section CliffsDelta.

Import Spec Analysis.

(** Swapping the operands of a difference flips its sign. *)
Lemma np_sign_swap x y : np_sign (y - x)%fl = fneg (np_sign (x - y)%fl).
Proof.
  destruct x as [| | a |], y as [| | b |]; try reflexivity.
  cbn [fsub fneg fadd np_sign]. unfold Qsgn.
  destruct (Qcompare_spec (b + - a) 0), (Qcompare_spec (a + - b) 0);
    try reflexivity; lra.
Qed.

Lemma np_sign_cell x : finite_or_missing (np_sign x).
Proof.
  destruct x as [| | q |]; cbn [np_sign];
    try (now left); try (right; now eexists).
  destruct (Qsgn q); right; now eexists.
Qed.

(** The sum of an array of numbers and NaNs. *)
Lemma fold_fadd_cells l a :
  Forall finite_or_missing l ->
  fold_left fadd l (Fin a)
  = if existsb isnan l then NaN else Fin (fold_left Qplus (map qval l) a).
Proof.
  intros Hl. revert a.
  induction Hl as [| x l [-> | [q ->]] _ IH]; intros a; simpl; trivial.
  apply fold_fadd_NaN.
Qed.

Lemma np_sum_cells l :
  Forall finite_or_missing l ->
  np_sum l = if existsb isnan l then NaN else Fin (Qsum (map qval l)).
Proof. apply fold_fadd_cells. Qed.

Lemma Qsum_app a b : Qsum (a ++ b) == Qsum a + Qsum b.
Proof.
  induction a as [| q a IH]; simpl.
  - unfold Qsum at 2. simpl. lra.
  - rewrite !Qsum_cons, IH. lra.
Qed.

Lemma Qsum_map_plus {A : Type} (g h : A -> Q) l :
  Qsum (map (fun a => g a + h a) l) == Qsum (map g l) + Qsum (map h l).
Proof.
  induction l as [| a l IH]; simpl.
  - unfold Qsum. simpl. lra.
  - rewrite !Qsum_cons, IH. lra.
Qed.

Lemma Qsum_map_ext {A : Type} (g h : A -> Q) l :
  (forall a, g a == h a) -> Qsum (map g l) == Qsum (map h l).
Proof.
  intros E. induction l as [| a l IH]; simpl; [reflexivity |].
  rewrite !Qsum_cons, IH, E. reflexivity.
Qed.

Lemma Qsum_map_opp {A : Type} (g : A -> Q) l :
  Qsum (map (fun a => - g a) l) == - Qsum (map g l).
Proof.
  induction l as [| a l IH]; simpl.
  - unfold Qsum. simpl. lra.
  - rewrite !Qsum_cons, IH. lra.
Qed.

(** The entries of a matrix given by a kernel, summed row by row. *)
Lemma Qsum_matrix {A B : Type} (f : A -> B -> float) x y :
  Qsum (map qval (concat (map (fun a => map (f a) y) x)))
  == Qsum (map (fun a => Qsum (map (fun b => qval (f a b)) y)) x).
Proof.
  induction x as [| a x IH]; simpl; [reflexivity |].
  rewrite map_app, Qsum_app, Qsum_cons, IH, map_map. reflexivity.
Qed.

(** Summing by rows or by columns. *)
Lemma Qsum_swap {A B : Type} (g : A -> B -> Q) x y :
  Qsum (map (fun a => Qsum (map (g a) y)) x)
  == Qsum (map (fun b => Qsum (map (fun a => g a b) x)) y).
Proof.
  induction x as [| a x IH]; simpl.
  - induction y as [| b y IHy]; simpl; [reflexivity |].
    rewrite Qsum_cons, <- IHy. unfold Qsum. simpl. lra.
  - rewrite Qsum_cons, IH.
    rewrite (Qsum_map_ext (fun b => Qsum (g a b :: map (fun a0 => g a0 b) x))
               (fun b => g a b + Qsum (map (fun a0 => g a0 b) x)))
      by (intros b; apply Qsum_cons).
    rewrite Qsum_map_plus. reflexivity.
Qed.

Lemma existsb_matrix {A B : Type} (f : A -> B -> float) x y :
  existsb isnan (concat (map (fun a => map (f a) y) x))
  = existsb (fun a => existsb (fun b => isnan (f a b)) y) x.
Proof.
  induction x as [| a x IH]; simpl; trivial.
  rewrite existsb_app, IH. f_equal.
  clear IH. induction y as [| b y IHy]; simpl; trivial.
  rewrite IHy. reflexivity.
Qed.

Lemma existsb_swap {A B : Type} (p : A -> B -> bool) x y :
  existsb (fun a => existsb (p a) y) x
  = existsb (fun b => existsb (fun a => p a b) x) y.
Proof.
  apply eq_true_iff_eq. rewrite !existsb_exists. split.
  - intros (a & Ha & H). apply existsb_exists in H. destruct H as (b & Hb & H).
    exists b. split; trivial. apply existsb_exists. now exists a.
  - intros (b & Hb & H). apply existsb_exists in H. destruct H as (a & Ha & H).
    exists a. split; trivial. apply existsb_exists. now exists b.
Qed.

Lemma existsb_ext {A : Type} (p q : A -> bool) l :
  (forall a, p a = q a) -> existsb p l = existsb q l.
Proof. intros E. induction l as [| a l IH]; simpl; congruence. Qed.

Lemma comparisons_cells x y :
  Forall finite_or_missing (concat (comparisons x y)).
Proof.
  unfold comparisons. apply Forall_concat, Forall_map, Forall_forall.
  intros a _. apply Forall_map, Forall_forall. intros b _. apply np_sign_cell.
Qed.

Lemma isnan_fneg v : isnan (fneg v) = isnan v.
Proof. now destruct v. Qed.

Lemma qval_fneg v : qval (fneg v) == - qval v.
Proof. destruct v; simpl; lra. Qed.

(** The sum of the sign matrix, and of the matrix with the roles swapped. *)
Lemma matrix_sum_comparisons x y :
  exists (nan : bool) (s s' : Q),
    matrix_sum (comparisons x y) = (if nan then NaN else Fin s)
    /\ matrix_sum (comparisons y x) = (if nan then NaN else Fin s')
    /\ s' == - s.
Proof.
  exists (existsb isnan (concat (comparisons x y))),
         (Qsum (map qval (concat (comparisons x y)))),
         (Qsum (map qval (concat (comparisons y x)))).
  unfold matrix_sum.
  rewrite !np_sum_cells by apply comparisons_cells.
  assert (Hnan : existsb isnan (concat (comparisons y x))
                 = existsb isnan (concat (comparisons x y))).
  { unfold comparisons.
    rewrite (existsb_matrix (fun a b => np_sign (a - b)%fl) y x).
    rewrite (existsb_matrix (fun a b => np_sign (a - b)%fl) x y).
    rewrite existsb_swap. apply existsb_ext. intros a. apply existsb_ext.
    intros b. now rewrite np_sign_swap, isnan_fneg. }
  rewrite Hnan. split; [reflexivity |]. split; [reflexivity |].
  unfold comparisons.
  rewrite (Qsum_matrix (fun a b => np_sign (a - b)%fl) y x).
  rewrite (Qsum_matrix (fun a b => np_sign (a - b)%fl) x y).
  rewrite (Qsum_swap (fun a b => qval (np_sign (a - b)%fl)) x y).
  rewrite <- Qsum_map_opp. apply Qsum_map_ext. intros b.
  rewrite <- Qsum_map_opp. apply Qsum_map_ext. intros a.
  rewrite np_sign_swap. apply qval_fneg.
Qed.

Lemma float_of_nat_nonzero n : n <> 0%nat -> ~ inject_Z (Z.of_nat n) == 0.
Proof.
  intros Hn E. unfold Qeq in E. simpl in E. lia.
Qed.

Lemma cliffs_delta_nonempty x y :
  x <> [] -> y <> [] ->
  cliffs_delta x y
  = (matrix_sum (comparisons x y) / float_of_nat (length x * length y))%fl.
Proof.
  intros Hx Hy. unfold cliffs_delta.
  destruct x; [congruence |]. destruct y; [congruence |]. reflexivity.
Qed.

Lemma cliffs_delta_swap x y :
  x <> [] -> y <> [] ->
  exists (nan : bool) (d d' : Q),
    cliffs_delta x y = (if nan then NaN else Fin d)
    /\ cliffs_delta y x = (if nan then NaN else Fin d')
    /\ d' == - d
    /\ (Forall finite x -> Forall finite y -> nan = false).
Proof.
  intros Hx Hy.
  destruct (matrix_sum_comparisons x y) as (nan & s & s' & Hs & Hs' & E).
  rewrite (cliffs_delta_nonempty x y Hx Hy), (cliffs_delta_nonempty y x Hy Hx).
  rewrite Hs, Hs', (Nat.mul_comm (length y) (length x)).
  assert (Hn : ~ inject_Z (Z.of_nat (length x * length y)) == 0).
  { apply float_of_nat_nonzero.
    destruct x; [congruence |]. destruct y; [congruence |]. simpl. lia. }
  exists nan, (s / inject_Z (Z.of_nat (length x * length y))),
         (s' / inject_Z (Z.of_nat (length x * length y))).
  unfold float_of_nat.
  destruct nan.
  - split; [reflexivity |]. split; [reflexivity |]. split.
    + rewrite E. field. exact Hn.
    + intros Hfx Hfy. exfalso.
      assert (Hfin : finite (matrix_sum (comparisons x y))).
      { unfold matrix_sum. apply np_sum_finite, Forall_concat.
        unfold comparisons. apply Forall_map.
        eapply Forall_impl; [| exact Hfx]. intros a [qa ->].
        apply Forall_map. eapply Forall_impl; [| exact Hfy]. intros b [qb ->].
        cbn [fsub fneg fadd np_sign]. destruct (Qsgn (qa + - qb)); now eexists. }
      rewrite Hs in Hfin. destruct Hfin as [q Hq]. discriminate.
  - rewrite !fdiv_Fin_nonzero by exact Hn.
    split; [reflexivity |]. split; [reflexivity |]. split; [| reflexivity].
    rewrite E. field. exact Hn.
Qed.

(** C8.  For all non-empty arrays, [cliffs_delta x y] is the negation of
    [cliffs_delta y x]: the two are the same value, and on arrays of numbers
    Python's [==] between them holds. *)
Theorem cliffs_delta_antisymmetric :
  forall x y : list float,
  x <> [] -> y <> [] ->
  same (cliffs_delta x y) (fneg (cliffs_delta y x))
  /\ (Forall finite x -> Forall finite y ->
      feqb (cliffs_delta x y) (fneg (cliffs_delta y x)) = true).
Proof.
  intros x y Hx Hy.
  destruct (cliffs_delta_swap x y Hx Hy) as (nan & d & d' & -> & -> & E & Hfin).
  split.
  - destruct nan; cbn [fneg same]; trivial. rewrite E. lra.
  - intros Hfx Hfy. rewrite (Hfin Hfx Hfy). cbn [fneg feqb].
    apply Qeq_bool_iff. rewrite E. lra.
Qed.

Lemma cliffs_delta_antisymmetric_witness :
  same (cliffs_delta [Fin 1; Fin 2] [Fin 0; Fin 3; Fin 1])
       (fneg (cliffs_delta [Fin 0; Fin 3; Fin 1] [Fin 1; Fin 2]))
  /\ feqb (cliffs_delta [Fin 1; Fin 2] [Fin 0; Fin 3; Fin 1])
          (fneg (cliffs_delta [Fin 0; Fin 3; Fin 1] [Fin 1; Fin 2])) = true.
Proof.
  destruct (cliffs_delta_antisymmetric [Fin 1; Fin 2] [Fin 0; Fin 3; Fin 1])
    as [Hsame Heq]; try discriminate.
  split; [exact Hsame |].
  apply Heq; repeat (apply Forall_cons || apply Forall_nil); now eexists.
Defined.

(** The effect size of a concrete pair of groups, both ways round. *)
Example cliffs_delta_run :
  same (cliffs_delta [Fin 1; Fin 2] [Fin 0; Fin 3; Fin 1]) (Fin (1 # 6))
  /\ same (cliffs_delta [Fin 0; Fin 3; Fin 1] [Fin 1; Fin 2]) (Fin (- 1 # 6)).
Proof. split; vm_compute; reflexivity. Qed.

End CliffsDelta.

(** ** Classifier evaluation *)

Section Classifier.

Import Spec Analysis Lib.

Context `{L : Lib.Libraries}.

Lemma isin_length labels targets : length (isin labels targets) = length labels.
Proof. apply length_map. Qed.

Lemma filter_complement (y : list bool) :
  (length (filter (fun b => b) y) + length (filter negb y) = length y)%nat.
Proof. induction y as [| [|] y IH]; simpl; lia. Qed.

Lemma existsb_filter_positive {A : Type} (p : A -> bool) l :
  existsb p l = true <-> (1 <= length (filter p l))%nat.
Proof.
  induction l as [| a l IH]; simpl.
  - split; [discriminate | lia].
  - destruct (p a); simpl; [split; [lia | reflexivity] | exact IH].
Qed.

Lemma n_unique_two (y : list bool) :
  (2 <= n_unique y)%nat <->
  (1 <= length (filter (fun b => b) y))%nat /\ (1 <= length (filter negb y))%nat.
Proof.
  rewrite <- !existsb_filter_positive. unfold n_unique.
  destruct (existsb (fun b => b) y), (existsb negb y); simpl; split;
    intros H; try lia; try tauto; destruct H; discriminate.
Qed.

(** The counts and the baseline of a result, whichever path produced it. *)
Lemma evaluate_classifier_counts X labels random_state res :
  evaluate_classifier X labels random_state = Ok res ->
  let y := isin labels ["d"; "f"]%string in
  let n_pos := length (filter (fun b => b) y) in
  n_samples res = length labels
  /\ n_positive res = n_pos
  /\ n_negative res = (length labels - n_pos)%nat
  /\ baseline_accuracy res
     = (if (0 <? length labels)%nat
        then Some (float_of_nat (Nat.max n_pos (length labels - n_pos))
                   / float_of_nat (length labels))%fl
        else None).
Proof.
  intros E y n_pos.
  assert (Hy : length y = length labels) by apply isin_length.
  unfold evaluate_classifier in E. fold y in E. fold n_pos in E.
  rewrite Hy in E.
  destruct ((n_unique y <? 2)%nat || (length labels <? 3)%nat).
  - injection E as <-. repeat split.
  - destruct (if (length labels <=? 12)%nat then Ok LeaveOneOut
              else stratified_kfold
                     (Nat.min 5 (Nat.min (length labels - n_pos) n_pos)) random_state)
      as [cv |]; [| discriminate].
    cbn [bind] in E.
    destruct (cross_val_metrics X y cv) as [m |]; [| discriminate].
    cbn [bind] in E. injection E as <-. repeat split.
Qed.

(** The skip path returns, with the three metrics undefined. *)
Lemma evaluate_classifier_skip X labels random_state :
  let y := isin labels ["d"; "f"]%string in
  (n_unique y < 2)%nat \/ (length labels < 3)%nat ->
  exists res,
    evaluate_classifier X labels random_state = Ok res
    /\ accuracy res = None /\ balanced_accuracy res = None /\ roc_auc res = None.
Proof.
  intros y Hskip.
  assert (Hy : length y = length labels) by apply isin_length.
  unfold evaluate_classifier. fold y. rewrite Hy.
  assert (Hb : (n_unique y <? 2)%nat || (length labels <? 3)%nat = true).
  { apply orb_true_iff. destruct Hskip as [H | H];
      [left | right]; now apply Nat.ltb_lt. }
  rewrite Hb. eexists. split; [reflexivity |]. repeat split.
Qed.

(** More than twelve samples and a class with a single member: the
    stratified k-fold is asked for one fold, which scikit-learn rejects. *)
Lemma evaluate_classifier_single_member X labels random_state :
  let y := isin labels ["d"; "f"]%string in
  let n_pos := length (filter (fun b => b) y) in
  (12 < length labels)%nat ->
  n_pos = 1%nat \/ (length labels - n_pos)%nat = 1%nat ->
  evaluate_classifier X labels random_state
  = Raise (n_splits_error 1).
Proof.
  intros y n_pos Hlen Hone.
  assert (Hy : length y = length labels) by apply isin_length.
  pose proof (filter_complement y) as Hsplit. fold n_pos in Hsplit.
  assert (H2 : (2 <= n_unique y)%nat).
  { apply n_unique_two. fold n_pos. lia. }
  unfold evaluate_classifier. fold y. fold n_pos. rewrite Hy.
  assert (Hb : (n_unique y <? 2)%nat || (length labels <? 3)%nat = false).
  { apply orb_false_iff. rewrite !Nat.ltb_ge. lia. }
  assert (Hc : (length labels <=? 12)%nat = false) by (apply Nat.leb_gt; lia).
  rewrite Hb, Hc. unfold stratified_kfold.
  assert (Hk : Nat.min 5 (Nat.min (length labels - n_pos) n_pos) = 1%nat) by lia.
  rewrite Hk. reflexivity.
Qed.

(** C10, as the code has it.  Whenever the classifier evaluation returns,
    the result reports the sample counts and, for a non-empty input, a
    baseline accuracy equal to [max(n_positive, n_negative) / n_samples]; the
    baseline is undefined exactly on the empty input.  It returns on every
    input with fewer than two classes or fewer than three samples, leaving
    accuracy, balanced accuracy and ROC-AUC undefined.  It does not return
    on every non-empty input: with more than twelve samples and a class of a
    single member it raises [ValueError]. *)
Theorem baseline_accuracy_defined :
  forall (X : list (list float)) (labels : list string) (random_state : Z),
  let y := isin labels ["d"; "f"]%string in
  let n_pos := length (filter (fun b => b) y) in
  let n_neg := (length labels - n_pos)%nat in
  (forall res, evaluate_classifier X labels random_state = Ok res ->
      n_samples res = length labels
      /\ n_positive res = n_pos
      /\ n_negative res = n_neg
      /\ (labels <> [] ->
          baseline_accuracy res
          = Some (Fin (inject_Z (Z.of_nat (Nat.max n_pos n_neg))
                       / inject_Z (Z.of_nat (length labels)))))
      /\ (labels = [] -> baseline_accuracy res = None))
  /\ ((n_unique y < 2)%nat \/ (length labels < 3)%nat ->
      exists res,
        evaluate_classifier X labels random_state = Ok res
        /\ accuracy res = None /\ balanced_accuracy res = None /\ roc_auc res = None)
  /\ ((12 < length labels)%nat -> n_pos = 1%nat \/ n_neg = 1%nat ->
      evaluate_classifier X labels random_state
      = Raise (n_splits_error 1)).
Proof.
  intros X labels random_state y n_pos n_neg. split; [| split].
  - intros res E.
    destruct (evaluate_classifier_counts X labels random_state res E)
      as (Hn & Hp & Hneg & Hbase).
    fold y in Hp, Hneg, Hbase. fold n_pos in Hp, Hneg, Hbase. fold n_neg in Hneg, Hbase.
    split; [exact Hn |]. split; [exact Hp |]. split; [exact Hneg |].
    split.
    + intros Hne. rewrite Hbase.
      destruct labels as [| l labels']; [congruence |].
      change (0 <? length (l :: labels'))%nat with true. cbv iota.
      unfold float_of_nat. rewrite fdiv_Fin_nonzero; [reflexivity |].
      apply float_of_nat_nonzero. discriminate.
    + intros ->. exact Hbase.
  - apply evaluate_classifier_skip.
  - apply evaluate_classifier_single_member.
Qed.

End Classifier.

Section ClassifierRuns.

Import Spec Analysis Examples.

(** A two-element dataset: no cross-validation, baseline one half. *)
Lemma baseline_accuracy_defined_witness :
  exists res,
    @evaluate_classifier toy_libraries [[Fin 1]; [Fin 2]] ["p"; "d"]%string 0 = Ok res
    /\ baseline_accuracy res = Some (Fin (inject_Z 1 / inject_Z 2))
    /\ accuracy res = None /\ balanced_accuracy res = None /\ roc_auc res = None.
Proof.
  destruct (@baseline_accuracy_defined toy_libraries [[Fin 1]; [Fin 2]]
              ["p"; "d"]%string 0) as (Hres & Hskip & _).
  destruct Hskip as (res & E & Hacc); [right; simpl; lia |].
  exists res. split; [exact E |]. split; [| exact Hacc].
  destruct (Hres res E) as (_ & _ & _ & Hbase & _).
  apply Hbase. discriminate.
Defined.

(** Thirteen elements, one of them in the d block: a non-empty input on
    which the evaluation raises instead of returning a baseline. *)
Lemma baseline_missing_single_member :
  labels_one_positive <> []
  /\ @evaluate_classifier toy_libraries features_thirteen labels_one_positive 0
     = Raise (n_splits_error 1).
Proof. split; [discriminate | reflexivity]. Qed.

End ClassifierRuns.

(** ** Empirical p-value and z-score *)

Section EmpiricalP.

Import Spec Analysis NullModels.

Lemma finite_samples_all (qs : list Q) :
  finite_samples (map (fun q => Some (Fin q)) qs) = map Fin qs.
Proof. induction qs as [| q qs IH]; simpl; congruence. Qed.

Lemma samples_decode (samples : list (option float)) (P : Q -> Prop) :
  (forall s, In s samples -> exists q, s = Some (Fin q) /\ P q) ->
  exists qs, samples = map (fun q => Some (Fin q)) qs /\ Forall P qs.
Proof.
  induction samples as [| s samples IH]; intros H.
  - exists []. split; [reflexivity | constructor].
  - destruct (H s (or_introl eq_refl)) as (q & -> & Hq).
    destruct IH as (qs & -> & Hqs); [intros s' Hs'; apply H; now right |].
    exists (q :: qs). split; [reflexivity | now constructor].
Qed.

Lemma count_extreme_all r qs :
  Forall (fun q => Qabs r <= Qabs q) qs ->
  count_extreme (map Fin qs) (Fin r) = length qs.
Proof.
  unfold count_extreme.
  induction 1 as [| q qs Hq _ IH]; cbn [map filter]; trivial.
  unfold fgeb in *. cbn [fabs] in *.
  assert (E : fleb (Fin (Qabs r)) (Fin (Qabs q)) = true) by now apply fleb_Fin.
  rewrite E. cbn [length]. now rewrite IH.
Qed.

Lemma count_extreme_none r qs :
  Forall (fun q => Qabs q < Qabs r) qs ->
  count_extreme (map Fin qs) (Fin r) = 0%nat.
Proof.
  unfold count_extreme.
  induction 1 as [| q qs Hq _ IH]; cbn [map filter]; trivial.
  unfold fgeb in *. cbn [fabs] in *.
  assert (E : fleb (Fin (Qabs r)) (Fin (Qabs q)) = false) by now apply fleb_Fin_false.
  now rewrite E.
Qed.

(** The p-value on a defined statistic and non-empty finite samples. *)
Lemma empirical_p_value r qs :
  qs <> [] ->
  _empirical_p (Some (Fin r)) (map (fun q => Some (Fin q)) qs)
  = Ok (Some (Fin (inject_Z (Z.of_nat (count_extreme (map Fin qs) (Fin r) + 1))
                   / inject_Z (Z.of_nat (length qs + 1))))).
Proof.
  intros Hne. unfold _empirical_p. rewrite finite_samples_all.
  cbn [np_isnan_opt bind isnan is_none orb]. rewrite length_map.
  destruct qs as [| q qs]; [congruence |].
  change (length (q :: qs) =? 0)%nat with false. cbv iota.
  unfold float_of_nat. rewrite fdiv_Fin_nonzero; [reflexivity |].
  apply float_of_nat_nonzero. lia.
Qed.

(** C5, as the code has it.  On [n >= 1] null samples and a real statistic
    equal to the absolute value of every one of them, every sample counts as
    extreme and the p-value is [(n + 1) / (n + 1) = 1]; the value
    [1 / (n + 1)] is returned when every null sample is strictly smaller in
    absolute value than the real statistic. *)
Theorem empirical_p_zero_variance :
  forall (r : Q) (samples : list (option float)),
  samples <> [] ->
  ((forall s, In s samples -> exists q, s = Some (Fin q) /\ Qabs q == r) ->
   exists p, _empirical_p (Some (Fin r)) samples = Ok (Some (Fin p)) /\ p == 1)
  /\ ((forall s, In s samples -> exists q, s = Some (Fin q) /\ Qabs q < Qabs r) ->
      exists p, _empirical_p (Some (Fin r)) samples = Ok (Some (Fin p))
                /\ p == 1 / inject_Z (Z.of_nat (length samples + 1))).
Proof.
  intros r samples Hne. split; intros H.
  - destruct (samples_decode samples _ H) as (qs & -> & Hqs).
    assert (Hqne : qs <> []) by (intros ->; now apply Hne).
    rewrite (empirical_p_value r qs Hqne). eexists. split; [reflexivity |].
    rewrite count_extreme_all.
    + field. apply float_of_nat_nonzero. lia.
    + eapply Forall_impl; [| exact Hqs]. intros q Hq. cbv beta in Hq.
      assert (Hr : 0 <= r) by (rewrite <- Hq; apply Qabs_nonneg).
      rewrite (Qabs_pos r Hr). lra.
  - destruct (samples_decode samples _ H) as (qs & -> & Hqs).
    assert (Hqne : qs <> []) by (intros ->; now apply Hne).
    rewrite (empirical_p_value r qs Hqne). eexists. split; [reflexivity |].
    rewrite count_extreme_none by exact Hqs. rewrite length_map.
    reflexivity.
Qed.

End EmpiricalP.

Section EmpiricalPRuns.

Import Spec Analysis NullModels.

(** Two null samples equal to the real statistic: the p-value is 1, not 1/3. *)
Lemma empirical_p_identical_samples :
  exists p,
    _empirical_p (Some (Fin 1)) [Some (Fin 1); Some (Fin 1)] = Ok (Some (Fin p))
    /\ p == 1
    /\ ~ p == 1 / inject_Z (Z.of_nat (2 + 1)).
Proof.
  eexists. split; [reflexivity |]. split; [reflexivity | discriminate].
Qed.

Lemma empirical_p_zero_variance_witness :
  (exists p,
      _empirical_p (Some (Fin 1)) [Some (Fin 1); Some (Fin (-1))] = Ok (Some (Fin p))
      /\ p == 1)
  /\ (exists p,
        _empirical_p (Some (Fin 1)) [Some (Fin 0); Some (Fin 0)] = Ok (Some (Fin p))
        /\ p == 1 / inject_Z (Z.of_nat (2 + 1))).
Proof.
  split.
  - destruct (empirical_p_zero_variance 1 [Some (Fin 1); Some (Fin (-1))])
      as [H _]; [discriminate |].
    apply H. intros s [<- | [<- | []]]; eexists; (split; [reflexivity |]);
      reflexivity.
  - destruct (empirical_p_zero_variance 1 [Some (Fin 0); Some (Fin 0)])
      as [_ H]; [discriminate |].
    apply H. intros s [<- | [<- | []]]; eexists; (split; [reflexivity |]);
      reflexivity.
Defined.

End EmpiricalPRuns.

(** ** Degenerate statistical inputs *)

Section DegenerateInputs.

Import Spec TopologyEngine Analysis NullModels Lib.

Context `{L : Libraries}.

(** An empty comparison group: every metric of the test is undefined. *)
Lemma mann_whitney_empty_group values labels group_a group_b :
  _group_arrays values labels group_a = []
  \/ _group_arrays values labels group_b = [] ->
  let res := mann_whitney_with_effect values labels group_a group_b in
  delta res = None /\ p_value res = None /\ median_diff res = None.
Proof.
  intros Hempty res. subst res. unfold mann_whitney_with_effect.
  destruct Hempty as [-> | ->]; cbn [length Nat.eqb orb];
    rewrite ?orb_true_r; repeat split.
Qed.

(** An empty group makes Cliff's delta NaN. *)
Lemma cliffs_delta_empty x y : x = [] \/ y = [] -> cliffs_delta x y = NaN.
Proof.
  intros [-> | ->]; unfold cliffs_delta; cbn [length Nat.eqb orb];
    rewrite ?orb_true_r; reflexivity.
Qed.

(** A NaN statistic, or no finite null sample: no p-value, no exception. *)
Lemma empirical_p_undefined r samples :
  isnan r = true \/ finite_samples samples = [] ->
  _empirical_p (Some r) samples = Ok None.
Proof.
  intros Hd. unfold _empirical_p. cbn [np_isnan_opt bind is_none].
  destruct Hd as [-> | ->]; [reflexivity |].
  cbn [length Nat.eqb]. now rewrite !orb_true_r.
Qed.

(** A NaN statistic, or fewer than two finite null samples: no z-score. *)
Lemma z_score_undefined r samples :
  isnan r = true \/ (length (finite_samples samples) < 2)%nat ->
  _z_score (Some r) samples = Ok None.
Proof.
  intros Hd. unfold _z_score. cbn [np_isnan_opt bind is_none].
  destruct Hd as [-> | Hlt]; [reflexivity |].
  apply Nat.ltb_lt in Hlt. rewrite Hlt. now rewrite !orb_true_r.
Qed.

(** On a defined statistic neither function raises. *)
Lemma empirical_p_total r samples : raises (_empirical_p (Some r) samples) = false.
Proof.
  unfold _empirical_p. cbn [np_isnan_opt bind is_none].
  destruct (isnan r || false || (length (finite_samples samples) =? 0)%nat);
    reflexivity.
Qed.

Lemma z_score_total r samples : raises (_z_score (Some r) samples) = false.
Proof.
  unfold _z_score. cbn [np_isnan_opt bind is_none].
  destruct (isnan r || false || (length (finite_samples samples) <? 2)%nat);
    reflexivity.
Qed.

(** The statistic [None]: [np.isnan] is applied to it before the test
    [real is None], and raises. *)
Lemma empirical_p_none samples :
  _empirical_p None samples
  = Raise (TypeError "ufunc 'isnan' not supported for the input types").
Proof. reflexivity. Qed.

Lemma z_score_none samples :
  _z_score None samples
  = Raise (TypeError "ufunc 'isnan' not supported for the input types").
Proof. reflexivity. Qed.

(** The list comprehension of the same functions tests [is not None]
    first, and drops a [None] sample without raising. *)
Lemma finite_samples_skips_none samples :
  finite_samples (None :: samples) = finite_samples samples.
Proof. reflexivity. Qed.

End DegenerateInputs.

(** ** The null models are functions of their arguments and the seed *)

Section ResamplingFacts.

Import Spec TopologyEngine Analysis NullModels Lib.

Context `{L : Libraries}.

Lemma nth_error_set_cell h g l :
  (h < length l)%nat -> nth_error (set_cell h g l) h = Some g.
Proof.
  revert h. induction l as [| x l IH]; intros [| h] Hlt; simpl in *;
    try lia; trivial.
  apply IH. lia.
Qed.

(** A draw on a live generator: the value and the next state come from the
    cell, and only that cell changes. *)
Lemma with_generator_live {A : Type} rng (draw : bitgen -> A * bitgen) dangling w g :
  nth_error (heap w) rng = Some g ->
  with_generator rng draw dangling w
  = (fst (draw g), {| heap := set_cell rng (snd (draw g)) (heap w) |}).
Proof.
  intros Hg. unfold with_generator. rewrite Hg. now destruct (draw g).
Qed.

Lemma permutation_trials_draws n rng X labels samples w g :
  nth_error (heap w) rng = Some g ->
  fst (permutation_trials n rng X labels samples w)
  = collect (map (_metric_snapshot X) (fst (permutation_draws n g labels))) samples.
Proof.
  revert samples w g.
  induction n as [| k IH]; intros samples w g Hg.
  - reflexivity.
  - cbn [permutation_trials permutation_draws]. unfold mbind, rng_permutation.
    rewrite (with_generator_live _ _ _ _ _ Hg).
    destruct (draw_permutation g labels) as [p g'] eqn:Hd. cbn [fst snd].
    assert (Hlt : (rng < length (heap w))%nat)
      by (apply nth_error_Some; congruence).
    specialize (IH (match _metric_snapshot X p with
                    | Ok metrics => record_metrics metrics samples
                    | Raise _ => samples
                    end)
                   {| heap := set_cell rng g' (heap w) |} g'
                   (nth_error_set_cell _ _ _ Hlt)).
    destruct (permutation_draws k g' labels) as [ps g''].
    cbn [fst snd map collect] in *.
    destruct (_metric_snapshot X p) as [metrics | e]; [exact IH | reflexivity].
Qed.

Lemma random_rotation_live dim rng w g :
  nth_error (heap w) rng = Some g ->
  _random_rotation dim rng w
  = (rotation_of (fst (draw_normal g dim)),
     {| heap := set_cell rng (snd (draw_normal g dim)) (heap w) |}).
Proof.
  intros Hg. unfold _random_rotation, mbind, rng_normal.
  rewrite (with_generator_live _ _ _ _ _ Hg). unfold rotation_of.
  destruct (draw_normal g dim) as [A g']. cbn [fst snd].
  now destruct (linalg_qr A).
Qed.

Lemma rotation_trials_draws n rng X labels samples w g :
  nth_error (heap w) rng = Some g ->
  fst (rotation_trials n rng X labels samples w)
  = collect
      (map (fun R => _metric_snapshot (map (map fabs) (matmul X R)) labels)
           (fst (rotation_draws n g (length (hd [] X)))))
      samples.
Proof.
  revert samples w g.
  induction n as [| k IH]; intros samples w g Hg.
  - reflexivity.
  - cbn [rotation_trials rotation_draws]. unfold mbind.
    rewrite (random_rotation_live _ _ _ _ Hg).
    destruct (draw_normal g (length (hd [] X))) as [A g'] eqn:Hd. cbn [fst snd].
    assert (Hlt : (rng < length (heap w))%nat)
      by (apply nth_error_Some; congruence).
    specialize (IH (match _metric_snapshot
                            (map (map fabs) (matmul X (rotation_of A))) labels with
                    | Ok metrics => record_metrics metrics samples
                    | Raise _ => samples
                    end)
                   {| heap := set_cell rng g' (heap w) |} g'
                   (nth_error_set_cell _ _ _ Hlt)).
    destruct (rotation_draws k g' (length (hd [] X))) as [Rs g''].
    cbn [fst snd map collect] in *.
    destruct (_metric_snapshot (map (map fabs) (matmul X (rotation_of A))) labels)
      as [metrics | e]; [exact IH | reflexivity].
Qed.

(** The generator a run allocates is live and freshly seeded. *)
Lemma default_rng_fresh seed w :
  nth_error (heap (snd (default_rng seed w))) (fst (default_rng seed w))
  = Some (seed_bitgen seed).
Proof.
  unfold default_rng. cbn [fst snd heap].
  rewrite nth_error_app2, Nat.sub_diag by lia. reflexivity.
Qed.

(** Whatever generators the process already holds, a permutation run
    returns the summary determined by its arguments. *)
Lemma run_permutation_nulls_summary agg_df n_min prime_metric n_perm random_state w :
  fst (run_permutation_nulls agg_df n_min prime_metric n_perm random_state w)
  = permutation_null_summary agg_df n_min prime_metric n_perm random_state.
Proof.
  unfold run_permutation_nulls, permutation_null_summary.
  destruct (prepare_working_set agg_df n_min prime_metric)
    as [[[working X] labels] | e]; [| reflexivity].
  destruct (length labels =? 0)%nat; [reflexivity |].
  unfold mbind.
  pose proof (default_rng_fresh random_state w) as Hfresh.
  destruct (default_rng random_state w) as [rng w'] eqn:Hrng.
  cbn [fst snd] in Hfresh.
  unfold summary_of.
  destruct (_metric_snapshot X labels) as [real_metrics | e]; [| reflexivity].
  cbn [bind].
  rewrite <- (permutation_trials_draws _ _ _ _ _ _ _ Hfresh).
  now destruct (permutation_trials _ _ _ _ _ _).
Qed.

Lemma run_rotation_nulls_summary agg_df n_min prime_metric n_rotations random_state w :
  fst (run_rotation_nulls agg_df n_min prime_metric n_rotations random_state w)
  = rotation_null_summary agg_df n_min prime_metric n_rotations random_state.
Proof.
  unfold run_rotation_nulls, rotation_null_summary.
  destruct (n_rotations <=? 0)%Z; [reflexivity |].
  destruct (prepare_working_set agg_df n_min prime_metric)
    as [[[working X] labels] | e]; [| reflexivity].
  destruct (length labels =? 0)%nat; [reflexivity |].
  unfold mbind.
  pose proof (default_rng_fresh random_state w) as Hfresh.
  destruct (default_rng random_state w) as [rng w'] eqn:Hrng.
  cbn [fst snd] in Hfresh.
  unfold summary_of.
  destruct (_metric_snapshot X labels) as [real_metrics | e]; [| reflexivity].
  cbn [bind].
  rewrite <- (rotation_trials_draws _ _ _ _ _ _ _ Hfresh).
  now destruct (rotation_trials _ _ _ _ _ _).
Qed.

(** C7.  Two sequential runs of the permutation null engine with identical
    arguments, the second in the process state the first one left, return
    identical summaries, and likewise for the rotation null engine: the
    summary is the function of the table, [n_min], the prime metric, the
    trial count and the seed obtained from the draws of the generator seeded
    by [random_state]. *)
Theorem null_runs_reproducible :
  forall (agg_df : list AggRow) (n_min : Z) (prime_metric : string)
         (n_trials : Z) (random_state : Z) (w : World),
  (let run := run_permutation_nulls agg_df n_min prime_metric n_trials random_state in
   fst (run (snd (run w))) = fst (run w)
   /\ fst (run w)
      = permutation_null_summary agg_df n_min prime_metric n_trials random_state)
  /\ (let run := run_rotation_nulls agg_df n_min prime_metric n_trials random_state in
      fst (run (snd (run w))) = fst (run w)
      /\ fst (run w)
         = rotation_null_summary agg_df n_min prime_metric n_trials random_state).
Proof.
  intros. split; cbv zeta.
  - rewrite !run_permutation_nulls_summary. split; reflexivity.
  - rewrite !run_rotation_nulls_summary. split; reflexivity.
Qed.

End ResamplingFacts.

(** ** An undefined real statistic in the null models *)

Section UndefinedStatistic.

Import Spec TopologyEngine Analysis NullModels Lib Examples.

Context `{L : Libraries}.

Lemma append_sample_keys key value samples :
  map fst (append_sample key value samples) = map fst samples.
Proof.
  unfold append_sample. rewrite map_map. apply map_ext.
  intros [k l]. cbn [fst snd]. now destruct (String.eqb k key).
Qed.

Lemma record_metrics_keys metrics samples :
  map fst (record_metrics metrics samples) = map fst samples.
Proof.
  unfold record_metrics. revert samples.
  induction metrics as [| kv metrics IH]; intros samples; simpl; trivial.
  now rewrite IH, append_sample_keys.
Qed.

Lemma collect_keys snapshots samples out :
  collect snapshots samples = Ok out -> map fst out = map fst samples.
Proof.
  revert samples.
  induction snapshots as [| [m | e] snapshots IH]; intros samples E; simpl in E.
  - now injection E as <-.
  - rewrite (IH _ E). apply record_metrics_keys.
  - discriminate.
Qed.

(** The entry of a statistic whose real value is [None] cannot be built. *)
Lemma summarize_key_none real_metrics key samples :
  dict_lookup real_metrics key = None ->
  raises (summarize_key real_metrics key samples) = true.
Proof.
  intros Hnone. unfold summarize_key. rewrite Hnone.
  destruct (np_nanmean samples); [| reflexivity].
  destruct (np_nanstd1 samples); reflexivity.
Qed.

Lemma summarize_raises real_metrics samples key :
  In key (map fst samples) ->
  dict_lookup real_metrics key = None ->
  raises (summarize real_metrics samples) = true.
Proof.
  intros Hin Hnone.
  induction samples as [| [k l] samples IH]; [destruct Hin |].
  cbn [summarize].
  destruct Hin as [E | Hin].
  - cbn [fst] in E. subst k.
    pose proof (summarize_key_none real_metrics key l Hnone) as Hr.
    destruct (summarize_key real_metrics key l); [discriminate | reflexivity].
  - destruct (summarize_key real_metrics k l); [| reflexivity].
    cbn [bind]. specialize (IH Hin).
    destruct (summarize real_metrics samples); [discriminate | reflexivity].
Qed.

Lemma snapshot_classifier_accuracy X labels res :
  evaluate_classifier X labels 0 = Ok res ->
  exists metrics,
    _metric_snapshot X labels = Ok metrics
    /\ map fst metrics
       = ["delta_e2_p_vs_df"; "delta_e5_df_vs_sp"; "delta_e7_df_vs_sp";
          "classifier_accuracy"]%string
    /\ dict_lookup metrics "classifier_accuracy" = accuracy res.
Proof.
  intros E. unfold _metric_snapshot. rewrite E. cbn [bind].
  eexists. split; [reflexivity |]. split; reflexivity.
Qed.

Lemma summary_of_skipped_classifier X labels snapshots n_trials res :
  evaluate_classifier X labels 0 = Ok res ->
  accuracy res = None ->
  raises (summary_of X labels snapshots n_trials) = true.
Proof.
  intros E Hacc. unfold summary_of.
  destruct (snapshot_classifier_accuracy X labels res E)
    as (metrics & -> & Hkeys & Hlook).
  cbn [bind].
  destruct (collect snapshots (map (fun kv => (fst kv, [])) metrics))
    as [samples | e] eqn:Hc; [| reflexivity].
  cbn [bind].
  assert (Hr : raises (summarize metrics samples) = true).
  { apply summarize_raises with (key := "classifier_accuracy"%string).
    - rewrite (collect_keys _ _ _ Hc), map_map. cbn [fst].
      change (map (fun x : string * option float => fst x) metrics)
        with (map fst metrics).
      rewrite Hkeys. simpl. tauto.
    - now rewrite Hlook. }
  destruct (summarize metrics samples); [discriminate | reflexivity].
Qed.

(** C6, at the failing input.  With the real statistic [None], which is the
    classifier accuracy of a working set with a single class or fewer than
    three samples, the p-value and the z-score raise [TypeError]; and on a
    table whose elements all belong to one block, and on one with two
    elements only, a permutation null run raises instead of returning a
    summary, for every trial count and whatever the library routines
    return. *)
Theorem null_models_raise_on_undefined_statistic :
  forall (samples : list (option float)) (n_perm random_state : Z) (w : World),
  _empirical_p None samples
  = Raise (TypeError "ufunc 'isnan' not supported for the input types")
  /\ _z_score None samples
     = Raise (TypeError "ufunc 'isnan' not supported for the input types")
  /\ raises (fst (run_permutation_nulls table_single_class 1 "mean"
                    n_perm random_state w)) = true
  /\ raises (fst (run_permutation_nulls table_two_elements 1 "mean"
                    n_perm random_state w)) = true.
Proof.
  intros samples n_perm random_state w.
  split; [reflexivity |]. split; [reflexivity |].
  rewrite !run_permutation_nulls_summary.
  split; eapply summary_of_skipped_classifier; reflexivity.
Qed.

End UndefinedStatistic.

(** ** Per-element aggregation *)

Section Aggregation.

Import Spec TopologyEngine Data Lib Examples.

Context `{L : Libraries}.

Lemma in_dropna_text col s : In s (dropna_text col) <-> In (Some s) col.
Proof.
  unfold dropna_text. rewrite in_flat_map. split.
  - intros ([x |] & Hin & Hs); [| destruct Hs].
    destruct Hs as [<- | []]. exact Hin.
  - intros Hin. exists (Some s). split; [exact Hin | now left].
Qed.

Lemma in_unique x l : In x (unique l) <-> In x l.
Proof.
  induction l as [| y l IH]; simpl; [tauto |].
  rewrite filter_In, IH, negb_true_iff, String.eqb_neq.
  destruct (string_dec y x) as [-> | Hne]; tauto.
Qed.

Lemma unique_constant l b :
  l <> [] -> (forall x, In x l -> x = b) -> unique l = [b].
Proof.
  intros Hne Hall. induction l as [| y l IH]; [congruence |]. simpl.
  assert (y = b) by (apply Hall; now left). subst y. f_equal.
  destruct l as [| z l]; [reflexivity |].
  rewrite IH; [| discriminate | intros x Hx; apply Hall; now right].
  simpl. now rewrite String.eqb_refl.
Qed.

Lemma unique_two l a b c : In a l -> In b l -> a <> b -> unique l <> [c].
Proof.
  intros Ha Hb Hne E.
  apply in_unique in Ha. apply in_unique in Hb. rewrite E in Ha, Hb.
  destruct Ha as [<- | []], Hb as [<- | []]. congruence.
Qed.

Lemma in_insert_key x k keys : In x (insert_key k keys) <-> x = k \/ In x keys.
Proof.
  induction keys as [| y keys IH]; simpl; [intuition |].
  destruct (String.eqb_spec k y) as [-> | Hne]; simpl; [intuition |].
  destruct (String.ltb k y); simpl; rewrite ?IH; intuition.
Qed.

Lemma in_group_keys x col : In x (group_keys col) <-> In x col.
Proof.
  unfold group_keys. induction col as [| y col IH]; simpl; [tauto |].
  rewrite in_insert_key, IH. intuition.
Qed.

Lemma has_element_spec k r : has_element k r = true <-> m_carrier_element r = Some k.
Proof.
  unfold has_element. destruct (m_carrier_element r) as [e |]; [| split; discriminate].
  rewrite String.eqb_eq. split; congruence.
Qed.

(** The groups: one per carrier element that occurs, holding its rows. *)
Lemma in_groupby rows k group :
  In (k, group) (groupby rows) <->
  (exists r, In r rows /\ m_carrier_element r = Some k)
  /\ group = filter (has_element k) rows.
Proof.
  unfold groupby. rewrite in_map_iff. split.
  - intros (k' & E & Hk). injection E as -> <-.
    apply in_group_keys, in_dropna_text, in_map_iff in Hk.
    destruct Hk as (r & Hr & Hin). split; [exists r; auto | reflexivity].
  - intros ((r & Hin & Hr) & ->). exists k. split; [reflexivity |].
    apply in_group_keys, in_dropna_text, in_map_iff. exists r. auto.
Qed.

Lemma filtered_notna df r :
  In r (filter_included_rows df) ->
  exists e b, m_carrier_element r = Some e /\ carrier_block r = Some b.
Proof.
  unfold filter_included_rows. rewrite filter_In. intros (_ & H).
  apply andb_true_iff in H. destruct H as (H & Hb).
  apply andb_true_iff in H. destruct H as (_ & He).
  destruct (m_carrier_element r) as [e |]; [| discriminate].
  destruct (carrier_block r) as [b |]; [| discriminate].
  now exists e, b.
Qed.

(** A group with a single block label yields its record. *)
Lemma element_record_unique k group b :
  group <> [] ->
  (forall r, In r group -> carrier_block r = Some b) ->
  exists rec ws, element_record k group = Ok (rec, ws)
    /\ rec_element rec = k /\ rec_block rec = b.
Proof.
  intros Hne Hall. unfold element_record.
  assert (E : unique (dropna_text (map carrier_block group)) = [b]).
  { apply unique_constant.
    - destruct group as [| r group]; [congruence |].
      simpl. rewrite (Hall r (or_introl eq_refl)). discriminate.
    - intros x Hx. apply in_dropna_text, in_map_iff in Hx.
      destruct Hx as (r & Hr & Hin). rewrite (Hall r Hin) in Hr. congruence. }
  rewrite E. eexists. eexists. split; [reflexivity |]. split; reflexivity.
Qed.

(** A group with two block labels is rejected. *)
Lemma element_record_conflict k group r1 r2 b1 b2 :
  In r1 group -> In r2 group ->
  carrier_block r1 = Some b1 -> carrier_block r2 = Some b2 -> b1 <> b2 ->
  raises (element_record k group) = true.
Proof.
  intros H1 H2 E1 E2 Hne. unfold element_record.
  assert (Hb1 : In b1 (dropna_text (map carrier_block group)))
    by (apply in_dropna_text, in_map_iff; exists r1; auto).
  assert (Hb2 : In b2 (dropna_text (map carrier_block group)))
    by (apply in_dropna_text, in_map_iff; exists r2; auto).
  destruct (unique (dropna_text (map carrier_block group))) as [| c [| c' l]] eqn:E;
    try reflexivity.
  exfalso. exact (unique_two _ _ _ c Hb1 Hb2 Hne E).
Qed.

Lemma aggregate_groups_raises groups k group :
  In (k, group) groups ->
  raises (element_record k group) = true ->
  raises (aggregate_groups groups) = true.
Proof.
  intros Hin Hr. induction groups as [| [k' g'] groups IH]; [destruct Hin |].
  cbn [aggregate_groups].
  destruct Hin as [E | Hin].
  - injection E as -> ->. destruct (element_record k group); [discriminate | reflexivity].
  - destruct (element_record k' g'); [| reflexivity]. cbn [bind].
    specialize (IH Hin). destruct (aggregate_groups groups); [discriminate | reflexivity].
Qed.

Lemma aggregate_groups_ok groups :
  (forall k group, In (k, group) groups ->
     exists rec ws, element_record k group = Ok (rec, ws)) ->
  exists table warnings,
    aggregate_groups groups = Ok (table, warnings)
    /\ (forall rec, In rec table ->
          exists k group ws, In (k, group) groups
            /\ element_record k group = Ok (rec, ws))
    /\ (forall k group, In (k, group) groups ->
          exists rec ws, In rec table /\ element_record k group = Ok (rec, ws)).
Proof.
  induction groups as [| [k g] groups IH]; intros Hall.
  - exists [], []. split; [reflexivity |]. split; [intros rec [] | intros k g []].
  - destruct (Hall k g (or_introl eq_refl)) as (rec & ws & E).
    destruct IH as (table & warnings & Hagg & Hfrom & Hto);
      [intros k' g' Hin; apply Hall; now right |].
    exists (rec :: table), (ws ++ warnings)%list.
    cbn [aggregate_groups]. rewrite E. cbn [bind]. rewrite Hagg. cbn [bind fst snd].
    split; [reflexivity |]. split.
    + intros rec' [<- | Hin].
      * exists k, g, ws. split; [now left | exact E].
      * destruct (Hfrom rec' Hin) as (k' & g' & ws' & Hin' & E').
        exists k', g', ws'. split; [now right | exact E'].
    + intros k' g' [Ekg | Hin].
      * injection Ekg as <- <-. exists rec, ws. split; [now left | exact E].
      * destruct (Hto k' g' Hin) as (rec' & ws' & Hin' & E').
        exists rec', ws'. split; [now right | exact E'].
Qed.

End Aggregation.

Section AggregationClaim.

Import Spec TopologyEngine Data Lib Examples.

Context `{L : Libraries}.

Lemma aggregate_nonempty df :
  filter_included_rows df <> [] ->
  aggregate_element_table df = aggregate_groups (groupby (filter_included_rows df)).
Proof.
  unfold aggregate_element_table.
  destruct (filter_included_rows df); [congruence | reflexivity].
Qed.

(** The group of a carrier element under unique block labels. *)
Lemma group_record df k group :
  blocks_unique (filter_included_rows df) ->
  In (k, group) (groupby (filter_included_rows df)) ->
  exists b rec ws,
    element_record k group = Ok (rec, ws)
    /\ rec_element rec = k /\ rec_block rec = b
    /\ (forall r, In r (filter_included_rows df) ->
          m_carrier_element r = Some k -> carrier_block r = Some b).
Proof.
  intros Huniq Hin. apply in_groupby in Hin.
  destruct Hin as ((r0 & Hr0 & Hk0) & ->).
  destruct (filtered_notna df r0 Hr0) as (e0 & b & He0 & Hb0).
  assert (Hblock : forall r, In r (filter_included_rows df) ->
                     m_carrier_element r = Some k -> carrier_block r = Some b).
  { intros r Hr Hk. rewrite <- Hb0. apply Huniq; trivial. congruence. }
  destruct (element_record_unique k (filter (has_element k) (filter_included_rows df)) b)
    as (rec & ws & E & Hel & Hbl).
  - intros Hnil.
    assert (H0 : In r0 (filter (has_element k) (filter_included_rows df)))
      by (apply filter_In; split; [exact Hr0 | now apply has_element_spec]).
    rewrite Hnil in H0. destruct H0.
  - intros r Hr. apply filter_In in Hr. destruct Hr as (Hr & Hk).
    apply Hblock; trivial. now apply has_element_spec.
  - exists b, rec, ws. auto.
Qed.

(** C9, as the code has it.  Per-element aggregation fails with an error
    whenever some carrier element has more than one distinct block label
    among its included materials, and also when no material is included;
    when at least one material is included and every carrier element has
    exactly one distinct block label, it succeeds with one row per carrier
    element, each carrying the block label of that element's materials. *)
Theorem aggregation_block_uniqueness :
  forall df : list MaterialRow,
  let filtered := filter_included_rows df in
  (block_conflict filtered -> raises (aggregate_element_table df) = true)
  /\ (filtered = [] -> raises (aggregate_element_table df) = true)
  /\ (filtered <> [] -> blocks_unique filtered ->
      exists table warnings,
        aggregate_element_table df = Ok (table, warnings)
        /\ (forall rec r, In rec table -> In r filtered ->
              m_carrier_element r = Some (rec_element rec) ->
              carrier_block r = Some (rec_block rec))
        /\ (forall r, In r filtered ->
              exists rec, In rec table
                /\ m_carrier_element r = Some (rec_element rec))).
Proof.
  intros df filtered. split; [| split].
  - intros (r1 & r2 & H1 & H2 & Hel & Hbl).
    destruct (filtered_notna df r1 H1) as (e & b1 & He1 & Hb1).
    destruct (filtered_notna df r2 H2) as (e2 & b2 & He2 & Hb2).
    assert (Hne : filtered <> []) by (intros E; rewrite E in H1; destruct H1).
    rewrite (aggregate_nonempty df Hne).
    apply aggregate_groups_raises
      with (k := e) (group := filter (has_element e) filtered).
    + apply in_groupby. split; [exists r1; auto | reflexivity].
    + apply element_record_conflict with (r1 := r1) (r2 := r2) (b1 := b1) (b2 := b2);
        trivial.
      * apply filter_In. split; [exact H1 | now apply has_element_spec].
      * apply filter_In. split; [exact H2 |]. apply has_element_spec. congruence.
      * congruence.
  - intros E. unfold aggregate_element_table. fold filtered. now rewrite E.
  - intros Hne Huniq. rewrite (aggregate_nonempty df Hne). fold filtered.
    destruct (aggregate_groups_ok (groupby filtered)) as (table & warnings & Hagg & Hfrom & Hto).
    { intros k group Hin.
      destruct (group_record df k group Huniq Hin) as (b & rec & ws & E & _).
      now exists rec, ws. }
    exists table, warnings. split; [exact Hagg |]. split.
    + intros rec r Hrec Hr Hel.
      destruct (Hfrom rec Hrec) as (k & group & ws & Hin & E).
      destruct (group_record df k group Huniq Hin)
        as (b & rec' & ws' & E' & Hk & Hb & Hblock).
      rewrite E in E'. injection E' as <- <-.
      rewrite Hb. apply Hblock; trivial. now rewrite <- Hk.
    + intros r Hr.
      destruct (filtered_notna df r Hr) as (e & b & He & Hb).
      assert (Hin : In (e, filter (has_element e) filtered) (groupby filtered))
        by (apply in_groupby; split; [exists r; auto | reflexivity]).
      destruct (Hto _ _ Hin) as (rec & ws & Hrec & E).
      destruct (group_record df _ _ Huniq Hin) as (b' & rec' & ws' & E' & Hk & _).
      rewrite E in E'. injection E' as <- <-.
      exists rec. split; [exact Hrec | now rewrite Hk].
Qed.

End AggregationClaim.

Section AggregationRuns.

Import Spec TopologyEngine Data Lib Examples.

(** No included material: no carrier element has two block labels, and the
    aggregation fails all the same. *)
Lemma aggregation_fails_on_empty_selection :
  filter_included_rows materials_excluded = []
  /\ blocks_unique (filter_included_rows materials_excluded)
  /\ ~ block_conflict (filter_included_rows materials_excluded)
  /\ @aggregate_element_table toy_libraries materials_excluded
     = Raise (ValueError
                "No rows satisfy include_study04 == 1 with valid carriers."%string).
Proof.
  split; [reflexivity |]. split; [intros r1 r2 [] |].
  split; [intros (r1 & r2 & [] & _) | reflexivity].
Qed.

Lemma aggregation_block_uniqueness_witness :
  raises (@aggregate_element_table toy_libraries materials_conflict) = true
  /\ raises (@aggregate_element_table toy_libraries materials_excluded) = true
  /\ exists table warnings,
       @aggregate_element_table toy_libraries materials_ok = Ok (table, warnings)
       /\ (forall rec r, In rec table -> In r (filter_included_rows materials_ok) ->
             m_carrier_element r = Some (rec_element rec) ->
             carrier_block r = Some (rec_block rec))
       /\ (forall r, In r (filter_included_rows materials_ok) ->
             exists rec, In rec table
               /\ m_carrier_element r = Some (rec_element rec)).
Proof.
  split; [| split].
  - destruct (@aggregation_block_uniqueness toy_libraries materials_conflict)
      as (H & _).
    apply H.
    exists (mkmaterial "Nb3Sn"%string 1 (Some "Nb"%string) (Some "d"%string)
              (Fin 1) (Fin 2) (Fin 3) (Fin 4)),
           (mkmaterial "NbTi"%string 1 (Some "Nb"%string) (Some "p"%string)
              (Fin 3) (Fin 3) (Fin 1) (Fin 1)).
    split; [left; reflexivity |]. split; [right; left; reflexivity |].
    split; [reflexivity | discriminate].
  - destruct (@aggregation_block_uniqueness toy_libraries materials_excluded)
      as (_ & H & _).
    apply H. reflexivity.
  - destruct (@aggregation_block_uniqueness toy_libraries materials_ok)
      as (_ & _ & H).
    apply H; [discriminate |].
    intros r1 r2 H1 H2.
    vm_compute in H1, H2.
    destruct H1 as [<- | [<- | [<- | []]]], H2 as [<- | [<- | [<- | []]]];
      intros E; try reflexivity; discriminate E.
Defined.

(** The table of the three included materials: carriers in sorted order. *)
Example aggregation_run :
  match @aggregate_element_table toy_libraries materials_ok with
  | Ok (table, warnings) =>
      map (fun rec => (rec_element rec, rec_block rec, rec_n_materials rec)) table
      = [("B", "p", 1%nat); ("Nb", "d", 2%nat)]%string
      /\ warnings = []
  | Raise _ => False
  end.
Proof. vm_compute. split; reflexivity. Qed.

End AggregationRuns.

(** ** The catalog loader *)

Section CatalogLoading.

Import Spec Props TopologyEngine CatalogLoader.





Lemma load_entry_complete entry :
  first_missing_key entry = None -> exists topo, load_entry entry = Loaded topo.
Proof.
  unfold first_missing_key, load_entry.
  destruct (entry_w2 entry); [| discriminate].
  destruct (entry_w3 entry); [| discriminate].
  destruct (entry_w5 entry); [| discriminate].
  destruct (entry_w7 entry); [| discriminate].
  destruct (entry_topology_id entry); [| discriminate].
  intros _. cbn [subscript and_then]. eexists. reflexivity.
Qed.

Lemma load_entry_incomplete entry key :
  first_missing_key entry = Some key -> load_entry entry = KeyError key.
Proof.
  unfold first_missing_key, load_entry.
  destruct (entry_w2 entry); [| intros E; injection E as <-; reflexivity].
  destruct (entry_w3 entry); [| intros E; injection E as <-; reflexivity].
  destruct (entry_w5 entry); [| intros E; injection E as <-; reflexivity].
  destruct (entry_w7 entry); [| intros E; injection E as <-; reflexivity].
  destruct (entry_topology_id entry); [discriminate |].
  intros E; injection E as <-; reflexivity.
Qed.


(** X2.  Loading fails with [KeyError] at the first entry that lacks a
    weight or its identifier, naming the first key that entry lacks in the
    order w2, w3, w5, w7, topology_id; entries after it are not looked at. *)
Theorem load_catalog_key_error :
  forall (pre post : list CatalogEntry) (entry : CatalogEntry) (key : string),
  Forall (fun e => first_missing_key e = None) pre ->
  first_missing_key entry = Some key ->
  load_topology_catalog (pre ++ entry :: post) = KeyError key.
Proof.
  intros pre post entry key Hpre Hkey.
  induction Hpre as [| e pre He _ IH]; cbn [app load_topology_catalog].
  - now rewrite (load_entry_incomplete entry key Hkey).
  - destruct (load_entry_complete e He) as (topo & ->). cbn [and_then].
    now rewrite IH.
Qed.

End CatalogLoading.

Section CatalogLoadingRuns.

Import Spec Props TopologyEngine CatalogLoader Cases.


Lemma load_catalog_key_error_witness :
  load_topology_catalog ([entry_ring] ++ entry_broken :: [entry_flat])
  = KeyError "w5"%string.
Proof.
  apply load_catalog_key_error.
  - repeat constructor.
  - reflexivity.
Defined.

End CatalogLoadingRuns.


(** ** The best records of the simple engine *)

Section BestRecordFields.

Import Spec Props TopologyEngine.

(** The four reported fields of a best record, from the two loops. *)
Lemma row_best_fields lambda_noise use_noise st catalog row :
  let terms := row_terms lambda_noise use_noise st row in
  let rec := row_best lambda_noise use_noise st catalog row in
  let kept_total := fold_left (keep_first_min (fun t => snd (terms t))) catalog None in
  let kept_e := fold_left (keep_first_min (fun t => fst (fst (terms t)))) catalog None in
  best_topology rec = option_map topology_id kept_total
  /\ C_total_min rec = option_map (fun t => snd (terms t)) kept_total
  /\ best_topology_e_only rec = option_map topology_id kept_e
  /\ C_e_min rec = option_map (fun t => fst (fst (terms t))) kept_e.
Proof.
  intros terms rec kept_total kept_e. subst rec. unfold row_best, row_loop.
  cbn [best_topology C_total_min best_topology_e_only C_e_min].
  destruct (catalog_loop_fields lambda_noise use_noise row (row_Q_lock st row)
              (row_xi_norm st row) (normalize_primes row) catalog
              {| records := []; best_e := None; best_tot := None |})
    as (Ht & He & _).
  rewrite Ht, He. cbn [best_tot best_e].
  change (@None (string * float))
    with (option_map (fun t => (topology_id t, snd (terms t))) None) at 1 2.
  rewrite !(fold_keep_best (fun t => snd (terms t))).
  change (@None (string * float))
    with (option_map (fun t => (topology_id t, fst (fst (terms t)))) None).
  rewrite !(fold_keep_best (fun t => fst (fst (terms t)))).
  fold kept_total kept_e.
  destruct kept_total, kept_e; repeat split.
Qed.

End BestRecordFields.

(** ** Further facts on the simple engine *)

Section SimpleEngineFacts.

Import Spec Props TopologyEngine.

Lemma Qsum_squares_zero ds :
  Qsum (map (fun d => d * d) ds) == 0 <-> Forall (fun d => d == 0) ds.
Proof.
  induction ds as [| d ds IH]; simpl.
  - split; [constructor | reflexivity].
  - rewrite Qsum_cons. pose proof (Qsum_squares_nonneg ds) as Hds.
    assert (Hd : 0 <= d * d) by nra.
    split.
    + intros E. assert (E1 : d * d == 0) by lra.
      assert (E2 : Qsum (map (fun d => d * d) ds) == 0) by lra.
      constructor; [| now apply IH].
      destruct (Qmult_integral _ _ E1); assumption.
    + intros H. inversion H as [| ? ? Hd0 Hds0]; subst.
      apply IH in Hds0. rewrite Hds0, Hd0. reflexivity.
Qed.

Lemma differences_zero vs ws :
  length vs = length ws ->
  (Forall (fun d => d == 0) (map (fun p => fst p + - snd p) (combine vs ws))
   <-> Forall2 Qeq vs ws).
Proof.
  revert ws. induction vs as [| v vs IH]; intros [| w ws] Hlen; simpl in *;
    try discriminate.
  - split; constructor.
  - injection Hlen as Hlen. split; intros H; inversion H; subst;
      constructor; try (now apply (IH ws Hlen)); lra.
Qed.

Lemma Forall2_same_Fin vs ws : Forall2 same (map Fin vs) (map Fin ws) <-> Forall2 Qeq vs ws.
Proof.
  revert ws. induction vs as [| v vs IH]; intros [| w ws]; simpl;
    split; intros H; inversion H; subst; constructor; trivial;
    now apply IH.
Qed.

(** X4.  The fingerprint cost of a vector of numbers of moderate magnitude
    against a topology with as many weights of moderate magnitude is a
    non-negative number, and it is zero when the vector coincides with the
    weights. *)
Theorem compute_ce_zero_on_match :
  forall (vec : list float) (topo : Topology),
  Forall moderate vec -> Forall moderate (w topo) ->
  length vec = length (w topo) ->
  exists q,
    compute_ce vec topo = Fin q
    /\ 0 <= q
    /\ (Forall2 same vec (w topo) -> q == 0).
Proof.
  intros vec topo Hv Hw Hlen.
  assert (Hv' : Forall finite vec)
    by (eapply Forall_impl; [| exact Hv]; intros x (q & -> & _); now exists q).
  assert (Hw' : Forall finite (w topo))
    by (eapply Forall_impl; [| exact Hw]; intros x (q & -> & _); now exists q).
  destruct (finite_list _ Hv') as [vs ->]. destruct (finite_list _ Hw') as [ws Hws].
  unfold compute_ce. rewrite Hws in *. rewrite vsub_Fin, norm_sq_Fin.
  eexists. split; [reflexivity |]. split; [apply Qsum_squares_nonneg |].
  intros Hsame.
  apply Qsum_squares_zero, differences_zero, Forall2_same_Fin; trivial.
  now rewrite !length_map in Hlen.
Qed.

Lemma score_records_of_row lambda_noise use_noise st catalog row :
  records (row_loop lambda_noise use_noise st catalog row)
  = map (fun t =>
           let terms := row_terms lambda_noise use_noise st row t in
           {| sc_carrier_element := carrier_element row;
              sc_topology_id := topology_id t;
              C_e := fst (fst terms);
              C_xi := snd (fst terms);
              C_total := snd terms;
              sc_Q_lock := row_Q_lock st row;
              sc_xi_norm := row_xi_norm st row |}) catalog.
Proof.
  unfold row_loop.
  destruct (catalog_loop_fields lambda_noise use_noise row (row_Q_lock st row)
              (row_xi_norm st row) (normalize_primes row) catalog
              {| records := []; best_e := None; best_tot := None |})
    as (_ & _ & Hr).
  rewrite Hr. reflexivity.
Qed.

(** X5.  With the noise term disabled, as the fingerprint-only run calls
    the engine, every score record has [C_xi = 0] and [C_total = C_e], every
    best-assignment record reports the same topology and the same minimal
    cost under both headings, and [lambda_noise] has no influence on either
    table. *)
Theorem no_noise_fingerprint_only :
  forall carrier_df catalog lambda_noise lambda_noise',
  let res := aggregate_costs carrier_df catalog lambda_noise false in
  (forall rec, In rec (fst res) -> C_xi rec = Fin 0 /\ C_total rec = C_e rec)
  /\ (forall best, In best (snd res) ->
        best_topology best = best_topology_e_only best
        /\ C_total_min best = C_e_min best)
  /\ res = aggregate_costs carrier_df catalog lambda_noise' false.
Proof.
  intros carrier_df catalog lambda_noise lambda_noise' res. subst res.
  unfold aggregate_costs. cbn [fst snd]. split; [| split].
  - intros rec Hin. apply in_flat_map in Hin. destruct Hin as (row & _ & Hrec).
    rewrite score_records_of_row in Hrec. apply in_map_iff in Hrec.
    destruct Hrec as (t & <- & _). split; reflexivity.
  - intros best Hin. apply in_map_iff in Hin. destruct Hin as (row & <- & _).
    destruct (row_best_fields lambda_noise false (column_stats carrier_df) catalog row)
      as (Hb & Hc & Hbe & Hce).
    rewrite Hb, Hc, Hbe, Hce. split; reflexivity.
  - reflexivity.
Qed.

(** X6.  The score table holds one record per (row, topology) pair, row
    by row and in catalog order within a row, and the best-assignment table
    one record per row, in table order. *)
Theorem score_table_shape :
  forall carrier_df catalog lambda_noise use_noise,
  let res := aggregate_costs carrier_df catalog lambda_noise use_noise in
  map (fun rec => (sc_carrier_element rec, sc_topology_id rec)) (fst res)
  = flat_map (fun row => map (fun t => (carrier_element row, topology_id t)) catalog)
      carrier_df
  /\ length (fst res) = (length carrier_df * length catalog)%nat
  /\ map b_carrier_element (snd res) = map carrier_element carrier_df.
Proof.
  intros carrier_df catalog lambda_noise use_noise res. subst res.
  unfold aggregate_costs. cbn [fst snd].
  generalize (column_stats carrier_df). intros st.
  split; [| split].
  - induction carrier_df as [| row df IH]; simpl; trivial.
    rewrite map_app, IH, score_records_of_row, map_map. reflexivity.
  - induction carrier_df as [| row df IH]; simpl; trivial.
    rewrite length_app, IH, score_records_of_row, length_map. reflexivity.
  - rewrite map_map. reflexivity.
Qed.

End SimpleEngineFacts.

Section SimpleEngineFactsRuns.

Import Spec Props TopologyEngine Examples Cases.

Lemma compute_ce_zero_on_match_witness :
  exists q,
    compute_ce (normalize_primes row_Al) topo_U = Fin q
    /\ 0 <= q
    /\ (Forall2 same (normalize_primes row_Al) (w topo_U) -> q == 0).
Proof.
  apply compute_ce_zero_on_match.
  - repeat (apply Forall_cons || apply Forall_nil); range_num.
  - repeat (apply Forall_cons || apply Forall_nil); range_num.
  - reflexivity.
Defined.

End SimpleEngineFactsRuns.


(** ** Further facts on the resonant engine *)

Section AmplitudeFit.

Import Spec Props TopologyEngine ResonantEngine.

Lemma Qsquare_nonneg (d : Q) : 0 <= d * d.
Proof.
  destruct (Qlt_le_dec d 0).
  - setoid_replace (d * d) with ((- d) * (- d)) by ring.
    apply Qmult_le_0_compat; lra.
  - apply Qmult_le_0_compat; lra.
Qed.

Lemma observed_any e_obs :
  (exists q, In (Fin q) e_obs) ->
  existsb (fun m => m) (map (fun x => negb (isnan x)) e_obs) = true.
Proof.
  intros (q & Hq). apply existsb_exists. exists true. split; [| reflexivity].
  apply in_map_iff. exists (Fin q). split; [reflexivity | exact Hq].
Qed.

Lemma unobserved_none e_obs :
  (forall x, In x e_obs -> x = NaN) ->
  existsb (fun m => m) (map (fun x => negb (isnan x)) e_obs) = false.
Proof.
  intros Hall. induction e_obs as [| x e_obs IH]; [reflexivity |].
  cbn [map existsb]. rewrite (Hall x) by now left. cbn [isnan negb orb].
  apply IH. intros y Hy. apply Hall. now right.
Qed.

Lemma fold_fadd_null l a :
  Forall null l -> exists a', fold_left fadd l (Fin a) = Fin a' /\ a' == a.
Proof.
  intros Hl. revert a.
  induction Hl as [| x l (z & -> & Hz) _ IH]; intros a; cbn [fold_left].
  - exists a. split; reflexivity.
  - cbn [fadd]. destruct (IH (a + z)) as (a' & -> & Ha').
    exists a'. split; [reflexivity |]. rewrite Ha', Hz. ring.
Qed.

Lemma dot_null l : Forall null l -> null (dot l l).
Proof.
  intros Hl. unfold dot, np_sum.
  destruct (fold_fadd_null (vmap2 fmul l l) 0) as (a & -> & Ha).
  - unfold vmap2. induction Hl as [| x l (z & -> & Hz) _ IH]; cbn [combine map].
    + constructor.
    + constructor; [| exact IH]. cbn [fst snd fmul].
      exists (z * z). split; [reflexivity |]. rewrite Hz. ring.
  - exists a. split; [reflexivity | exact Ha].
Qed.

(** The weights at the observed positions. *)
Lemma select_null e_obs w :
  (forall i q, nth_error e_obs i = Some (Fin q) ->
               exists x, nth_error w i = Some x /\ null x) ->
  Forall finite_or_missing e_obs ->
  length w = length e_obs ->
  Forall null (select (map (fun x => negb (isnan x)) e_obs) w).
Proof.
  intros Hz He. revert w Hz.
  induction He as [| x e_obs Hx _ IH]; intros [| y w] Hz Hlen;
    simpl in Hlen; try discriminate; cbn [map select]; [constructor |].
  injection Hlen as Hlen.
  assert (Hrest : Forall null (select (map (fun x => negb (isnan x)) e_obs) w)).
  { apply IH; [| exact Hlen]. intros i q Hi. exact (Hz (S i) q Hi). }
  destruct Hx as [-> | [q ->]]; cbn [isnan negb]; [exact Hrest |].
  constructor; [| exact Hrest].
  destruct (Hz 0%nat q eq_refl) as (x & Hx & Hnull).
  now injection Hx as <-.
Qed.

(** X7.  [_fit_amplitude] on a fingerprint, a weight vector of the same
    length and a scale, all of moderate magnitude.  When no component is
    observed it returns the amplitude NaN, the cost +inf and a simulated
    vector of NaN.  When a component is observed it returns an amplitude
    that is a number, the simulated vector obtained by multiplying each
    weight by the amplitude, and a cost that is a non-negative number; the
    amplitude is 0 when the weight of every observed component is zero. *)
Theorem fit_amplitude_cases :
  forall (e_obs w : list float) (sigma_e : float),
  Forall moderate_or_missing e_obs -> Forall moderate w -> scale sigma_e ->
  length w = length e_obs ->
  ((forall x, In x e_obs -> x = NaN) ->
   _fit_amplitude e_obs w sigma_e = (NaN, PInf, map (fun _ => NaN) e_obs))
  /\ ((exists q, In (Fin q) e_obs) ->
      exists A ce,
        _fit_amplitude e_obs w sigma_e
        = (Fin A, Fin ce, map (fun x => (Fin A * x)%fl) w)
        /\ 0 <= ce
        /\ ((forall i q, nth_error e_obs i = Some (Fin q) ->
                         exists x, nth_error w i = Some x /\ null x) ->
            A == 0)).
Proof.
  intros e_obs w sigma_e He Hw Hs Hlen.
  assert (He' : Forall finite_or_missing e_obs).
  { eapply Forall_impl; [| exact He]. intros x Hx. now apply moderate_cell. }
  assert (Hw' : Forall finite w).
  { eapply Forall_impl; [| exact Hw]. intros x Hx. now apply moderate_finite. }
  split.
  - intros Hall. unfold _fit_amplitude. now rewrite (unobserved_none e_obs Hall).
  - intros Hany. pose proof (observed_any e_obs Hany) as Hmask.
    pose proof (fit_amplitude_nonneg e_obs w sigma_e He' Hmask Hw'
                  (scale_nonzero _ Hs)) as Hce.
    unfold _fit_amplitude in *. rewrite Hmask in *. cbn [negb fst snd] in *.
    set (mask := map (fun x => negb (isnan x)) e_obs) in *.
    assert (Hwm : Forall finite (select mask w)) by now apply select_finite.
    assert (Hem : Forall finite (select mask e_obs)) by now apply select_observed.
    destruct (dot_finite _ _ Hwm Hwm) as [d Hd].
    destruct (dot_finite _ _ Hem Hwm) as [n Hn].
    rewrite Hd, Hn in *.
    destruct Hce as (ce & Hce & Hpos).
    destruct (fleb (Fin d) (Fin 0)) eqn:Hle.
    + exists 0, ce. rewrite Hce. split; [reflexivity |]. split; [exact Hpos |].
      reflexivity.
    + apply fleb_Fin_false in Hle.
      rewrite fdiv_Fin_nonzero in * by lra.
      exists (n / d), ce. rewrite Hce. split; [reflexivity |].
      split; [exact Hpos |].
      intros Hz. exfalso.
      destruct (dot_null _ (select_null e_obs w Hz He' Hlen)) as (z & Ez & Hz0).
      fold mask in Ez. rewrite Hd in Ez. injection Ez as ->. lra.
Qed.

End AmplitudeFit.

Section UnobservedFingerprint.

Import Spec Props TopologyEngine ResonantEngine.

Lemma prime_vector_unobserved row :
  unobserved row -> _prime_vector row = [NaN; NaN; NaN; NaN].
Proof.
  intros H. unfold _prime_vector. cbn [map PRIME_COLUMNS].
  destruct (H E2) as [-> ->], (H E3) as [-> ->], (H E5) as [-> ->],
    (H E7) as [-> ->].
  reflexivity.
Qed.

(** The two side terms of a score are non-negative numbers. *)
Lemma score_side_terms params row topo :
  sound_params params ->
  finite_or_missing (N_median row) -> finite_or_missing (delta_N_median row) ->
  finite_or_missing (xi_ext_median row) ->
  nonneg (s_C_N (score params row topo)) /\ nonneg (s_C_xi (score params row topo)).
Proof.
  intros (Hse & HsN & Hsxi & HlN & Hlxi & Henv) HN Hd Hxi.
  unfold score.
  destruct (_fit_amplitude (_prime_vector row) (w topo) (sigma_e params))
    as [[A_T C_e] e_sim].
  cbn [s_C_N s_C_xi]. split.
  - unfold _n_sim. destruct HN as [-> | [n ->]]; cbn [isnan negb].
    + exists 0. split; [reflexivity | lra].
    + apply fsquare_div_nonneg; trivial.
      apply fsub_finite; [now eexists |].
      apply fmul_finite; [now eexists | apply N_SCALE_finite].
  - destruct Hxi as [-> | [x ->]]; cbn [isnan negb].
    + exists 0. split; [reflexivity | lra].
    + apply fsquare_div_nonneg; trivial.
      apply fsub_finite; [now eexists |].
      unfold _xi_sim. apply fadd_finite; trivial.
      apply fmul_finite; [| apply COMPLEXITY_finite].
      destruct (q_lock_unit _ Hd) as (q & -> & _). now eexists.
Qed.

Lemma score_total_sum params row topo :
  s_C_total (score params row topo)
  = (s_C_e (score params row topo)
     + lambda_N params * s_C_N (score params row topo)
     + lambda_xi params * s_C_xi (score params row topo))%fl.
Proof.
  unfold score.
  destruct (_fit_amplitude (_prime_vector row) (w topo) (sigma_e params))
    as [[A_T C_e] e_sim].
  reflexivity.
Qed.

Lemma score_unobserved params row topo :
  unobserved row -> sound_params params ->
  finite_or_missing (N_median row) -> finite_or_missing (delta_N_median row) ->
  finite_or_missing (xi_ext_median row) ->
  s_A_T (score params row topo) = NaN
  /\ s_C_e (score params row topo) = PInf
  /\ s_C_total (score params row topo) = PInf.
Proof.
  intros Hu Hp HN Hd Hxi.
  assert (Hfit : s_A_T (score params row topo) = NaN
                 /\ s_C_e (score params row topo) = PInf).
  { unfold score. rewrite (prime_vector_unobserved row Hu).
    unfold _fit_amplitude. cbn [map isnan negb existsb orb].
    split; reflexivity. }
  destruct Hfit as [HA Hce]. split; [exact HA |]. split; [exact Hce |].
  rewrite score_total_sum, Hce.
  destruct (score_side_terms params row topo Hp HN Hd Hxi)
    as [(cn & -> & _) (cx & -> & _)].
  destruct Hp as (_ & _ & _ & (ln & -> & _) & (lx & -> & _) & _).
  reflexivity.
Qed.

Lemma fold_keep_best_score_inf scores b :
  s_C_total b = PInf ->
  Forall (fun s => s_C_total s = PInf) scores ->
  fold_left keep_best_score scores (Some b) = Some b.
Proof.
  intros Hb Hs. induction Hs as [| s scores Hs _ IH]; simpl; trivial.
  rewrite Hs, Hb. exact IH.
Qed.

Lemma fold_py_max2_inf totals :
  Forall (fun t => t = PInf) totals -> fold_left py_max2 totals PInf = PInf.
Proof. induction 1 as [| t totals -> _ IH]; simpl; trivial. Qed.

(** X8.  For an element none of whose fingerprint components was
    measured, under hyperparameters and cells of moderate magnitude (scales
    neither tiny nor huge, weights non-negative, the other cells possibly
    missing): every topology gets the amplitude NaN and the costs
    [C_e = C_total = +inf]; the first topology of the catalog is therefore
    reported as the best one, and the confidence is NaN. *)
Theorem unobserved_fingerprint_scores :
  forall params catalog row,
  unobserved row -> moderate_params params -> moderate_cells row ->
  let res := infer_row params catalog row in
  Forall (fun s => s_A_T s = NaN /\ s_C_e s = PInf /\ s_C_total s = PInf) (fst res)
  /\ (forall t rest, catalog = t :: rest ->
        r_best (snd res) = Some (score params row t)
        /\ confidence (snd res) = NaN).
Proof.
  intros params catalog row Hu Hp (_ & _ & HN & Hd & Hxi) res. subst res.
  apply moderate_params_sound in Hp.
  apply moderate_cell in HN. apply moderate_cell in Hd. apply moderate_cell in Hxi.
  unfold infer_row. cbn [fst snd r_best confidence].
  assert (Hall : Forall (fun s => s_A_T s = NaN /\ s_C_e s = PInf /\ s_C_total s = PInf)
                   (map (score params row) catalog)).
  { apply Forall_map, Forall_forall. intros t _. now apply score_unobserved. }
  split; [exact Hall |].
  intros t rest ->. cbn [map fold_left keep_best_score] in *.
  inversion Hall as [| s l (_ & _ & Ht) Hrest]; subst.
  assert (Hinf : Forall (fun s => s_C_total s = PInf) (map (score params row) rest)).
  { eapply Forall_impl; [| exact Hrest]. now intros s (_ & _ & H). }
  rewrite (fold_keep_best_score_inf _ _ Ht Hinf).
  split; [reflexivity |].
  unfold confidence_of, py_max. cbn [option_map]. rewrite Ht.
  rewrite fold_py_max2_inf; [reflexivity |].
  apply Forall_map. eapply Forall_impl; [| exact Hinf]. now intros s H.
Qed.

End UnobservedFingerprint.

Section ElementFilter.

Import Spec Props TopologyEngine ResonantEngine.

Lemma infer_rows_elements params catalog l :
  map r_carrier_element (map (fun r => snd (infer_row params catalog r)) l)
  = map carrier_element l.
Proof. induction l as [| x l IH]; [reflexivity |]. cbn [map]. now rewrite IH. Qed.

Lemma infer_rows_scores params catalog l :
  length (flat_map (fun r => fst (infer_row params catalog r)) l)
  = (length l * length catalog)%nat.
Proof.
  induction l as [| x l IH]; [reflexivity |].
  cbn [flat_map]. rewrite length_app, IH. unfold infer_row. cbn [fst length].
  rewrite length_map. lia.
Qed.

(** X9.  [infer_topologies] treats an empty element set as no set at
    all; it raises [ValueError] exactly when no row is left to process, that
    is when the table is empty or no row's element belongs to a non-empty
    set; otherwise it returns one summary per processed row, in table
    order, each for an element of the set when one was given, and one score
    per processed row and topology. *)
Theorem infer_topologies_selection :
  forall carrier_df catalog params elements,
  infer_topologies carrier_df catalog params (Some [])
  = infer_topologies carrier_df catalog params None
  /\ (processed carrier_df elements = [] <->
      infer_topologies carrier_df catalog params elements
      = Raise (ValueError "No carriers to process after filtering; check --elements"))
  /\ (forall scores summary,
        infer_topologies carrier_df catalog params elements = Ok (scores, summary) ->
        map r_carrier_element summary
        = map carrier_element (processed carrier_df elements)
        /\ length scores
           = (length (processed carrier_df elements) * length catalog)%nat
        /\ (forall els, elements = Some els -> els <> [] ->
              Forall (fun b => In (r_carrier_element b) els) summary)).
Proof.
  intros carrier_df catalog params elements.
  split; [reflexivity |].
  rewrite infer_topologies_processed.
  split.
  - destruct (processed carrier_df elements); split; trivial; discriminate.
  - intros scores summary E.
    destruct (processed carrier_df elements) as [| r df] eqn:Ep; [discriminate |].
    assert (Es : scores
                 = flat_map (fun r => fst (infer_row params catalog r)) (r :: df))
      by congruence.
    assert (Eb : summary
                 = map (fun r => snd (infer_row params catalog r)) (r :: df))
      by congruence.
    clear E. subst scores summary.
    split; [| split].
    + apply infer_rows_elements.
    + apply infer_rows_scores.
    + intros els -> Hne. apply Forall_map, Forall_forall.
      intros x Hx. cbn [snd infer_row r_carrier_element].
      rewrite <- Ep in Hx. unfold processed in Hx.
      destruct els as [| e els]; [congruence |].
      apply filter_In in Hx. destruct Hx as [_ Hx].
      destruct (in_dec string_dec (carrier_element x) (e :: els)); [assumption | discriminate].
Qed.

End ElementFilter.

Section ResonantFactsRuns.

Import Spec Props TopologyEngine ResonantEngine Examples Cases.

Lemma fit_amplitude_cases_witness :
  _fit_amplitude [NaN; NaN] [Fin 1; Fin 5] (Fin (1 # 10))
  = (NaN, PInf, map (fun _ => NaN) [NaN; NaN])
  /\ exists A ce,
       _fit_amplitude [Fin 2; NaN; Fin 1; Fin 0] [Fin 1; Fin 5; Fin 1; Fin 0]
         (Fin (1 # 10))
       = (Fin A, Fin ce,
          map (fun x => (Fin A * x)%fl) [Fin 1; Fin 5; Fin 1; Fin 0])
       /\ 0 <= ce.
Proof.
  split.
  - apply (fit_amplitude_cases [NaN; NaN] [Fin 1; Fin 5] (Fin (1 # 10))).
    + repeat (apply Forall_cons || apply Forall_nil); range_cell.
    + repeat (apply Forall_cons || apply Forall_nil); range_num.
    + range_num.
    + reflexivity.
    + intros x [<- | [<- | []]]; reflexivity.
  - destruct (fit_amplitude_cases [Fin 2; NaN; Fin 1; Fin 0]
                [Fin 1; Fin 5; Fin 1; Fin 0] (Fin (1 # 10))) as [_ H].
    + repeat (apply Forall_cons || apply Forall_nil); range_cell.
    + repeat (apply Forall_cons || apply Forall_nil); range_num.
    + range_num.
    + reflexivity.
    + destruct H as (A & ce & E & Hce & _); [exists 2; now left |].
      exists A, ce. split; [exact E | exact Hce].
Defined.

Lemma unobserved_fingerprint_scores_witness :
  Forall (fun s => s_A_T s = NaN /\ s_C_e s = PInf /\ s_C_total s = PInf)
    (fst (infer_row default_params [topo_A; topo_B] row_missing))
  /\ (forall t rest, [topo_A; topo_B] = t :: rest ->
        r_best (snd (infer_row default_params [topo_A; topo_B] row_missing))
        = Some (score default_params row_missing t)
        /\ confidence (snd (infer_row default_params [topo_A; topo_B] row_missing))
           = NaN).
Proof.
  apply unobserved_fingerprint_scores.
  - intros []; split; reflexivity.
  - repeat split; range_num.
  - split; [intros []; range_cell |]. split; [intros []; range_cell |].
    split; [range_cell |]. split; range_cell.
Defined.

End ResonantFactsRuns.


(** ** Further facts on the block statistics *)

Section CliffsDeltaCounts.

Import Spec Props Analysis.

Lemma Qnat_succ n : Qnat (S n) == Qnat n + 1.
Proof.
  unfold Qnat. rewrite Nat2Z.inj_succ, <- Z.add_1_r, inject_Z_plus. reflexivity.
Qed.

Lemma Qnat_add n m : Qnat (n + m) == Qnat n + Qnat m.
Proof. unfold Qnat. rewrite Nat2Z.inj_add, inject_Z_plus. reflexivity. Qed.

Lemma Qnat_nonneg n : 0 <= Qnat n.
Proof.
  unfold Qnat. change 0 with (inject_Z 0). rewrite <- Zle_Qle. lia.
Qed.

Lemma Qnat_le n m : (n <= m)%nat -> Qnat n <= Qnat m.
Proof. intros H. unfold Qnat. rewrite <- Zle_Qle. lia. Qed.

Lemma filter_map_length {A B : Type} (p : B -> bool) (f : A -> B) l :
  length (filter p (map f l)) = length (filter (fun a => p (f a)) l).
Proof.
  induction l as [| a l IH]; simpl; trivial.
  destruct (p (f a)); simpl; now rewrite IH.
Qed.

(** The signs of one row of the comparison matrix count the entries of
    [y] below and above [a]. *)
Lemma sign_row a y :
  finite a -> Forall finite y ->
  Qsum (map (fun b => qval (np_sign (a - b)%fl)) y)
  == Qnat (length (filter (fun b => fgtb a b) y))
     - Qnat (length (filter (fun b => fltb a b) y)).
Proof.
  intros [qa ->] Hy. induction Hy as [| b y [qb ->] _ IH].
  - unfold Qsum, Qnat. simpl. lra.
  - cbn [map filter]. rewrite Qsum_cons, IH.
    unfold fgtb. cbn [fsub fneg fadd np_sign fltb]. unfold Qsgn.
    destruct (Qcompare_spec (qa + - qb) 0) as [E | E | E];
      destruct (Qcompare_spec qb qa) as [E1 | E1 | E1]; try lra;
      destruct (Qcompare_spec qa qb) as [E2 | E2 | E2]; try lra;
      cbn [length qval]; rewrite ?Qnat_succ; lra.
Qed.

Lemma sign_matrix x y :
  Forall finite x -> Forall finite y ->
  Qsum (map (fun a => Qsum (map (fun b => qval (np_sign (a - b)%fl)) y)) x)
  == Qnat (pairs_above x y) - Qnat (pairs_below x y).
Proof.
  intros Hx Hy. unfold pairs_above, pairs_below.
  induction Hx as [| a x Ha _ IH].
  - unfold Qsum, Qnat. simpl. lra.
  - cbn [map list_prod]. rewrite Qsum_cons, IH, (sign_row a y Ha Hy).
    rewrite !filter_app, !length_app, !Qnat_add, !filter_map_length.
    cbn [fst snd]. lra.
Qed.

Lemma comparisons_finite x y :
  Forall finite x -> Forall finite y -> finite (matrix_sum (comparisons x y)).
Proof.
  intros Hfx Hfy. unfold matrix_sum. apply np_sum_finite, Forall_concat.
  unfold comparisons. apply Forall_map.
  eapply Forall_impl; [| exact Hfx]. intros a [qa ->].
  apply Forall_map. eapply Forall_impl; [| exact Hfy]. intros b [qb ->].
  cbn [fsub fneg fadd np_sign]. destruct (Qsgn (qa + - qb)); now eexists.
Qed.

Lemma matrix_sum_counts x y :
  Forall finite x -> Forall finite y ->
  exists s, matrix_sum (comparisons x y) = Fin s
            /\ s == Qnat (pairs_above x y) - Qnat (pairs_below x y).
Proof.
  intros Hx Hy. destruct (comparisons_finite x y Hx Hy) as [s Hs].
  exists s. split; [exact Hs |].
  unfold matrix_sum in Hs. rewrite np_sum_cells in Hs by apply comparisons_cells.
  destruct (existsb isnan (concat (comparisons x y))); [discriminate |].
  injection Hs as <-. unfold comparisons.
  rewrite (Qsum_matrix (fun a b => np_sign (a - b)%fl) x y).
  now apply sign_matrix.
Qed.

Lemma exclusive_filters {A : Type} (p q : A -> bool) l :
  (forall a, p a = true -> q a = false) ->
  (length (filter p l) + length (filter q l) <= length l)%nat.
Proof.
  intros H. induction l as [| a l IH]; simpl; [lia |].
  destruct (p a) eqn:Ep.
  - rewrite (H a Ep). simpl. lia.
  - destruct (q a); simpl; lia.
Qed.

Lemma pairs_exclusive x y :
  (pairs_above x y + pairs_below x y <= length x * length y)%nat.
Proof.
  unfold pairs_above, pairs_below. rewrite <- length_prod.
  apply exclusive_filters. intros [a b]. cbn [fst snd]. unfold fgtb.
  intros H. destruct (fltb a b) eqn:E; trivial.
  exfalso. revert H E. clear. float_cases.
Qed.

Lemma cliffs_delta_by_counts x y :
  Forall finite x -> Forall finite y -> x <> [] -> y <> [] ->
  exists d,
    cliffs_delta x y = Fin d
    /\ d == (Qnat (pairs_above x y) - Qnat (pairs_below x y))
            / Qnat (length x * length y)
    /\ 0 < Qnat (length x * length y).
Proof.
  intros Hfx Hfy Hx Hy.
  destruct (matrix_sum_counts x y Hfx Hfy) as (s & Hs & Es).
  assert (Hn : (length x * length y <> 0)%nat).
  { destruct x; [congruence |]. destruct y; [congruence |]. simpl. lia. }
  assert (Hpos : 0 < Qnat (length x * length y)).
  { unfold Qnat. change 0 with (inject_Z 0). rewrite <- Zlt_Qlt. lia. }
  rewrite (cliffs_delta_nonempty x y Hx Hy), Hs. unfold float_of_nat.
  rewrite fdiv_Fin_nonzero by (apply float_of_nat_nonzero, Hn).
  eexists. split; [reflexivity |]. split; [| exact Hpos].
  fold (Qnat (length x * length y)). rewrite Es. reflexivity.
Qed.

(** X10.  On non-empty arrays of numbers, the vectorised computation of
    Cliff's delta returns the pair-counting definition: the number of pairs
    with [x_i > y_j] minus the number with [x_i < y_j], over the number of
    pairs; the value lies in [-1, 1]. *)
Theorem cliffs_delta_counts_pairs :
  forall x y : list float,
  Forall finite x -> Forall finite y -> x <> [] -> y <> [] ->
  exists d,
    cliffs_delta x y = Fin d
    /\ d == (Qnat (pairs_above x y) - Qnat (pairs_below x y))
            / Qnat (length x * length y)
    /\ -1 <= d <= 1.
Proof.
  intros x y Hfx Hfy Hx Hy.
  destruct (cliffs_delta_by_counts x y Hfx Hfy Hx Hy) as (d & Hd & Ed & Hpos).
  exists d. split; [exact Hd |]. split; [exact Ed |].
  pose proof (Qnat_le _ _ (pairs_exclusive x y)) as Hle.
  rewrite Qnat_add in Hle.
  pose proof (Qnat_nonneg (pairs_above x y)) as Ha.
  pose proof (Qnat_nonneg (pairs_below x y)) as Hb.
  rewrite Ed. split.
  - apply Qle_shift_div_l; [exact Hpos | lra].
  - apply Qle_shift_div_r; [exact Hpos | lra].
Qed.

Lemma filter_all {A : Type} (p : A -> bool) l :
  (forall a, In a l -> p a = true) -> filter p l = l.
Proof.
  induction l as [| a l IH]; simpl; intros H; trivial.
  rewrite (H a (or_introl eq_refl)). f_equal. apply IH. auto.
Qed.

Lemma filter_none {A : Type} (p : A -> bool) l :
  (forall a, In a l -> p a = false) -> filter p l = [].
Proof.
  induction l as [| a l IH]; simpl; intros H; trivial.
  rewrite (H a (or_introl eq_refl)). apply IH. auto.
Qed.

Lemma feqb_not_lt a b : feqb a b = true -> fltb a b = false /\ fltb b a = false.
Proof.
  destruct a as [| | qa |], b as [| | qb |]; simpl; try discriminate; auto.
  intros H. apply Qeq_bool_iff in H. qcmp; auto; lra.
Qed.

(** X11.  When every entry of [x] exceeds every entry of [y], Cliff's
    delta is 1; when every entry of [x] is below every entry of [y], it is
    -1; when all entries of both arrays are equal, it is 0. *)
Theorem cliffs_delta_extremes :
  forall x y : list float,
  Forall finite x -> Forall finite y -> x <> [] -> y <> [] ->
  exists d,
    cliffs_delta x y = Fin d
    /\ ((forall a b, In a x -> In b y -> fgtb a b = true) -> d == 1)
    /\ ((forall a b, In a x -> In b y -> fltb a b = true) -> d == -1)
    /\ ((forall a b, In a x -> In b y -> feqb a b = true) -> d == 0).
Proof.
  intros x y Hfx Hfy Hx Hy.
  destruct (cliffs_delta_by_counts x y Hfx Hfy Hx Hy) as (d & Hd & Ed & Hpos).
  exists d. split; [exact Hd |].
  assert (Hall : forall (p q : float -> float -> bool),
            (forall a b, p a b = true -> q a b = false) ->
            (forall a b, In a x -> In b y -> p a b = true) ->
            length (filter (fun c => p (fst c) (snd c)) (list_prod x y))
            = (length x * length y)%nat
            /\ length (filter (fun c => q (fst c) (snd c)) (list_prod x y)) = 0%nat).
  { intros p q Hpq H. split.
    - rewrite filter_all; [apply length_prod |].
      intros [a b] Hin. apply in_prod_iff in Hin. now apply H.
    - rewrite filter_none; [reflexivity |].
      intros [a b] Hin. apply in_prod_iff in Hin. apply Hpq. now apply H. }
  split; [| split].
  - intros H. destruct (Hall fgtb fltb) as [Ea Eb]; trivial.
    { clear. float_cases. }
    unfold pairs_above, pairs_below in Ed. rewrite Ea, Eb in Ed.
    rewrite Ed. change (Qnat 0) with 0. field. lra.
  - intros H. destruct (Hall fltb fgtb) as [Eb Ea]; trivial.
    { clear. float_cases. }
    unfold pairs_above, pairs_below in Ed. rewrite Ea, Eb in Ed.
    rewrite Ed. change (Qnat 0) with 0. field. lra.
  - intros H.
    assert (Ea : pairs_above x y = 0%nat).
    { unfold pairs_above. rewrite filter_none; [reflexivity |].
      intros [a b] Hin. apply in_prod_iff in Hin. destruct Hin as [Ha Hb].
      cbn [fst snd]. unfold fgtb. apply (feqb_not_lt a b (H a b Ha Hb)). }
    assert (Eb : pairs_below x y = 0%nat).
    { unfold pairs_below. rewrite filter_none; [reflexivity |].
      intros [a b] Hin. apply in_prod_iff in Hin. destruct Hin as [Ha Hb].
      cbn [fst snd]. apply (feqb_not_lt a b (H a b Ha Hb)). }
    rewrite Ed, Ea, Eb. change (Qnat 0) with 0. field. lra.
Qed.

End CliffsDeltaCounts.

Section CliffsDeltaRuns.

Import Spec Props Analysis.

Lemma cliffs_delta_counts_pairs_witness :
  exists d,
    cliffs_delta [Fin 3; Fin 1] [Fin 2; Fin 2; Fin 0] = Fin d
    /\ d == (Qnat (pairs_above [Fin 3; Fin 1] [Fin 2; Fin 2; Fin 0])
            - Qnat (pairs_below [Fin 3; Fin 1] [Fin 2; Fin 2; Fin 0]))
           / Qnat (length [Fin 3; Fin 1] * length [Fin 2; Fin 2; Fin 0])
    /\ -1 <= d <= 1.
Proof.
  apply cliffs_delta_counts_pairs.
  - repeat constructor; now eexists.
  - repeat constructor; now eexists.
  - discriminate.
  - discriminate.
Defined.

Lemma cliffs_delta_extremes_witness :
  exists d,
    cliffs_delta [Fin 3; Fin 4] [Fin 1; Fin 2] = Fin d
    /\ ((forall a b, In a [Fin 3; Fin 4] -> In b [Fin 1; Fin 2] -> fgtb a b = true) ->
        d == 1)
    /\ ((forall a b, In a [Fin 3; Fin 4] -> In b [Fin 1; Fin 2] -> fltb a b = true) ->
        d == -1)
    /\ ((forall a b, In a [Fin 3; Fin 4] -> In b [Fin 1; Fin 2] -> feqb a b = true) ->
        d == 0).
Proof.
  apply cliffs_delta_extremes.
  - repeat constructor; now eexists.
  - repeat constructor; now eexists.
  - discriminate.
  - discriminate.
Defined.

End CliffsDeltaRuns.


Section ClassifierChoice.

Import Spec Props Analysis Lib.

Context `{L : Lib.Libraries}.

(** X12.  [evaluate_classifier] cross-validates exactly when both classes
    are present and there are at least three samples: with leave-one-out
    for at most 12 samples, else with a stratified k-fold of
    [min(5, n_negative, n_positive)] folds seeded by [random_state].
    Whenever it returns, the two class counts add up to the sample count,
    the accuracy is undefined exactly when the cross-validation was
    skipped, and otherwise the three metrics are those that the
    cross-validation returned for that strategy, the number of folds being
    between 2 and 5 and at most the size of either class.  Whenever it
    raises, the cross-validation was not skipped, and the exception is
    either the [ValueError] of a stratified k-fold asked for a single fold,
    which happens with more than 12 samples and a class of a single member,
    or the one that the cross-validation raised. *)
Theorem classifier_cross_validation :
  forall (X : list (list float)) (labels : list string) (random_state : Z),
  let y := isin labels ["d"; "f"]%string in
  let n_pos := length (filter (fun b => b) y) in
  let n_neg := (length labels - n_pos)%nat in
  (forall res, evaluate_classifier X labels random_state = Ok res ->
      (n_positive res + n_negative res = n_samples res)%nat
      /\ (accuracy res = None <-> (n_unique y < 2)%nat \/ (length labels < 3)%nat)
      /\ ((2 <= n_unique y)%nat -> (3 <= length labels)%nat ->
          exists cv m,
            cross_val_metrics X y cv = Ok m
            /\ accuracy res = Some (cv_accuracy m)
            /\ balanced_accuracy res = Some (cv_balanced_accuracy m)
            /\ roc_auc res = option_map fst (cv_roc m)
            /\ ((length labels <= 12)%nat -> cv = LeaveOneOut)
            /\ ((12 < length labels)%nat ->
                exists k,
                  cv = StratifiedKFold k random_state
                  /\ k = Nat.min 5 (Nat.min n_neg n_pos)
                  /\ (2 <= k <= 5)%nat /\ (k <= n_pos)%nat /\ (k <= n_neg)%nat)))
  /\ (forall e, evaluate_classifier X labels random_state = Raise e ->
      (2 <= n_unique y)%nat /\ (3 <= length labels)%nat
      /\ (((12 < length labels)%nat /\ (n_pos = 1%nat \/ n_neg = 1%nat)
           /\ e = n_splits_error 1)
          \/ (exists cv,
                cross_val_metrics X y cv = Raise e
                /\ ((length labels <= 12)%nat -> cv = LeaveOneOut)
                /\ ((12 < length labels)%nat ->
                    cv = StratifiedKFold (Nat.min 5 (Nat.min n_neg n_pos))
                           random_state)))).
Proof.
  intros X labels random_state y n_pos n_neg.
  assert (Hlen : length y = length labels) by apply isin_length.
  pose proof (filter_complement y) as Hsplit. fold n_pos in Hsplit.
  pose proof (n_unique_two y) as Htwo. fold n_pos in Htwo.
  unfold evaluate_classifier. fold y. fold n_pos. rewrite Hlen. fold n_neg.
  destruct ((n_unique y <? 2)%nat || (length labels <? 3)%nat) eqn:Hskip.
  - apply orb_true_iff in Hskip. rewrite !Nat.ltb_lt in Hskip.
    split; [| intros e E; discriminate].
    intros res E. injection E as <-.
    cbn [n_positive n_negative n_samples accuracy].
    split; [subst n_neg; lia |].
    split; [split; [intros _; exact Hskip | reflexivity] |].
    intros H2 H3. lia.
  - apply orb_false_iff in Hskip. rewrite !Nat.ltb_ge in Hskip.
    destruct Hskip as [H2 H3].
    destruct (Nat.leb_spec (length labels) 12) as [Hle | Hgt].
    + cbn [bind].
      destruct (cross_val_metrics X y LeaveOneOut) as [m | e0] eqn:Hcv; cbn [bind].
      * split; [| intros e E; discriminate].
        intros res E. injection E as <-.
        cbn [n_positive n_negative n_samples accuracy balanced_accuracy roc_auc].
        split; [subst n_neg; lia |].
        split; [split; [discriminate | lia] |].
        intros _ _. exists LeaveOneOut, m.
        split; [exact Hcv |]. split; [reflexivity |]. split; [reflexivity |].
        split; [reflexivity |]. split; [reflexivity | lia].
      * split; [intros res E; discriminate |].
        intros e E. injection E as <-.
        split; [exact H2 |]. split; [exact H3 |].
        right. exists LeaveOneOut. split; [exact Hcv |].
        split; [reflexivity | lia].
    + unfold stratified_kfold.
      destruct (Nat.leb_spec (Nat.min 5 (Nat.min n_neg n_pos)) 1) as [Hk | Hk];
        cbn [bind].
      * assert (Hone : Nat.min 5 (Nat.min n_neg n_pos) = 1%nat).
        { apply Htwo in H2. subst n_neg. lia. }
        rewrite Hone.
        split; [intros res E; discriminate |].
        intros e E. injection E as <-.
        split; [exact H2 |]. split; [exact H3 |].
        left. split; [exact Hgt |]. split; [| reflexivity].
        apply Htwo in H2. subst n_neg. lia.
      * destruct (cross_val_metrics X y
                    (StratifiedKFold (Nat.min 5 (Nat.min n_neg n_pos)) random_state))
          as [m | e0] eqn:Hcv; cbn [bind].
        -- split; [| intros e E; discriminate].
           intros res E. injection E as <-.
           cbn [n_positive n_negative n_samples accuracy balanced_accuracy roc_auc].
           split; [subst n_neg; lia |].
           split; [split; [discriminate | lia] |].
           intros _ _. eexists _, m.
           split; [exact Hcv |]. split; [reflexivity |]. split; [reflexivity |].
           split; [reflexivity |]. split; [lia |].
           intros _. eexists. split; [reflexivity |]. split; [reflexivity |]. lia.
        -- split; [intros res E; discriminate |].
           intros e E. injection E as <-.
           split; [exact H2 |]. split; [exact H3 |].
           right. eexists. split; [exact Hcv |].
           split; [lia | reflexivity].
Qed.

End ClassifierChoice.

Section WorkingSet.

Import Spec Props TopologyEngine Analysis Lib.

Lemma prepare_working_set_columns agg_df n_min prime_metric col :
  _select_prime_columns prime_metric = Ok col ->
  exists working X labels,
    prepare_working_set agg_df n_min prime_metric = Ok (working, X, labels)
    /\ working_set col n_min agg_df working X labels.
Proof.
  intros Hcol. unfold prepare_working_set. rewrite Hcol. cbn [bind].
  set (complete := fun r : AggRow =>
         forallb (fun p => negb (isnan (col r p))) PRIME_COLUMNS
         && match agg_block r with Some _ => true | None => false end).
  set (working := filter complete (filter (fun r => (n_min <=? agg_n_materials r)%Z) agg_df)).
  assert (Hcomplete : forall r, complete r = true <->
            agg_block r <> None /\ forall p, isnan (col r p) = false).
  { intros r. unfold complete. rewrite andb_true_iff, forallb_forall. split.
    - intros [Hf Hb]. split; [destruct (agg_block r); [discriminate | discriminate] |].
      intros p. specialize (Hf p). rewrite negb_true_iff in Hf. apply Hf.
      destruct p; simpl; tauto.
    - intros [Hb Hf]. split.
      + intros p _. now rewrite Hf.
      + destruct (agg_block r); [reflexivity | congruence]. }
  eexists working, _, _. split; [reflexivity |].
  split; [| split; [| split; [| split]]].
  - intros row. unfold working, passes. rewrite !filter_In, Hcomplete, Z.leb_le. tauto.
  - exists (fun r => (n_min <=? agg_n_materials r)%Z && complete r).
    unfold working. clear. induction agg_df as [| r df IH]; simpl; trivial.
    destruct (n_min <=? agg_n_materials r)%Z; simpl; [| exact IH].
    destruct (complete r); [f_equal |]; exact IH.
  - reflexivity.
  - rewrite !map_map. apply map_ext_in. intros r Hr.
    apply filter_In in Hr. destruct Hr as [_ Hr]. apply Hcomplete in Hr.
    destruct (agg_block r); [reflexivity | now destruct Hr].
  - apply Forall_map, Forall_forall. intros r Hr.
    apply filter_In in Hr. destruct Hr as [_ Hr]. apply Hcomplete in Hr.
    destruct Hr as [_ Hf]. cbn [map PRIME_COLUMNS]. repeat constructor; apply Hf.
Qed.

(** X13.  [prepare_working_set] raises [ValueError] for every prime
    metric other than "mean" and "median", whatever the table; for these two
    it returns the rows with at least [n_min] materials, a block label and
    no missing feature of the chosen metric, in table order, with the
    feature matrix (four cells per row, none NaN) and the labels aligned
    with them. *)
Theorem prepare_working_set_rows :
  forall (agg_df : list AggRow) (n_min : Z) (prime_metric : string),
  (prime_metric = "mean"%string ->
   exists working X labels,
     prepare_working_set agg_df n_min prime_metric = Ok (working, X, labels)
     /\ working_set e_mean n_min agg_df working X labels)
  /\ (prime_metric = "median"%string ->
      exists working X labels,
        prepare_working_set agg_df n_min prime_metric = Ok (working, X, labels)
        /\ working_set e_median n_min agg_df working X labels)
  /\ (prime_metric <> "mean"%string -> prime_metric <> "median"%string ->
      prepare_working_set agg_df n_min prime_metric
      = Raise (ValueError "prime_metric must be 'mean' or 'median'")).
Proof.
  intros agg_df n_min prime_metric. split; [| split].
  - intros ->. now apply prepare_working_set_columns.
  - intros ->. now apply prepare_working_set_columns.
  - intros H1 H2. unfold prepare_working_set, _select_prime_columns.
    apply String.eqb_neq in H1, H2. rewrite H1, H2. reflexivity.
Qed.

End WorkingSet.

Section BlockStatsFacts.

Import Spec Props TopologyEngine Analysis Lib BlockStats.

Context `{L : Lib.Libraries}.

Lemma group_arrays_length values labels targets :
  length values = length labels ->
  length (_group_arrays values labels targets) = label_count targets labels.
Proof.
  unfold _group_arrays, isin, label_count. revert values.
  induction labels as [| l labels IH]; intros [| v values] Hlen; simpl in *;
    try discriminate; trivial.
  injection Hlen as Hlen.
  destruct (existsb (String.eqb l) targets); simpl; now rewrite IH.
Qed.

Lemma mann_whitney_sizes values labels group_a group_b :
  length values = length labels ->
  group_sizes (mann_whitney_with_effect values labels group_a group_b)
  = (label_count group_a labels, label_count group_b labels).
Proof.
  intros Hlen. unfold mann_whitney_with_effect.
  rewrite !(group_arrays_length _ _ _ Hlen).
  destruct ((label_count group_a labels =? 0)%nat || (label_count group_b labels =? 0)%nat);
    reflexivity.
Qed.

Lemma label_count_filter labels :
  label_count ["d"; "f"]%string labels
  = length (filter (fun b => b) (isin labels ["d"; "f"]%string)).
Proof.
  unfold label_count, isin. now rewrite filter_map_length.
Qed.

Lemma label_count_bounds labels :
  (label_count ["p"]%string labels <= label_count ["s"; "p"]%string labels)%nat
  /\ (label_count ["d"; "f"]%string labels + label_count ["s"; "p"]%string labels
      <= length labels)%nat.
Proof.
  unfold label_count. induction labels as [| l labels [IH1 IH2]]; simpl in *; [lia |].
  destruct (String.eqb_spec l "p") as [-> | Hp]; simpl in *; [lia |].
  destruct (String.eqb_spec l "s") as [-> | Hs]; simpl in *; [lia |].
  destruct (String.eqb l "d" || (String.eqb l "f" || false)); simpl in *; lia.
Qed.

(** X14.  [compute_block_statistics] raises [ValueError] on a prime
    metric other than "mean" and "median"; on these two it returns unless
    the classifier evaluation of the working set raises, in which case it
    raises the same exception.  Whenever it returns, its counts agree with
    one another: [n_elements] is the length of the table, the robust count
    is not larger and is the classifier's sample count, the d/f group of the
    three tests has the size of the classifier's positive class, the tests
    on e5 and e7 compare groups of the same sizes, the p group is not larger
    than the s/p group, and the two groups of a test never exceed the robust
    count together. *)
Theorem block_statistics_counts :
  forall (agg_df : list AggRow) (n_min : Z) (prime_metric : string) (random_state : Z),
  (prime_metric <> "mean"%string -> prime_metric <> "median"%string ->
   compute_block_statistics agg_df n_min prime_metric random_state
   = Raise (ValueError "prime_metric must be 'mean' or 'median'"))
  /\ (prime_metric = "mean"%string \/ prime_metric = "median"%string ->
      exists working X labels,
        prepare_working_set agg_df n_min prime_metric = Ok (working, X, labels)
        /\ ((exists stats clf,
               evaluate_classifier X labels random_state = Ok clf
               /\ compute_block_statistics agg_df n_min prime_metric random_state
                  = Ok stats
               /\ classifier stats = clf)
            \/ (exists e,
                  evaluate_classifier X labels random_state = Raise e
                  /\ compute_block_statistics agg_df n_min prime_metric random_state
                     = Raise e)))
  /\ (forall stats,
      compute_block_statistics agg_df n_min prime_metric random_state = Ok stats ->
      n_elements stats = length agg_df
      /\ (n_elements_robust stats <= n_elements stats)%nat
      /\ n_samples (classifier stats) = n_elements_robust stats
      /\ snd (group_sizes (test_p_vs_df_e2 stats)) = n_positive (classifier stats)
      /\ fst (group_sizes (test_df_vs_sp_e5 stats)) = n_positive (classifier stats)
      /\ group_sizes (test_df_vs_sp_e7 stats) = group_sizes (test_df_vs_sp_e5 stats)
      /\ (fst (group_sizes (test_p_vs_df_e2 stats))
          <= snd (group_sizes (test_df_vs_sp_e5 stats)))%nat
      /\ (fst (group_sizes (test_df_vs_sp_e5 stats))
          + snd (group_sizes (test_df_vs_sp_e5 stats))
          <= n_elements_robust stats)%nat).
Proof.
  intros agg_df n_min prime_metric random_state.
  assert (Hbad : prime_metric <> "mean"%string -> prime_metric <> "median"%string ->
                 compute_block_statistics agg_df n_min prime_metric random_state
                 = Raise (ValueError "prime_metric must be 'mean' or 'median'")).
  { intros H1 H2. unfold compute_block_statistics, prepare_working_set,
      _select_prime_columns.
    apply String.eqb_neq in H1, H2. rewrite H1, H2. reflexivity. }
  split; [exact Hbad |]. split.
  - intros Hm.
    assert (Hcol : exists col, _select_prime_columns prime_metric = Ok col).
    { destruct Hm as [-> | ->]; eexists; reflexivity. }
    destruct Hcol as [col Hcol].
    destruct (prepare_working_set_columns agg_df n_min prime_metric col Hcol)
      as (working & X & labels & Hprep & _).
    exists working, X, labels. split; [exact Hprep |].
    unfold compute_block_statistics. rewrite Hprep. cbn [bind].
    destruct (evaluate_classifier X labels random_state) as [clf | e]; cbn [bind].
    + left. eexists _, clf. split; [reflexivity |]. split; reflexivity.
    + right. exists e. split; reflexivity.
  - intros stats E.
    assert (Hm : prime_metric = "mean"%string \/ prime_metric = "median"%string).
    { destruct (string_dec prime_metric "mean") as [H1 | H1]; [now left |].
      destruct (string_dec prime_metric "median") as [H2 | H2]; [now right |].
      rewrite (Hbad H1 H2) in E. discriminate. }
    assert (Hcol : exists col, _select_prime_columns prime_metric = Ok col).
    { destruct Hm as [-> | ->]; eexists; reflexivity. }
    destruct Hcol as [col Hcol].
    destruct (prepare_working_set_columns agg_df n_min prime_metric col Hcol)
      as (working & X & labels & Hprep & Hin & (keep & Hkeep) & HX & Hlab & _).
    unfold compute_block_statistics in E. rewrite Hprep in E. cbn [bind] in E.
    destruct (evaluate_classifier X labels random_state) as [clf | e] eqn:Hclf;
      [| discriminate].
    cbn [bind] in E. injection E as <-.
    cbn [n_elements n_elements_robust classifier test_p_vs_df_e2 test_df_vs_sp_e5
         test_df_vs_sp_e7].
    assert (Hlen : length labels = length working).
    { apply (f_equal (@length _)) in Hlab. now rewrite !length_map in Hlab. }
    assert (HlenX : forall j, length (NullModels.column j X) = length labels).
    { intros j. unfold NullModels.column. rewrite length_map, HX, length_map. lia. }
    rewrite !mann_whitney_sizes by apply HlenX. cbn [fst snd].
    destruct (evaluate_classifier_counts X labels random_state clf Hclf)
      as (Hns & Hnp & _).
    rewrite Hns, Hnp, <- label_count_filter.
    destruct (label_count_bounds labels) as [Hb1 Hb2].
    split; [reflexivity |].
    split; [rewrite Hkeep; apply filter_length_le |].
    split; [exact Hlen |].
    split; [reflexivity |]. split; [reflexivity |]. split; [reflexivity |].
    split; [exact Hb1 | rewrite <- Hlen; exact Hb2].
Qed.

End BlockStatsFacts.

(** ** Further facts on the null models *)

Section EmpiricalPBounds.

Import Spec Props Analysis NullModels.

Lemma Qnat_pos n : 0 < Qnat (n + 1).
Proof. unfold Qnat. change 0 with (inject_Z 0). rewrite <- Zlt_Qlt. lia. Qed.

Lemma Qnat_one n : Qnat (n + 1) == Qnat n + 1.
Proof. rewrite Qnat_add. reflexivity. Qed.

(** The p-value computed from a defined statistic and a non-empty array. *)
Lemma empirical_p_defined r samples :
  isnan r = false -> finite_samples samples <> [] ->
  _empirical_p (Some r) samples
  = Ok (Some (Fin (Qnat (count_extreme (finite_samples samples) r + 1)
                   / Qnat (length (finite_samples samples) + 1)))).
Proof.
  intros Hr Hne. unfold _empirical_p. cbn [np_isnan_opt bind is_none].
  rewrite Hr. cbn [orb].
  destruct (finite_samples samples) as [| a arr] eqn:E; [congruence |].
  change (length (a :: arr) =? 0)%nat with false. cbv iota.
  unfold float_of_nat. rewrite fdiv_Fin_nonzero; [reflexivity |].
  apply float_of_nat_nonzero. lia.
Qed.

Lemma count_extreme_le arr r : (count_extreme arr r <= length arr)%nat.
Proof. apply filter_length_le. Qed.

(** X15.  For a real statistic that is not NaN and null samples of which
    at least one is neither [None] nor NaN, [_empirical_p] returns the
    number [(extreme + 1) / (m + 1)], where [m] counts the valid samples and
    [extreme] those at least as large in absolute value as the statistic;
    it lies between [1 / (m + 1)] and 1, so it is never zero. *)
Theorem empirical_p_bounds :
  forall (r : float) (samples : list (option float)),
  isnan r = false -> finite_samples samples <> [] ->
  let m := length (finite_samples samples) in
  exists p,
    _empirical_p (Some r) samples = Ok (Some (Fin p))
    /\ p == (Qnat (count_extreme (finite_samples samples) r) + 1) / (Qnat m + 1)
    /\ 1 / (Qnat m + 1) <= p <= 1.
Proof.
  intros r samples Hr Hne m.
  rewrite (empirical_p_defined r samples Hr Hne). fold m.
  eexists. split; [reflexivity |].
  pose proof (Qnat_pos m) as Hpos. rewrite Qnat_one in Hpos.
  pose proof (Qnat_nonneg (count_extreme (finite_samples samples) r)) as He.
  pose proof (Qnat_le _ _ (count_extreme_le (finite_samples samples) r)) as Hle.
  fold m in Hle.
  rewrite !Qnat_one. split; [reflexivity |]. split.
  - apply Qle_shift_div_l; [exact Hpos |].
    setoid_replace (1 / (Qnat m + 1) * (Qnat m + 1)) with 1 by (field; lra). lra.
  - apply Qle_shift_div_r; [exact Hpos | lra].
Qed.

Lemma filter_length_mono {A : Type} (p q : A -> bool) l :
  (forall a, p a = true -> q a = true) ->
  (length (filter p l) <= length (filter q l))%nat.
Proof.
  intros H. induction l as [| a l IH]; simpl; [lia |].
  destruct (p a) eqn:Ep.
  - rewrite (H a Ep). simpl. lia.
  - destruct (q a); simpl; lia.
Qed.

Lemma fleb_trans x y z : fleb x y = true -> fleb y z = true -> fleb x z = true.
Proof. float_cases. Qed.

(** X16.  The empirical p-value does not increase with the magnitude
    of the statistic: for the same null samples, a statistic at least as
    large in absolute value gets a p-value at most as large. *)
Theorem empirical_p_antitone :
  forall (r r' : float) (samples : list (option float)),
  isnan r = false -> isnan r' = false -> finite_samples samples <> [] ->
  fleb (fabs r) (fabs r') = true ->
  exists p p',
    _empirical_p (Some r) samples = Ok (Some (Fin p))
    /\ _empirical_p (Some r') samples = Ok (Some (Fin p'))
    /\ p' <= p.
Proof.
  intros r r' samples Hr Hr' Hne Hle.
  rewrite (empirical_p_defined r samples Hr Hne),
          (empirical_p_defined r' samples Hr' Hne).
  eexists _, _. split; [reflexivity |]. split; [reflexivity |].
  pose proof (Qnat_pos (length (finite_samples samples))) as Hpos.
  assert (Hcount : (count_extreme (finite_samples samples) r'
                    <= count_extreme (finite_samples samples) r)%nat).
  { apply filter_length_mono. intros a Ha. unfold fgeb in *.
    now apply (fleb_trans _ (fabs r')). }
  apply Qle_shift_div_l; [exact Hpos |].
  unfold Qdiv. rewrite <- Qmult_assoc, (Qmult_comm (/ _)), Qmult_inv_r by lra.
  rewrite Qmult_1_r. apply Qnat_le. lia.
Qed.

(** Whatever the statistic and the samples, a p-value that is returned
    lies in (0, 1]. *)
Lemma empirical_p_unit real samples x :
  _empirical_p real samples = Ok (Some x) ->
  exists p, x = Fin p /\ 0 < p <= 1.
Proof.
  destruct real as [r |]; [| discriminate].
  destruct (isnan r) eqn:Hr.
  { unfold _empirical_p. cbn [np_isnan_opt bind]. rewrite Hr. discriminate. }
  destruct (finite_samples samples) as [| a arr] eqn:E.
  { unfold _empirical_p. cbn [np_isnan_opt bind is_none]. rewrite Hr, E.
    discriminate. }
  assert (Hne : finite_samples samples <> []) by congruence.
  rewrite (empirical_p_defined r samples Hr Hne). intros H. injection H as <-.
  eexists. split; [reflexivity |].
  pose proof (Qnat_pos (length (finite_samples samples))) as Hpos.
  pose proof (Qnat_pos (count_extreme (finite_samples samples) r)) as Hnum.
  split.
  - apply Qlt_shift_div_l; [exact Hpos | lra].
  - apply Qle_shift_div_r; [exact Hpos |]. rewrite Qmult_1_l.
    apply Qnat_le. pose proof (count_extreme_le (finite_samples samples) r). lia.
Qed.

End EmpiricalPBounds.

Section NullRunFacts.

Import Spec Props TopologyEngine Analysis NullModels Lib.

Context `{L : Libraries}.

(** X18.  The order of the guards.  The rotation model returns its
    "n_rotations set to 0." record for every non-positive trial count before
    it looks at the table or the metric, so also for an invalid metric; the
    permutation model has no such guard and raises [ValueError] on an
    invalid metric whatever the trial count, as does the rotation model for
    a positive count; and when no element passes the filters both return the
    "No elements pass n_min filter." record with the trial count.  None of
    these paths creates a generator. *)
Theorem null_runs_guards :
  forall (agg_df : list AggRow) (n_min : Z) (prime_metric : string)
         (n_trials : Z) (random_state : Z) (w : World),
  ((n_trials <= 0)%Z ->
   run_rotation_nulls agg_df n_min prime_metric n_trials random_state w
   = (Ok (Skipped "n_rotations set to 0." None), w))
  /\ (prime_metric <> "mean"%string -> prime_metric <> "median"%string ->
      run_permutation_nulls agg_df n_min prime_metric n_trials random_state w
      = (Raise (ValueError "prime_metric must be 'mean' or 'median'"), w)
      /\ ((0 < n_trials)%Z ->
          run_rotation_nulls agg_df n_min prime_metric n_trials random_state w
          = (Raise (ValueError "prime_metric must be 'mean' or 'median'"), w)))
  /\ (forall working X,
        prepare_working_set agg_df n_min prime_metric = Ok (working, X, []) ->
        run_permutation_nulls agg_df n_min prime_metric n_trials random_state w
        = (Ok (Skipped "No elements pass n_min filter." (Some n_trials)), w)
        /\ ((0 < n_trials)%Z ->
            run_rotation_nulls agg_df n_min prime_metric n_trials random_state w
            = (Ok (Skipped "No elements pass n_min filter." (Some n_trials)), w))).
Proof.
  intros agg_df n_min prime_metric n_trials random_state w.
  split; [| split].
  - intros Hn. unfold run_rotation_nulls.
    apply Z.leb_le in Hn. now rewrite Hn.
  - intros H1 H2.
    assert (Hprep : prepare_working_set agg_df n_min prime_metric
                    = Raise (ValueError "prime_metric must be 'mean' or 'median'")).
    { unfold prepare_working_set, _select_prime_columns.
      apply String.eqb_neq in H1, H2. rewrite H1, H2. reflexivity. }
    split.
    + unfold run_permutation_nulls. now rewrite Hprep.
    + intros Hn. unfold run_rotation_nulls.
      apply Z.leb_gt in Hn. now rewrite Hn, Hprep.
  - intros working X Hprep. split.
    + unfold run_permutation_nulls. now rewrite Hprep.
    + intros Hn. unfold run_rotation_nulls.
      apply Z.leb_gt in Hn. now rewrite Hn, Hprep.
Qed.

Lemma summarize_key_p_value real_metrics key samples e :
  summarize_key real_metrics key samples = Ok e -> unit_p_value (ms_p_value e).
Proof.
  unfold summarize_key.
  destruct (np_nanmean samples) as [m |]; [| discriminate].
  destruct (np_nanstd1 samples) as [s |]; [| discriminate].
  cbn [bind].
  destruct (_empirical_p (dict_lookup real_metrics key) samples) as [p |] eqn:Hp;
    [| discriminate].
  cbn [bind].
  destruct (_z_score (dict_lookup real_metrics key) samples) as [z |];
    [| discriminate].
  cbn [bind]. intros H. injection H as <-. cbn [ms_p_value].
  destruct p as [x |]; [| now left].
  right. destruct (empirical_p_unit _ _ _ Hp) as (q & -> & Hq). now exists q.
Qed.

Lemma summarize_shape real_metrics samples entries :
  summarize real_metrics samples = Ok entries ->
  map fst entries = map fst samples
  /\ Forall (fun e => unit_p_value (ms_p_value (snd e))) entries.
Proof.
  revert entries. induction samples as [| [k l] samples IH]; intros entries.
  - simpl. intros H. injection H as <-. split; [reflexivity | constructor].
  - cbn [summarize].
    destruct (summarize_key real_metrics k l) as [e |] eqn:He; [| discriminate].
    cbn [bind].
    destruct (summarize real_metrics samples) as [es |]; [| discriminate].
    cbn [bind]. intros H. injection H as <-.
    destruct (IH es eq_refl) as [IH1 IH2].
    split; [cbn [map fst]; now rewrite IH1 |].
    constructor; [| exact IH2]. cbn [snd].
    now apply (summarize_key_p_value real_metrics k l).
Qed.

Lemma summary_of_shape X labels snapshots n entries n_trials n_el :
  summary_of X labels snapshots n = Ok (Summary entries n_trials n_el) ->
  map fst entries = tracked_keys
  /\ n_trials = n /\ n_el = length labels
  /\ Forall (fun e => unit_p_value (ms_p_value (snd e))) entries.
Proof.
  unfold summary_of.
  destruct (evaluate_classifier X labels 0) as [clf | e] eqn:Hclf.
  - destruct (snapshot_classifier_accuracy X labels clf Hclf)
      as (metrics & -> & Hkeys & _).
    cbn [bind].
    destruct (collect snapshots (map (fun kv => (fst kv, [])) metrics))
      as [samples |] eqn:Hc; [| discriminate].
    cbn [bind].
    destruct (summarize metrics samples) as [es |] eqn:Hs; [| discriminate].
    cbn [bind]. intros H. injection H as <- <- <-.
    destruct (summarize_shape _ _ _ Hs) as [Hk Hp].
    rewrite (collect_keys _ _ _ Hc), map_map in Hk. cbn [fst] in Hk.
    change (map (fun x : string * option float => fst x) metrics)
      with (map fst metrics) in Hk.
    rewrite Hkeys in Hk.
    split; [exact Hk |]. repeat split. exact Hp.
  - unfold _metric_snapshot. rewrite Hclf. discriminate.
Qed.

(** X19.  Whenever a run of the permutation or of the rotation model
    returns a summary, the summary holds the four tracked statistics in
    their order, echoes the trial count, counts at least one element, and
    every p-value in it is undefined or a number of (0, 1]. *)
Theorem null_summary_shape :
  forall (agg_df : list AggRow) (n_min : Z) (prime_metric : string)
         (n : Z) (random_state : Z) (w : World)
         (entries : list (string * MetricSummary)) (n_trials : Z) (n_el : nat),
  fst (run_permutation_nulls agg_df n_min prime_metric n random_state w)
  = Ok (Summary entries n_trials n_el)
  \/ fst (run_rotation_nulls agg_df n_min prime_metric n random_state w)
     = Ok (Summary entries n_trials n_el) ->
  map fst entries = tracked_keys
  /\ n_trials = n
  /\ (1 <= n_el)%nat
  /\ Forall (fun e => unit_p_value (ms_p_value (snd e))) entries.
Proof.
  intros agg_df n_min prime_metric n random_state w entries n_trials n_el H.
  rewrite run_permutation_nulls_summary, run_rotation_nulls_summary in H.
  unfold permutation_null_summary, rotation_null_summary in H.
  assert (Hcase : exists X labels snapshots,
            labels <> []
            /\ summary_of X labels snapshots n = Ok (Summary entries n_trials n_el)).
  { destruct (prepare_working_set agg_df n_min prime_metric)
      as [[[working X] labels] | e].
    - destruct labels as [| l labels].
      + destruct H as [H | H]; [discriminate |].
        destruct (n <=? 0)%Z; discriminate.
      + change (length (l :: labels) =? 0)%nat with false in H. cbv iota in H.
        destruct H as [H | H].
        * eexists X, (l :: labels), _. split; [discriminate | exact H].
        * destruct (n <=? 0)%Z; [discriminate |].
          eexists X, (l :: labels), _. split; [discriminate | exact H].
    - destruct H as [H | H]; [discriminate |].
      destruct (n <=? 0)%Z; discriminate. }
  destruct Hcase as (X & labels & snapshots & Hne & Hsum).
  destruct (summary_of_shape _ _ _ _ _ _ _ Hsum) as (Hk & Hn & Hel & Hp).
  split; [exact Hk |]. split; [exact Hn |]. split; [| exact Hp].
  rewrite Hel. destruct labels; [congruence | simpl; lia].
Qed.

End NullRunFacts.

Section NullRunFactsRuns.

Import Spec Props TopologyEngine Analysis NullModels Lib Examples Cases.

Lemma empirical_p_bounds_witness :
  exists p,
    _empirical_p (Some (Fin 2)) [Some (Fin 3); None; Some NaN; Some (Fin (-1))]
    = Ok (Some (Fin p))
    /\ p == (Qnat (count_extreme
                     (finite_samples [Some (Fin 3); None; Some NaN; Some (Fin (-1))])
                     (Fin 2)) + 1)
            / (Qnat (length (finite_samples
                               [Some (Fin 3); None; Some NaN; Some (Fin (-1))])) + 1)
    /\ 1 / (Qnat (length (finite_samples
                            [Some (Fin 3); None; Some NaN; Some (Fin (-1))])) + 1)
       <= p <= 1.
Proof.
  apply (empirical_p_bounds (Fin 2) [Some (Fin 3); None; Some NaN; Some (Fin (-1))]).
  - reflexivity.
  - discriminate.
Defined.

Lemma empirical_p_antitone_witness :
  exists p p',
    _empirical_p (Some (Fin 2)) [Some (Fin 3); Some (Fin (-1))] = Ok (Some (Fin p))
    /\ _empirical_p (Some (Fin (-4))) [Some (Fin 3); Some (Fin (-1))]
       = Ok (Some (Fin p'))
    /\ p' <= p.
Proof.
  apply empirical_p_antitone.
  - reflexivity.
  - reflexivity.
  - discriminate.
  - reflexivity.
Defined.

Lemma null_summary_shape_witness :
  exists entries n_trials n_el,
    fst (run_permutation_nulls (L := toy_libraries) table_four 1 "mean" 2 0
           {| heap := [] |})
    = Ok (Summary entries n_trials n_el)
    /\ map fst entries = tracked_keys
    /\ n_trials = 2%Z
    /\ (1 <= n_el)%nat
    /\ Forall (fun e => unit_p_value (ms_p_value (snd e))) entries.
Proof.
  eexists _, _, _. split; [vm_compute; reflexivity |].
  apply (null_summary_shape (L := toy_libraries) table_four 1 "mean" 2 0
           {| heap := [] |}).
  left. vm_compute. reflexivity.
Defined.

End NullRunFactsRuns.


(** ** Further facts on the material table *)

Section StringOrder.

Import Props.

Lemma ascii_compare_refl a : Ascii.compare a a = Eq.
Proof. unfold Ascii.compare. apply N.compare_refl. Qed.

Lemma ascii_compare_lt_trans a b c :
  Ascii.compare a b = Lt -> Ascii.compare b c = Lt -> Ascii.compare a c = Lt.
Proof.
  unfold Ascii.compare. rewrite !N.compare_lt_iff. apply N.lt_trans.
Qed.

Lemma string_compare_lt_trans a b c :
  String.compare a b = Lt -> String.compare b c = Lt -> String.compare a c = Lt.
Proof.
  revert b c. induction a as [| x a IH]; intros [| y b] [| z c]; simpl;
    try discriminate; trivial.
  destruct (Ascii.compare x y) eqn:Exy; try discriminate;
    destruct (Ascii.compare y z) eqn:Eyz; try discriminate.
  - apply Ascii.compare_eq_iff in Exy, Eyz. subst.
    rewrite ascii_compare_refl. apply IH.
  - apply Ascii.compare_eq_iff in Exy. subst. now rewrite Eyz.
  - apply Ascii.compare_eq_iff in Eyz. subst. now rewrite Exy.
  - now rewrite (ascii_compare_lt_trans _ _ _ Exy Eyz).
Qed.

Lemma string_lt_trans a b c : string_lt a b -> string_lt b c -> string_lt a c.
Proof.
  unfold string_lt, String.ltb. intros H1 H2.
  destruct (String.compare a b) eqn:E1; try discriminate.
  destruct (String.compare b c) eqn:E2; try discriminate.
  now rewrite (string_compare_lt_trans _ _ _ E1 E2).
Qed.

Lemma string_compare_refl a : String.compare a a = Eq.
Proof.
  induction a as [| x a IH]; simpl; trivial. now rewrite ascii_compare_refl.
Qed.

Lemma string_lt_irrefl a : ~ string_lt a a.
Proof. unfold string_lt, String.ltb. now rewrite string_compare_refl. Qed.

(** Two different keys are ordered one way or the other. *)
Lemma string_lt_connected a b :
  String.eqb a b = false -> String.ltb a b = false -> string_lt b a.
Proof.
  unfold string_lt, String.ltb. intros Hne Hlt.
  rewrite String.compare_antisym.
  destruct (String.compare a b) eqn:E; try discriminate; trivial.
  apply String.compare_eq_iff in E. apply String.eqb_neq in Hne. contradiction.
Qed.

Lemma increasing_NoDup keys : increasing keys -> NoDup keys.
Proof.
  induction keys as [| k keys IH]; simpl; [constructor |].
  intros [Hk Hinc]. constructor; [| now apply IH].
  intros Hin. rewrite Forall_forall in Hk.
  exact (string_lt_irrefl k (Hk k Hin)).
Qed.

End StringOrder.

Section AggregateTable.

Import Spec Props TopologyEngine Data Lib.

Context `{L : Lib.Libraries}.

Lemma insert_key_increasing k keys :
  increasing keys -> increasing (insert_key k keys).
Proof.
  induction keys as [| x keys IH]; simpl.
  - intros _. split; [constructor | exact I].
  - intros [Hx Hinc].
    destruct (String.eqb k x) eqn:Eq; [simpl; auto |].
    destruct (String.ltb k x) eqn:Lt.
    + simpl. split; [| auto]. constructor; [exact Lt |].
      eapply Forall_impl; [| exact Hx]. intros y Hy.
      now apply (string_lt_trans k x y).
    + simpl. split; [| now apply IH].
      apply Forall_forall. intros y Hy. apply in_insert_key in Hy.
      destruct Hy as [-> | Hy].
      * now apply string_lt_connected.
      * rewrite Forall_forall in Hx. now apply Hx.
Qed.

Lemma group_keys_increasing col : increasing (group_keys col).
Proof.
  unfold group_keys. induction col as [| k col IH]; simpl; [exact I |].
  now apply insert_key_increasing.
Qed.

(** The records come from the groups, one each, in order. *)
Lemma aggregate_groups_fields groups table warnings :
  aggregate_groups groups = Ok (table, warnings) ->
  map rec_element table = map fst groups
  /\ map rec_n_materials table = map (fun g => length (snd g)) groups.
Proof.
  revert table warnings.
  induction groups as [| [k group] groups IH]; intros table warnings.
  - simpl. intros H. injection H as <- <-. split; reflexivity.
  - cbn [aggregate_groups].
    destruct (element_record k group) as [[rec ws] |] eqn:Er; [| discriminate].
    cbn [bind].
    destruct (aggregate_groups groups) as [[tb ws'] |] eqn:Eg; [| discriminate].
    cbn [bind fst snd]. intros H. injection H as <- <-.
    destruct (IH tb ws' eq_refl) as [IH1 IH2].
    assert (Hrec : rec_element rec = k /\ rec_n_materials rec = length group).
    { unfold element_record in Er.
      destruct (unique (dropna_text (map carrier_block group))) as [| b [| b' bs]];
        try discriminate.
      injection Er as <- _. split; reflexivity. }
    destruct Hrec as [He Hn].
    cbn [map fst snd]. rewrite IH1, IH2, He, Hn. split; reflexivity.
Qed.

Lemma list_sum_cons (a : nat) l : list_sum (a :: l) = (a + list_sum l)%nat.
Proof. reflexivity. Qed.

Lemma indicator_zero (k0 : string) keys :
  ~ In k0 keys ->
  list_sum (map (fun k => if String.eqb k0 k then 1 else 0)%nat keys) = 0%nat.
Proof.
  induction keys as [| y keys IH]; intros Hk; [reflexivity |].
  cbn [map]. rewrite list_sum_cons.
  destruct (String.eqb_spec k0 y) as [-> | Hne].
  - exfalso. apply Hk. now left.
  - rewrite IH; [reflexivity |]. intros H. apply Hk. now right.
Qed.

Lemma indicator_sum (k0 : string) keys :
  NoDup keys -> In k0 keys ->
  list_sum (map (fun k => if String.eqb k0 k then 1 else 0)%nat keys) = 1%nat.
Proof.
  induction 1 as [| k keys Hk Hnd IH]; [intros [] |].
  intros Hin. cbn [map]. rewrite list_sum_cons.
  destruct (String.eqb_spec k0 k) as [-> | Hne].
  - now rewrite (indicator_zero k keys Hk).
  - destruct Hin as [E | Hin]; [congruence |]. now rewrite IH.
Qed.

Lemma list_sum_map_add {A : Type} (f g : A -> nat) l :
  list_sum (map (fun a => f a + g a)%nat l)
  = (list_sum (map f l) + list_sum (map g l))%nat.
Proof.
  induction l as [| a l IH]; [reflexivity |].
  cbn [map]. rewrite !list_sum_cons, IH. lia.
Qed.

Lemma list_sum_zero {A : Type} (l : list A) :
  list_sum (map (fun _ => 0%nat) l) = 0%nat.
Proof. induction l as [| a l IH]; [reflexivity |]. cbn [map]. now rewrite list_sum_cons. Qed.

(** The groups of the keys partition the rows that carry one of them. *)
Lemma group_sizes_sum keys rows :
  NoDup keys ->
  Forall (fun r => exists k, In k keys /\ m_carrier_element r = Some k) rows ->
  list_sum (map (fun k => length (filter (has_element k) rows)) keys) = length rows.
Proof.
  intros Hnd. induction 1 as [| r rows (k0 & Hin & Hr) _ IH].
  - cbn [filter length]. apply list_sum_zero.
  - cbn [length]. rewrite <- IH.
    rewrite (map_ext _ (fun k => (if String.eqb k0 k then 1 else 0)
                                 + length (filter (has_element k) rows))%nat).
    + rewrite list_sum_map_add, (indicator_sum k0 keys Hnd Hin). reflexivity.
    + intros k. cbn [filter]. unfold has_element at 1. rewrite Hr.
      destruct (String.eqb k0 k); reflexivity.
Qed.

(** X20.  When [aggregate_element_table] succeeds, its rows are in
    strictly increasing order of the element symbol, so every element occurs
    once; [n_materials] counts the included materials of the element, is at
    least 1, and the counts add up to the number of included materials:
    every included material is counted for exactly one element. *)
Theorem aggregate_table_partition :
  forall (df : list MaterialRow) (table : list ElementRecord) (warnings : list string),
  aggregate_element_table df = Ok (table, warnings) ->
  increasing (map rec_element table)
  /\ NoDup (map rec_element table)
  /\ Forall (fun rec =>
               rec_n_materials rec
               = length (filter (has_element (rec_element rec)) (filter_included_rows df))
               /\ (1 <= rec_n_materials rec)%nat) table
  /\ list_sum (map rec_n_materials table) = length (filter_included_rows df).
Proof.
  intros df table warnings Hagg.
  assert (Hne : filter_included_rows df <> []).
  { intros E. unfold aggregate_element_table in Hagg. rewrite E in Hagg.
    discriminate. }
  rewrite (aggregate_nonempty df Hne) in Hagg.
  set (filtered := filter_included_rows df) in *.
  destruct (aggregate_groups_fields _ _ _ Hagg) as [Hel Hn].
  set (keys := group_keys (dropna_text (map m_carrier_element filtered))).
  assert (Hkeys : map fst (groupby filtered) = keys).
  { unfold groupby. rewrite map_map. apply map_id. }
  assert (Hsizes : map (fun g => length (snd g)) (groupby filtered)
                   = map (fun k => length (filter (has_element k) filtered)) keys).
  { unfold groupby. rewrite map_map. reflexivity. }
  assert (Hinc : increasing keys) by apply group_keys_increasing.
  rewrite Hkeys in Hel. rewrite Hsizes in Hn.
  split; [now rewrite Hel |].
  split; [rewrite Hel; now apply increasing_NoDup |].
  split.
  - apply Forall_forall. intros rec Hrec.
    assert (Hpair : In (rec_element rec, rec_n_materials rec)
                      (combine (map rec_element table) (map rec_n_materials table))).
    { clear - Hrec. induction table as [| x table IH]; [destruct Hrec |].
      destruct Hrec as [-> | Hrec]; [now left | right; auto]. }
    rewrite Hel, Hn in Hpair.
    assert (Hk : forall (f : string -> nat) l e n,
              In (e, n) (combine l (map f l)) -> In e l /\ n = f e).
    { clear. intros f l e n. induction l as [| k l IH]; [intros [] |].
      cbn [map combine]. intros [E | Hin].
      - injection E as -> <-. split; [now left | reflexivity].
      - destruct (IH Hin). split; [now right | assumption]. }
    apply Hk in Hpair. destruct Hpair as [Hin ->].
    split; [reflexivity |].
    apply in_group_keys, in_dropna_text, in_map_iff in Hin.
    destruct Hin as (r & Hr & Hin).
    assert (Hmem : In r (filter (has_element (rec_element rec)) filtered)).
    { apply filter_In. split; [exact Hin | now apply has_element_spec]. }
    destruct (filter (has_element (rec_element rec)) filtered); [destruct Hmem |].
    simpl. lia.
  - rewrite Hn. apply group_sizes_sum; [now apply increasing_NoDup |].
    apply Forall_forall. intros r Hr.
    destruct (filtered_notna df r Hr) as (e & b & He & _).
    exists e. split; [| exact He].
    apply in_group_keys, in_dropna_text, in_map_iff. exists r. auto.
Qed.

End AggregateTable.

Section InclusionRules.

Import Spec Props TopologyEngine Data Inclusion.

Variable strip : string -> string.

Lemma existsb_eqb_In (x : string) (l : list string) :
  existsb (String.eqb x) l = true <-> In x l.
Proof.
  rewrite existsb_exists. split.
  - intros (y & Hy & E). apply String.eqb_eq in E. now subst.
  - intros H. exists x. split; [exact H | apply String.eqb_refl].
Qed.

Lemma cell_in_spec cell allowed :
  cell_in cell allowed = true <-> exists s, cell = Some s /\ In s allowed.
Proof.
  destruct cell as [s |]; simpl.
  - rewrite existsb_eqb_In. split; [intros H; now exists s |].
    intros (s' & E & H). now injection E as ->.
  - split; [discriminate | intros (s & E & _); discriminate].
Qed.

Lemma zeroish_spec (row : CuratedRow) :
  forallb (fun p => isnan p || feqb p (Fin 0))
    (map (fingerprint (material row)) PRIME_COLUMNS) = false
  <-> exists p, isnan (fingerprint (material row) p) = false
                /\ feqb (fingerprint (material row) p) (Fin 0) = false.
Proof.
  split.
  - intros H. cbn [map PRIME_COLUMNS forallb] in H.
    repeat (apply andb_false_iff in H; destruct H as [H | H]);
      try discriminate;
      apply orb_false_iff in H;
      [exists E2 | exists E3 | exists E5 | exists E7]; exact H.
  - intros (p & H1 & H2).
    destruct (forallb _ _) eqn:E; trivial.
    rewrite forallb_forall in E.
    specialize (E (fingerprint (material row) p)).
    rewrite H1, H2 in E. symmetry. apply E. apply in_map.
    destruct p; simpl; tauto.
Qed.

Lemma all_nan_zeroish (row : CuratedRow) :
  forallb isnan (map (fingerprint (material row)) PRIME_COLUMNS) = true ->
  forallb (fun p => isnan p || feqb p (Fin 0))
    (map (fingerprint (material row)) PRIME_COLUMNS) = true.
Proof.
  rewrite !forallb_forall. intros H x Hx. now rewrite (H x Hx).
Qed.

(** No reason is recorded exactly for the rows that meet the four
    conditions. *)
Lemma exclusion_reasons_nil row :
  exclusion_reasons strip row = [] <-> includable strip row.
Proof.
  unfold exclusion_reasons, includable. cbv zeta. split.
  - intros H.
    apply app_eq_nil in H. destruct H as [HA H].
    apply app_eq_nil in H. destruct H as [HB H].
    apply app_eq_nil in H. destruct H as [HC HD].
    split; [| split; [| split]].
    + unfold stripped, falsy in HA.
      destruct (m_carrier_element (material row)) as [e |]; [| discriminate].
      cbn [option_map] in HA. exists e. split; [reflexivity |].
      destruct (String.eqb_spec (strip e) EmptyString); [discriminate | assumption].
    + destruct (cell_in (stripped strip (Data.carrier_block (material row)))
                  ["s"; "p"; "d"; "f"]%string) eqn:E; [| discriminate].
      apply cell_in_spec in E. destruct E as (s & Es & Hin).
      unfold stripped in Es.
      destruct (Data.carrier_block (material row)) as [b |]; [| discriminate].
      cbn [option_map] in Es. injection Es as <-. now exists b.
    + destruct (cell_in (category row) ALLOWED_CATEGORIES) eqn:E; [| discriminate].
      now apply cell_in_spec.
    + apply zeroish_spec.
      destruct (forallb isnan (map (fingerprint (material row)) PRIME_COLUMNS));
        [discriminate |].
      destruct (forallb (fun p => isnan p || feqb p (Fin 0))
                  (map (fingerprint (material row)) PRIME_COLUMNS));
        [discriminate | reflexivity].
  - intros ((e & He & Hne) & (b & Hb & Hin) & Hc & Hp).
    rewrite He, Hb. cbn [stripped option_map falsy].
    apply String.eqb_neq in Hne. rewrite Hne.
    assert (E1 : cell_in (Some (strip b)) ["s"; "p"; "d"; "f"]%string = true).
    { apply cell_in_spec. now exists (strip b). }
    rewrite E1. apply cell_in_spec in Hc. rewrite Hc.
    apply zeroish_spec in Hp.
    destruct (forallb isnan (map (fingerprint (material row)) PRIME_COLUMNS)) eqn:En.
    + apply all_nan_zeroish in En. congruence.
    + rewrite Hp. reflexivity.
Qed.

Lemma include_flag_spec row :
  (include_flag strip row = 1%Z <-> includable strip row)
  /\ (include_flag strip row = 0%Z <-> ~ includable strip row).
Proof.
  unfold include_flag. rewrite <- exclusion_reasons_nil.
  destruct (exclusion_reasons strip row); split; split; intros H;
    try reflexivity; try discriminate; try congruence;
    try (exfalso; now apply H).
Qed.

Lemma flag_counts (l : list CuratedRow) :
  Forall (fun row => include_study04 (material row) = 1%Z
                     \/ include_study04 (material row) = 0%Z) l ->
  (length (filter (fun row => (include_study04 (material row) =? 1)%Z) l)
   + length (filter (fun row => (include_study04 (material row) =? 0)%Z) l)
   = length l)%nat.
Proof.
  induction 1 as [| row l [H | H] _ IH]; [reflexivity | |];
    cbn [filter]; rewrite H; simpl; lia.
Qed.

(** X21.  [apply_inclusion_rules] returns the table with only the flag
    column rewritten: row by row, the flag is 1 exactly when the carrier
    element is present and not blank, the stripped block is one of s, p, d,
    f, the category is an allowed one and some fingerprint component is
    neither missing nor zero, and 0 otherwise, whatever flag the row carried
    before; the included and excluded counts of the closing log line add up
    to the number of rows. *)
Theorem inclusion_rules_flags :
  forall df : list CuratedRow,
  let out := apply_inclusion_rules strip df in
  Forall2 (fun row row' =>
             category row' = category row
             /\ material row' = set_include (material row) (include_study04 (material row'))
             /\ (include_study04 (material row') = 1%Z <-> includable strip row)
             /\ (include_study04 (material row') = 0%Z <-> ~ includable strip row))
    df out
  /\ (fst (fst (summary_counts out)) + snd (fst (summary_counts out))
      = snd (summary_counts out))%nat
  /\ snd (summary_counts out) = length df.
Proof.
  intros df out. subst out. split; [| split].
  - unfold apply_inclusion_rules. induction df as [| row df IH]; constructor; trivial.
    cbn [category material set_include include_study04].
    split; [reflexivity |]. split; [reflexivity |]. apply include_flag_spec.
  - unfold summary_counts. cbn [fst snd]. apply flag_counts.
    unfold apply_inclusion_rules. apply Forall_map, Forall_forall.
    intros row _. cbn [material set_include include_study04].
    unfold include_flag. destruct (exclusion_reasons strip row); auto.
  - unfold summary_counts, apply_inclusion_rules. cbn [snd]. apply length_map.
Qed.

Lemma includable_notna row :
  includable strip row ->
  notna (m_carrier_element (material row)) = true
  /\ notna (Data.carrier_block (material row)) = true.
Proof.
  intros ((e & -> & _) & (b & -> & _) & _). split; reflexivity.
Qed.

(** X22.  After the inclusion rules, the validity checks of
    [filter_included_rows] are redundant: it keeps exactly the rows flagged
    1, as many as the log line counts as included; and the rules are
    idempotent, applying them to their own output changes nothing. *)
Theorem inclusion_rules_then_filter :
  forall df : list CuratedRow,
  let out := apply_inclusion_rules strip df in
  filter_included_rows (map material out)
  = filter (fun r => (include_study04 r =? 1)%Z) (map material out)
  /\ length (filter_included_rows (map material out)) = fst (fst (summary_counts out))
  /\ apply_inclusion_rules strip out = out.
Proof.
  intros df out. subst out.
  assert (Hfilter :
    filter_included_rows (map material (apply_inclusion_rules strip df))
    = filter (fun r => (include_study04 r =? 1)%Z)
        (map material (apply_inclusion_rules strip df))).
  { unfold filter_included_rows, apply_inclusion_rules. rewrite !map_map.
    apply filter_ext_in. intros r Hr. apply in_map_iff in Hr.
    destruct Hr as (row & <- & _).
    cbn [material set_include include_study04 m_carrier_element Data.carrier_block].
    destruct (include_flag_spec row) as [H1 _].
    destruct (include_flag strip row =? 1)%Z eqn:E; [| reflexivity].
    apply Z.eqb_eq in E. apply H1 in E.
    destruct (includable_notna row E) as [-> ->]. reflexivity. }
  split; [exact Hfilter |]. split.
  - rewrite Hfilter. unfold summary_counts. cbn [fst].
    now rewrite filter_map_length.
  - unfold apply_inclusion_rules. rewrite map_map. apply map_ext.
    intros row. reflexivity.
Qed.

End InclusionRules.

Section DataFactsRuns.

Import Spec Props TopologyEngine Data Inclusion Examples Cases.

Lemma aggregate_table_partition_witness :
  exists table warnings,
    aggregate_element_table (L := toy_libraries) materials_ok = Ok (table, warnings)
    /\ increasing (map rec_element table)
    /\ NoDup (map rec_element table)
    /\ Forall (fun rec =>
                 rec_n_materials rec
                 = length (filter (has_element (rec_element rec))
                             (filter_included_rows materials_ok))
                 /\ (1 <= rec_n_materials rec)%nat) table
    /\ list_sum (map rec_n_materials table) = length (filter_included_rows materials_ok).
Proof.
  eexists _, _. split; [vm_compute; reflexivity |].
  eapply (aggregate_table_partition (L := toy_libraries) materials_ok).
  vm_compute. reflexivity.
Defined.

(** The rules on four curated rows: only the first one is kept, its padded
    cells notwithstanding. *)
Lemma inclusion_rules_flags_witness :
  map (fun row => include_study04 (material row))
      (apply_inclusion_rules strip_blanks curated_rows)
  = [1; 0; 0; 0]%Z
  /\ Forall2 (fun row row' =>
                category row' = category row
                /\ material row'
                   = set_include (material row) (include_study04 (material row'))
                /\ (include_study04 (material row') = 1%Z
                    <-> includable strip_blanks row)
                /\ (include_study04 (material row') = 0%Z
                    <-> ~ includable strip_blanks row))
       curated_rows (apply_inclusion_rules strip_blanks curated_rows).
Proof.
  split; [reflexivity |].
  apply (inclusion_rules_flags strip_blanks curated_rows).
Defined.

Lemma inclusion_rules_then_filter_witness :
  map material_name
      (filter_included_rows
         (map material (apply_inclusion_rules strip_blanks curated_rows)))
  = ["Nb3Sn"%string]
  /\ apply_inclusion_rules strip_blanks (apply_inclusion_rules strip_blanks curated_rows)
     = apply_inclusion_rules strip_blanks curated_rows.
Proof.
  split; [reflexivity |].
  apply (inclusion_rules_then_filter strip_blanks curated_rows).
Defined.

End DataFactsRuns.


(** ** The normalised lock and noise levels of the simple engine *)

Section LockNormalisation.

Import Spec Props TopologyEngine.

(** The value of a clipped number. *)
Lemma np_clip_value q :
  exists c,
    np_clip (Fin q) (Fin 0) (Fin 1) = Fin c
    /\ ((q < 0 /\ c == 0) \/ (1 < q /\ c == 1) \/ (0 <= q <= 1 /\ c == q)).
Proof.
  unfold np_clip, np_maximum, np_minimum. cbn [isnan orb].
  destruct (fltb (Fin q) (Fin 0)) eqn:H0.
  - apply fltb_Fin in H0. cbn [isnan orb].
    change (fltb (Fin 1) (Fin 0)) with false. cbv iota.
    exists 0. split; [reflexivity |]. left. split; [exact H0 | reflexivity].
  - apply fltb_Fin_false in H0. cbn [isnan orb].
    destruct (fltb (Fin 1) (Fin q)) eqn:H1.
    + apply fltb_Fin in H1. exists 1. split; [reflexivity |].
      right. left. split; [exact H1 | reflexivity].
    + apply fltb_Fin_false in H1. exists q. split; [reflexivity |].
      right. right. split; [lra | reflexivity].
Qed.

(** The running minimum of a column of numbers is one of them and a lower
    bound of all. *)
Lemma fold_min_spec (l : list Q) (x : Q) :
  exists m,
    fold_left (fun m y => if fltb y m then y else m) (map Fin l) (Fin x) = Fin m
    /\ (m = x \/ In m l)
    /\ m <= x
    /\ Forall (fun y => m <= y) l.
Proof.
  revert x. induction l as [| y l IH]; intros x.
  - exists x. split; [reflexivity |]. split; [now left |]. split; [lra | constructor].
  - cbn [map fold_left].
    destruct (fltb (Fin y) (Fin x)) eqn:H.
    + apply fltb_Fin in H. destruct (IH y) as (m & Hm & Hin & Hle & Hall).
      exists m. split; [exact Hm |].
      split; [right; destruct Hin as [-> | Hin]; [now left | now right] |].
      split; [lra |]. constructor; trivial.
    + apply fltb_Fin_false in H. destruct (IH x) as (m & Hm & Hin & Hle & Hall).
      exists m. split; [exact Hm |].
      split; [destruct Hin as [-> | Hin]; [now left | right; now right] |].
      split; [exact Hle |]. constructor; [lra | exact Hall].
Qed.

Lemma series_min_spec (l : list Q) :
  l <> [] ->
  exists m, series_min (map Fin l) = Fin m /\ In m l /\ Forall (fun y => m <= y) l.
Proof.
  destruct l as [| x l]; [congruence |]. intros _. cbn [map series_min].
  destruct (fold_min_spec l x) as (m & Hm & Hin & Hle & Hall).
  exists m. split; [exact Hm |].
  split; [destruct Hin as [-> | Hin]; [now left | now right] |].
  constructor; assumption.
Qed.

Lemma dropna_numbers col :
  Forall finite_or_missing col ->
  exists qs, dropna col = map Fin qs /\ forall q, In q qs <-> In (Fin q) col.
Proof.
  induction 1 as [| x col [-> | [q ->]] _ (qs & E & Hqs)].
  - exists []. split; [reflexivity |]. intros q. split; intros [].
  - exists qs. split; [exact E |]. intros q. rewrite Hqs. split; [now right |].
    intros [H | H]; [discriminate | exact H].
  - exists (q :: qs). split.
    + unfold dropna in *. cbn [filter isnan negb map]. now rewrite E.
    + intros q'. cbn [In]. rewrite Hqs. split.
      * intros [-> | H]; [now left | now right].
      * intros [H | H]; [injection H as ->; now left | now right].
Qed.

(** The minimum and the span that the engine computes for a column with at
    least one number. *)
Lemma column_min_span col x :
  Forall finite_or_missing col -> In (Fin x) col ->
  exists m s,
    series_min (dropna col) = Fin m
    /\ span (series_min (dropna col)) (series_max (dropna col)) = Fin s
    /\ 0 < s
    /\ In (Fin m) col
    /\ (forall y, In (Fin y) col -> m <= y).
Proof.
  intros Hcol Hin.
  destruct (rescaled_finite col (Fin x) Hcol Hin eq_refl) as (m & s & Hm & Hs & Hpos).
  destruct (dropna_numbers col Hcol) as (qs & E & Hqs).
  assert (Hne : qs <> []).
  { intros ->. apply (Hqs x). exact Hin. }
  destruct (series_min_spec qs Hne) as (m' & Hm' & Hin' & Hall).
  exists m', s. split; [now rewrite E |].
  split; [exact Hs |]. split; [exact Hpos |]. split; [now apply Hqs |].
  intros y Hy. rewrite Forall_forall in Hall. apply Hall. now apply Hqs.
Qed.

(** The lock level of a row whose deviation is a number, given the
    statistics of the column. *)
Lemma row_Q_lock_at st row m s d :
  delta_min st = Fin m -> delta_span st = Fin s -> 0 < s ->
  delta_N_median row = Fin d -> m <= d ->
  exists c,
    row_Q_lock st row = Fin c
    /\ 0 <= c <= 1
    /\ ((1 - (d - m) / s < 0 /\ c == 0) \/ c == 1 - (d - m) / s).
Proof.
  intros Hm Hs Hpos Hd Hmd. unfold row_Q_lock. rewrite Hd, Hm, Hs.
  cbn [isnan fsub fneg fadd]. rewrite fdiv_Fin_nonzero by lra. cbn [fneg fadd].
  destruct (np_clip_value (1 + - ((d + - m) / s))) as (c & Hc & Hcases).
  exists c. split; [exact Hc |].
  assert (Hq : 0 <= (d + - m) / s).
  { apply Qle_shift_div_l; [exact Hpos | lra]. }
  assert (E : 1 + - ((d + - m) / s) == 1 - (d - m) / s).
  { unfold Qminus. reflexivity. }
  rewrite <- E.
  destruct Hcases as [[H1 H2] | [[H1 H2] | [H1 H2]]].
  - split; [lra |]. left. now split.
  - lra.
  - split; [lra |]. now right.
Qed.

Lemma row_xi_norm_at st row m s x :
  xi_min st = Fin m -> xi_span st = Fin s -> 0 < s ->
  xi_ext_median row = Fin x -> m <= x ->
  exists c,
    row_xi_norm st row = Fin c
    /\ 0 <= c <= 1
    /\ ((1 < (x - m) / s /\ c == 1) \/ c == (x - m) / s).
Proof.
  intros Hm Hs Hpos Hx Hmx. unfold row_xi_norm. rewrite Hx, Hm, Hs.
  cbn [isnan fsub fneg fadd]. rewrite fdiv_Fin_nonzero by lra.
  destruct (np_clip_value ((x + - m) / s)) as (c & Hc & Hcases).
  exists c. split; [exact Hc |].
  assert (Hq : 0 <= (x + - m) / s).
  { apply Qle_shift_div_l; [exact Hpos | lra]. }
  assert (E : (x + - m) / s == (x - m) / s).
  { unfold Qminus. reflexivity. }
  rewrite <- E.
  destruct Hcases as [[H1 H2] | [[H1 H2] | [H1 H2]]].
  - lra.
  - split; [lra |]. left. now split.
  - split; [lra |]. now right.
Qed.

Lemma quotient_mono (a b s : Q) : 0 < s -> a <= b -> a / s <= b / s.
Proof.
  intros Hs Hab. unfold Qdiv. apply Qmult_le_compat_r; [exact Hab |].
  apply Qlt_le_weak, Qinv_lt_0_compat, Hs.
Qed.

(** X23.  The lock level that the simple engine derives from the lock
    deviation is antitone: of two elements of a table whose deviations are
    numbers of moderate magnitude or missing, the one with the larger
    deviation gets the smaller [Q_lock];
    both lie in [0, 1], and an element whose deviation is the smallest of
    the column gets [Q_lock = 1]. *)
Theorem lock_level_antitone :
  forall (carrier_df : list CarrierRow) (row row' : CarrierRow) (d d' : Q),
  Forall (fun r => moderate_or_missing (delta_N_median r)) carrier_df ->
  In row carrier_df -> In row' carrier_df ->
  delta_N_median row = Fin d -> delta_N_median row' = Fin d' -> d <= d' ->
  exists q q',
    row_Q_lock (column_stats carrier_df) row = Fin q
    /\ row_Q_lock (column_stats carrier_df) row' = Fin q'
    /\ 0 <= q' /\ q' <= q /\ q <= 1
    /\ ((forall r x, In r carrier_df -> delta_N_median r = Fin x -> d <= x) -> q == 1).
Proof.
  intros carrier_df row row' d d' Hcol Hin Hin' Hd Hd' Hle.
  assert (Hc : Forall finite_or_missing (map delta_N_median carrier_df)).
  { apply Forall_map. eapply Forall_impl; [| exact Hcol].
    intros r Hr. now apply moderate_cell. }
  assert (Hind : In (Fin d) (map delta_N_median carrier_df)).
  { rewrite <- Hd. now apply in_map. }
  destruct (column_min_span _ d Hc Hind) as (m & s & Hm & Hs & Hpos & Hmin & Hall).
  assert (Hmd : m <= d) by now apply Hall.
  destruct (row_Q_lock_at (column_stats carrier_df) row m s d Hm Hs Hpos Hd Hmd)
    as (q & Hq & Hq01 & Hqv).
  destruct (row_Q_lock_at (column_stats carrier_df) row' m s d' Hm Hs Hpos Hd')
    as (q' & Hq' & Hq01' & Hqv'); [lra |].
  exists q, q'. split; [exact Hq |]. split; [exact Hq' |].
  split; [lra |].
  pose proof (quotient_mono (d - m) (d' - m) s Hpos) as Hmono.
  split; [| split; [lra |]].
  - destruct Hqv as [[H1 H2] | H2], Hqv' as [[H1' H2'] | H2']; lra.
  - intros Hleast.
    apply in_map_iff in Hmin. destruct Hmin as (r & Hr & Hrin).
    pose proof (Hleast r m Hrin Hr) as Hdm.
    assert (E : (d - m) / s == 0).
    { setoid_replace (d - m) with 0 by lra. unfold Qdiv. ring. }
    destruct Hqv as [[H1 H2] | H2]; lra.
Qed.

(** X24.  The noise level that the simple engine derives from the
    external noise indicator is monotone: of two elements of a table whose
    indicators are numbers of moderate magnitude or missing, the one with
    the larger indicator gets the larger [xi_norm]; both lie in [0, 1], and an element whose indicator is
    the smallest of the column gets [xi_norm = 0]. *)
Theorem noise_level_monotone :
  forall (carrier_df : list CarrierRow) (row row' : CarrierRow) (x x' : Q),
  Forall (fun r => moderate_or_missing (xi_ext_median r)) carrier_df ->
  In row carrier_df -> In row' carrier_df ->
  xi_ext_median row = Fin x -> xi_ext_median row' = Fin x' -> x <= x' ->
  exists q q',
    row_xi_norm (column_stats carrier_df) row = Fin q
    /\ row_xi_norm (column_stats carrier_df) row' = Fin q'
    /\ 0 <= q /\ q <= q' /\ q' <= 1
    /\ ((forall r y, In r carrier_df -> xi_ext_median r = Fin y -> x <= y) -> q == 0).
Proof.
  intros carrier_df row row' x x' Hcol Hin Hin' Hx Hx' Hle.
  assert (Hc : Forall finite_or_missing (map xi_ext_median carrier_df)).
  { apply Forall_map. eapply Forall_impl; [| exact Hcol].
    intros r Hr. now apply moderate_cell. }
  assert (Hind : In (Fin x) (map xi_ext_median carrier_df)).
  { rewrite <- Hx. now apply in_map. }
  destruct (column_min_span _ x Hc Hind) as (m & s & Hm & Hs & Hpos & Hmin & Hall).
  assert (Hmx : m <= x) by now apply Hall.
  destruct (row_xi_norm_at (column_stats carrier_df) row m s x Hm Hs Hpos Hx Hmx)
    as (q & Hq & Hq01 & Hqv).
  destruct (row_xi_norm_at (column_stats carrier_df) row' m s x' Hm Hs Hpos Hx')
    as (q' & Hq' & Hq01' & Hqv'); [lra |].
  exists q, q'. split; [exact Hq |]. split; [exact Hq' |].
  split; [lra |].
  pose proof (quotient_mono (x - m) (x' - m) s Hpos) as Hmono.
  split; [| split; [lra |]].
  - destruct Hqv as [[H1 H2] | H2], Hqv' as [[H1' H2'] | H2']; lra.
  - intros Hleast.
    apply in_map_iff in Hmin. destruct Hmin as (r & Hr & Hrin).
    pose proof (Hleast r m Hrin Hr) as Hxm.
    assert (E : (x - m) / s == 0).
    { setoid_replace (x - m) with 0 by lra. unfold Qdiv. ring. }
    destruct Hqv as [[H1 H2] | H2]; lra.
Qed.

End LockNormalisation.

Section LockNormalisationRuns.

Import Spec Props TopologyEngine Examples.

Lemma lock_level_antitone_witness :
  exists q q',
    row_Q_lock (column_stats [row_Al; row_Cu]) row_Al = Fin q
    /\ row_Q_lock (column_stats [row_Al; row_Cu]) row_Cu = Fin q'
    /\ 0 <= q' /\ q' <= q /\ q <= 1
    /\ ((forall r x, In r [row_Al; row_Cu] -> delta_N_median r = Fin x -> 0 <= x) ->
        q == 1).
Proof.
  apply (lock_level_antitone [row_Al; row_Cu] row_Al row_Cu 0 1).
  - repeat (apply Forall_cons || apply Forall_nil); range_cell.
  - now left.
  - right. now left.
  - reflexivity.
  - reflexivity.
  - discriminate.
Defined.

Lemma noise_level_monotone_witness :
  exists q q',
    row_xi_norm (column_stats [row_Al; row_Cu]) row_Al = Fin q
    /\ row_xi_norm (column_stats [row_Al; row_Cu]) row_Cu = Fin q'
    /\ 0 <= q /\ q <= q' /\ q' <= 1
    /\ ((forall r y, In r [row_Al; row_Cu] -> xi_ext_median r = Fin y -> 0 <= y) ->
        q == 0).
Proof.
  apply (noise_level_monotone [row_Al; row_Cu] row_Al row_Cu 0 1).
  - repeat (apply Forall_cons || apply Forall_nil); range_cell.
  - now left.
  - right. now left.
  - reflexivity.
  - reflexivity.
  - discriminate.
Defined.

End LockNormalisationRuns.

(** ** The side terms of the resonant score *)

Section ResonantSideTerms.

Import Spec Props TopologyEngine ResonantEngine.

Lemma dict_get_absent d key default :
  (forall kv, In kv d -> fst kv <> key) -> dict_get d key default = default.
Proof.
  induction d as [| [k v] d IH]; intros H; simpl; trivial.
  destruct (String.eqb_spec k key) as [E | _].
  - exfalso. apply (H (k, v)); [now left | exact E].
  - apply IH. intros kv Hkv. apply H. now right.
Qed.

Lemma score_side_formulas params row topo :
  s_C_N (score params row topo)
  = match _n_sim (N_median row) (topology_id topo) with
    | Some N_sim =>
        if negb (isnan (N_median row))
        then fsquare ((N_median row - N_sim) / sigma_N params)%fl
        else Fin 0
    | None => Fin 0
    end
  /\ s_C_xi (score params row topo)
     = if negb (isnan (xi_ext_median row))
       then fsquare ((xi_ext_median row
                      - _xi_sim (_q_lock (delta_N_median row)) (topology_id topo) params)
                     / sigma_xi params)%fl
       else Fin 0.
Proof.
  unfold score.
  destruct (_fit_amplitude (_prime_vector row) (w topo) (sigma_e params))
    as [[A_T C_e] e_sim].
  split; reflexivity.
Qed.

(** X25.  The size term of the resonant score.  It is 0 for an element
    whose [N_median] is missing.  For an observed [N_median] of moderate
    magnitude and a scale [sigma_N] neither tiny nor huge it is a
    non-negative number, which vanishes for "BIN_DIPOLE", whose [N_SCALE] is
    1.0, and for every topology that [N_SCALE] does not list, whatever the
    element. *)
Theorem size_cost_scale :
  forall (params : HyperParams) (row : CarrierRow) (topo : Topology),
  (N_median row = NaN -> s_C_N (score params row topo) = Fin 0)
  /\ (moderate (N_median row) -> scale (sigma_N params) ->
      exists c,
        s_C_N (score params row topo) = Fin c
        /\ 0 <= c
        /\ (topology_id topo = "BIN_DIPOLE"%string -> c == 0)
        /\ ((forall kv, In kv N_SCALE -> fst kv <> topology_id topo) -> c == 0)).
Proof.
  intros params row topo.
  destruct (score_side_formulas params row topo) as [HN _].
  split.
  - intros E. rewrite HN, E. reflexivity.
  - intros (n & En & _) Hscale.
    destruct (scale_nonzero _ Hscale) as (sN & Es & Hs).
    destruct (N_SCALE_finite (topology_id topo)) as [k Hk].
    rewrite HN, En, Es. unfold _n_sim. cbn [isnan negb].
    rewrite Hk. cbn [fmul fsub fneg fadd].
    rewrite fdiv_Fin_nonzero by exact Hs. cbn [fsquare fmul].
    eexists. split; [reflexivity |].
    split; [apply Qsquare_nonneg |].
    assert (Hone : k == 1 -> (n + - (n * k)) / sN * ((n + - (n * k)) / sN) == 0).
    { intros E. rewrite E. field. exact Hs. }
    split.
    + intros Eid. apply Hone. rewrite Eid in Hk. injection Hk as <-. reflexivity.
    + intros Habs. apply Hone.
      rewrite (dict_get_absent _ _ _ Habs) in Hk. injection Hk as <-. reflexivity.
Qed.

Lemma q_lock_locked d : d <= 0 -> exists q, _q_lock (Fin d) = Fin q /\ q == 1.
Proof.
  intros Hd. unfold _q_lock. cbn [isnan fsub fneg fadd].
  destruct (np_clip_value (1 + - d)) as (c & Hc & Hcases).
  exists c. split; [exact Hc |].
  destruct Hcases as [[H1 H2] | [[H1 H2] | [H1 H2]]]; lra.
Qed.

(** X26.  The noise term of the resonant score does not tell the
    topologies apart for a fully locked element: when [delta_N_median <= 0],
    so that [q_lock = 1], the simulated noise is [xi_env] for every topology
    and [C_xi] has the same value for all of them. *)
Theorem locked_noise_cost_uniform :
  forall (params : HyperParams) (row : CarrierRow) (topo topo' : Topology) (d : Q),
  delta_N_median row = Fin d -> d <= 0 ->
  finite (xi_env params) -> nonzero (sigma_xi params) ->
  finite_or_missing (xi_ext_median row) ->
  same (_xi_sim (_q_lock (delta_N_median row)) (topology_id topo) params)
       (xi_env params)
  /\ same (s_C_xi (score params row topo)) (s_C_xi (score params row topo')).
Proof.
  intros params row topo topo' d Hd Hle [env Henv] (sx & Hsx & Hnz) Hxi.
  assert (Hsim : forall t : Topology,
            exists v, _xi_sim (_q_lock (delta_N_median row)) (topology_id t) params = Fin v
                      /\ v == env).
  { intros t. rewrite Hd. destruct (q_lock_locked d Hle) as (q & Hq & Eq1).
    destruct (COMPLEXITY_finite (topology_id t)) as [cx Hcx].
    unfold _xi_sim. rewrite Hq, Henv, Hcx. cbn [fsub fneg fadd fmul].
    eexists. split; [reflexivity |]. rewrite Eq1. ring. }
  split.
  - destruct (Hsim topo) as (v & Hv & Ev). rewrite Hv, Henv. exact Ev.
  - destruct (score_side_formulas params row topo) as [_ ->].
    destruct (score_side_formulas params row topo') as [_ ->].
    destruct Hxi as [-> | [x ->]]; cbn [isnan negb]; [reflexivity |].
    destruct (Hsim topo) as (v & -> & Ev). destruct (Hsim topo') as (v' & -> & Ev').
    rewrite Hsx. cbn [fsub fneg fadd]. rewrite !fdiv_Fin_nonzero by exact Hnz.
    cbn [fsquare fmul same]. rewrite Ev, Ev'. reflexivity.
Qed.

End ResonantSideTerms.

Section NullStatisticsDefined.

Import Spec Props Analysis NullModels Lib.

Context `{L : Libraries}.

(** X27.  When the two summary statistics of a null distribution are
    defined.  For a real statistic [r] and [m] valid null samples (neither
    [None] nor NaN), [_empirical_p] returns [None] exactly when [r] is NaN
    or [m = 0], and [_z_score] returns [None] exactly when [r] is NaN or
    [m < 2]; neither raises; so a z-score is never reported without a
    p-value. *)
Theorem null_statistics_defined :
  forall (r : float) (samples : list (option float)),
  let m := length (finite_samples samples) in
  (exists p, _empirical_p (Some r) samples = Ok p
             /\ (p = None <-> isnan r = true \/ m = 0%nat))
  /\ (exists z, _z_score (Some r) samples = Ok z
                /\ (z = None <-> isnan r = true \/ (m < 2)%nat))
  /\ (forall z, _z_score (Some r) samples = Ok (Some z) ->
        exists p, _empirical_p (Some r) samples = Ok (Some p)).
Proof.
  intros r samples m.
  assert (Hp : exists p, _empirical_p (Some r) samples = Ok p
                         /\ (p = None <-> isnan r = true \/ m = 0%nat)).
  { unfold _empirical_p. cbn [np_isnan_opt bind is_none]. fold m.
    destruct (isnan r) eqn:Hr; cbn [orb].
    - exists None. split; [reflexivity |]. split; auto.
    - destruct (m =? 0)%nat eqn:Hm.
      + exists None. split; [reflexivity |]. apply Nat.eqb_eq in Hm. split; auto.
      + eexists. split; [reflexivity |]. apply Nat.eqb_neq in Hm.
        split; [discriminate |]. intros [H | H]; [discriminate | contradiction]. }
  assert (Hz : exists z, _z_score (Some r) samples = Ok z
                         /\ (z = None <-> isnan r = true \/ (m < 2)%nat)).
  { unfold _z_score. cbn [np_isnan_opt bind is_none]. fold m.
    destruct (isnan r) eqn:Hr; cbn [orb].
    - exists None. split; [reflexivity |]. split; auto.
    - destruct (m <? 2)%nat eqn:Hm.
      + exists None. split; [reflexivity |]. apply Nat.ltb_lt in Hm. split; auto.
      + eexists. split; [reflexivity |]. apply Nat.ltb_ge in Hm.
        split; [discriminate |]. intros [H | H]; [discriminate | lia]. }
  split; [exact Hp |]. split; [exact Hz |].
  intros z Ez. destruct Hp as (p & Ep & Hpn). destruct Hz as (z' & Ez' & Hzn).
  rewrite Ez in Ez'. injection Ez' as <-.
  destruct p as [p |]; [now exists p |].
  exfalso. destruct Hpn as [Hpn _]. destruct Hzn as [_ Hzn].
  assert (H : isnan r = true \/ (m < 2)%nat).
  { destruct (Hpn eq_refl) as [H | H]; [now left | right; lia]. }
  specialize (Hzn H). discriminate.
Qed.

End NullStatisticsDefined.

Section ResonantSideTermsRuns.

Import Spec Props TopologyEngine ResonantEngine Examples.

Lemma locked_noise_cost_uniform_witness :
  same (_xi_sim (_q_lock (delta_N_median row_Al)) (topology_id topo_A) default_params)
       (xi_env default_params)
  /\ same (s_C_xi (score default_params row_Al topo_A))
          (s_C_xi (score default_params row_Al topo_B)).
Proof.
  apply (locked_noise_cost_uniform default_params row_Al topo_A topo_B 0).
  - reflexivity.
  - discriminate.
  - now eexists.
  - eexists. split; [reflexivity | discriminate].
  - right. now eexists.
Defined.

End ResonantSideTermsRuns.
